(** * RgbLightHandler: the light-channel handler of spi_rgbleds

    A shallow embedding of [src/spi_rgbleds/RgbLightHandler.cpp] and the
    properties of its refresh loop and of its transition engine.

    - C++ [float] is IEEE 754 binary32: the Standard Library's executable
      specification [SpecFloat], instantiated at precision 24 and
      exponent bound 128.
    - [vector<float>] is a list of floats, read and written by index.
    - The output sink ([PwmDriver::setRgbw]) and [this_thread::sleep_for]
      are events of a trace.
    - Loops that the source bounds by a float comparison take fuel.
    - The [std::thread] member is a flag that says whether the thread
      object is joinable; assigning to a joinable thread, or destroying
      one, ends the program. *)

From Stdlib Require Import ZArith Bool Lia QArith Qabs.
From Stdlib Require Import Floats.SpecFloat.
From stdpp Require Import base option list relations.

Local Open Scope Z_scope.

(** ** Single-precision floats *)

Module F32.

Definition prec : Z := 24.
Definition emax : Z := 128.

Definition add : spec_float -> spec_float -> spec_float := SFadd prec emax.
Definition sub : spec_float -> spec_float -> spec_float := SFsub prec emax.
Definition div : spec_float -> spec_float -> spec_float := SFdiv prec emax.
Definition ltb : spec_float -> spec_float -> bool := SFltb.
Definition leb : spec_float -> spec_float -> bool := SFleb.
Definition eqb : spec_float -> spec_float -> bool := SFeqb.

(** Conversion of an integer ([int] or [unsigned int]) to [float]:
    round to nearest, ties to even. *)
Definition of_Z (z : Z) : spec_float := binary_normalize prec emax z 0 false.

(** The literals [0.0f], [1.0f] and [0.5f]. *)
Definition zero : spec_float := S754_zero false.
Definition one : spec_float := S754_finite false 8388608 (-23).
Definition half : spec_float := S754_finite false 8388608 (-24).

(** [std::min(a, b)] is [(b < a) ? b : a]; [std::max(a, b)] is
    [(a < b) ? b : a]. *)
Definition min (a b : spec_float) : spec_float := if ltb b a then b else a.
Definition max (a b : spec_float) : spec_float := if ltb a b then b else a.

Definition is_nan (x : spec_float) : bool :=
  match x with S754_nan => true | _ => false end.

(** Zero or a finite nonzero number: neither an infinity nor NaN. *)
Definition is_finite (x : spec_float) : bool :=
  match x with S754_zero _ | S754_finite _ _ _ => true | _ => false end.

(** A float that is a member of the binary32 format. *)
Definition valid (x : spec_float) : bool := valid_binary prec emax x.

(** [0 <= x <= 1], as the comparisons of the machine decide it. *)
Definition in_unit (x : spec_float) : bool := leb zero x && leb x one.

(** The rational a float stands for; [None] for infinities and NaN. *)
Definition to_Q (x : spec_float) : option Q :=
  match x with
  | S754_zero _ => Some 0%Q
  | S754_finite s m e =>
      let v := (inject_Z (Z.pos m) * Qpower 2 e)%Q in
      Some (if s then Qopp v else v)
  | _ => None
  end.

(** [|x - q| <= tol], decided on the exact rationals. *)
Definition within (tol q : Q) (x : spec_float) : bool :=
  match to_Q x with
  | Some v => Qle_bool (Qabs (v - q)) tol
  | None => false
  end.

End F32.

(** ** Colors, events and outcomes *)

(** A [vector<float>]. *)
Definition color : Type := list spec_float.

(** Modelled from the spec: [NUM_COLORS] is a macro of the header
    [RgbLightHandler.h], which is not part of the sources; the spec's
    Color is a 4-channel value (R, G, B, W). *)
Definition NUM_COLORS : nat := 4.

(** [INT_MAX] of the 32-bit [int] that counts the transition steps. *)
Definition INT_MAX : Z := 2147483647.

(** The largest [unsigned int]. *)
Definition UINT_MAX : Z := 4294967295.

(** What the handler does to the outside world: a call of
    [pwmDriver->setRgbw(left, right)] or a
    [this_thread::sleep_for(chrono::milliseconds(ms))]. *)
Inductive event : Type :=
| SetRgbw (left right : color)
| Sleep (ms : Z).

Definition trace : Type := list event.

(** The color pairs a trace pushes to the sink, in order. *)
Definition pushes (tr : trace) : list (color * color) :=
  omap (fun e => match e with SetRgbw l r => Some (l, r) | Sleep _ => None end) tr.

(** How a run ends: it returns, it is cut off by the fuel of the model,
    or it leaves defined behaviour (a vector read past its end, or the
    signed overflow of the step counter). *)
Inductive outcome (A : Type) : Type :=
| Done (a : A)
| OutOfFuel
| Undefined.
Arguments Done {A} a.
Arguments OutOfFuel {A}.
Arguments Undefined {A}.

(** The value a run returned, or a default. *)
Definition returned {A : Type} (d : A) (o : outcome A) : A :=
  match o with Done a => a | _ => d end.

(** ** Patterns *)

(** A pattern has a public [refreshInterval] and a [getColor()] that may
    depend on the pattern's own state: [colorAt n] is the color of the
    [n]-th call, [calls] counts the calls made so far. *)
Record RgbLightPattern : Type := {
  refreshInterval : Z;
  colorAt : nat -> color;
  calls : nat
}.

Definition getColor (p : RgbLightPattern) : color * RgbLightPattern :=
  (colorAt p (calls p),
   {| refreshInterval := refreshInterval p; colorAt := colorAt p; calls := S (calls p) |}).

(** [clone()] makes an independent copy; values are not shared here. *)
Definition clone (p : RgbLightPattern) : RgbLightPattern := p.

(** Modelled from the spec: the class [RgbLightConstant] is not part of
    the sources; it is the baseline pattern that reports the color it was
    built with at every call. Its refresh interval is not known and is an
    argument. *)
Definition RgbLightConstant (interval : Z) (c : color) : RgbLightPattern :=
  {| refreshInterval := interval; colorAt := fun _ => c; calls := 0 |}.

(** ** The handler *)

(** The fields of [RgbLightHandler]. [workerThread] records whether the
    thread object is joinable. *)
Record RgbLightHandler : Type := {
  patternLeft : RgbLightPattern;
  patternRight : RgbLightPattern;
  patternsChanged : bool;
  transitionsEnabled : bool;
  transitionRefreshInterval : Z;
  transitionTime : Z;
  isRunning : bool;
  workerThread : bool
}.

Definition set_patternLeft (p : RgbLightPattern) (h : RgbLightHandler) : RgbLightHandler :=
  {| patternLeft := p; patternRight := patternRight h;
     patternsChanged := patternsChanged h; transitionsEnabled := transitionsEnabled h;
     transitionRefreshInterval := transitionRefreshInterval h;
     transitionTime := transitionTime h;
     isRunning := isRunning h; workerThread := workerThread h |}.

Definition set_patternRight (p : RgbLightPattern) (h : RgbLightHandler) : RgbLightHandler :=
  {| patternLeft := patternLeft h; patternRight := p;
     patternsChanged := patternsChanged h; transitionsEnabled := transitionsEnabled h;
     transitionRefreshInterval := transitionRefreshInterval h;
     transitionTime := transitionTime h;
     isRunning := isRunning h; workerThread := workerThread h |}.

Definition set_patternsChanged (b : bool) (h : RgbLightHandler) : RgbLightHandler :=
  {| patternLeft := patternLeft h; patternRight := patternRight h;
     patternsChanged := b; transitionsEnabled := transitionsEnabled h;
     transitionRefreshInterval := transitionRefreshInterval h;
     transitionTime := transitionTime h;
     isRunning := isRunning h; workerThread := workerThread h |}.

Definition set_isRunning (b : bool) (h : RgbLightHandler) : RgbLightHandler :=
  {| patternLeft := patternLeft h; patternRight := patternRight h;
     patternsChanged := patternsChanged h; transitionsEnabled := transitionsEnabled h;
     transitionRefreshInterval := transitionRefreshInterval h;
     transitionTime := transitionTime h;
     isRunning := b; workerThread := workerThread h |}.

Definition set_workerThread (b : bool) (h : RgbLightHandler) : RgbLightHandler :=
  {| patternLeft := patternLeft h; patternRight := patternRight h;
     patternsChanged := patternsChanged h; transitionsEnabled := transitionsEnabled h;
     transitionRefreshInterval := transitionRefreshInterval h;
     transitionTime := transitionTime h;
     isRunning := isRunning h; workerThread := b |}.

(** What a constructor leaves unassigned: [isRunning] in both
    constructors, the two transition timings in the one-argument
    constructor. The header is not part of the sources, so the values
    these members start with are arguments of the model. *)
Record unassigned : Type := {
  isRunning0 : bool;
  transitionRefreshInterval0 : Z;
  transitionTime0 : Z
}.

(** [RgbLightHandler(vector<float> defaultColor)]; [interval] is the
    refresh interval of the constant pattern. *)
Definition new_RgbLightHandler (u : unassigned) (interval : Z) (defaultColor : color)
  : RgbLightHandler :=
  {| patternLeft := RgbLightConstant interval defaultColor;
     patternRight := RgbLightConstant interval defaultColor;
     patternsChanged := false;
     transitionsEnabled := false;
     transitionRefreshInterval := transitionRefreshInterval0 u;
     transitionTime := transitionTime0 u;
     isRunning := isRunning0 u;
     workerThread := false |}.

(** [RgbLightHandler(defaultColor, transitionRefreshInterval, transitionTime)]. *)
Definition new_RgbLightHandler_transitions (u : unassigned) (interval : Z)
    (defaultColor : color) (transitionRefreshInterval transitionTime : Z)
  : RgbLightHandler :=
  {| patternLeft := RgbLightConstant interval defaultColor;
     patternRight := RgbLightConstant interval defaultColor;
     patternsChanged := false;
     transitionsEnabled := true;
     transitionRefreshInterval := transitionRefreshInterval;
     transitionTime := transitionTime;
     isRunning := isRunning0 u;
     workerThread := false |}.

(** [start()]: [workerThread = thread(&RgbLightHandler::worker, this)].
    The assignment to a [std::thread] that is joinable calls
    [std::terminate()] and the program ends, [None]; otherwise the thread
    object becomes joinable. The new thread itself begins with
    [worker_start] below, at some time after [start()] has made it. *)
Definition start (h : RgbLightHandler) : option RgbLightHandler :=
  if workerThread h then None else Some (set_workerThread true h).

(** [stop()]: the events are the joins the call waits for. *)
Inductive wait : Type := Join.

Definition stop (h : RgbLightHandler) : RgbLightHandler * list wait :=
  if isRunning h then
    let h1 := set_isRunning false h in
    if workerThread h1 then (set_workerThread false h1, [Join])
    else (h1, [])
  else (h, []).

(** [setPatternLeft], [setPatternRight] and [setPatterns], each as the
    critical section between its [patternMutex.lock()] and
    [patternMutex.unlock()]. *)
Definition setPatternLeft (pattern : RgbLightPattern) (h : RgbLightHandler) : RgbLightHandler :=
  set_patternsChanged true (set_patternLeft (clone pattern) h).

Definition setPatternRight (pattern : RgbLightPattern) (h : RgbLightHandler) : RgbLightHandler :=
  set_patternsChanged true (set_patternRight (clone pattern) h).

Definition setPatterns (pattern : RgbLightPattern) (h : RgbLightHandler) : RgbLightHandler :=
  set_patternsChanged true
    (set_patternRight (clone pattern) (set_patternLeft (clone pattern) h)).

(** ** The transition engine *)

(** [max(min(x, 1.0f), 0.0f)]. *)
Definition clamp (x : spec_float) : spec_float :=
  F32.max (F32.min x F32.one) F32.zero.

(** The loop that computes the per-step deltas:
    [leftDelta[j] = (leftTo[j] - leftFrom[j]) / maxi], and the same on the
    right, for [j] from the given index, [n] more times. A read or write
    past the end of a vector gives [None]. *)
Fixpoint delta_loop (n j : nat) (maxi : spec_float)
    (leftTo leftFrom rightTo rightFrom leftDelta rightDelta : color)
  : option (color * color) :=
  match n with
  | O => Some (leftDelta, rightDelta)
  | S n' =>
      lt ← leftTo !! j;
      lf ← leftFrom !! j;
      _ ← leftDelta !! j;
      rt ← rightTo !! j;
      rf ← rightFrom !! j;
      _ ← rightDelta !! j;
      delta_loop n' (S j) maxi leftTo leftFrom rightTo rightFrom
        (<[j := F32.div (F32.sub lt lf) maxi]> leftDelta)
        (<[j := F32.div (F32.sub rt rf) maxi]> rightDelta)
  end.

(** The inner loop of a step:
    [leftFrom[j] = max(min(leftFrom[j] + leftDelta[j], 1.0f), 0.0f)], and
    the same on the right. *)
Fixpoint color_loop (n j : nat) (leftFrom rightFrom leftDelta rightDelta : color)
  : option (color * color) :=
  match n with
  | O => Some (leftFrom, rightFrom)
  | S n' =>
      lf ← leftFrom !! j;
      ld ← leftDelta !! j;
      rf ← rightFrom !! j;
      rd ← rightDelta !! j;
      color_loop n' (S j)
        (<[j := clamp (F32.add lf ld)]> leftFrom)
        (<[j := clamp (F32.add rf rd)]> rightFrom)
        leftDelta rightDelta
  end.

(** What the two inner loops compute on vectors of [NUM_COLORS]
    entries, channel by channel. *)
Definition delta_color (maxi : spec_float) (to from : color) : color :=
  zip_with (fun t f => F32.div (F32.sub t f) maxi) to from.

Definition step_color (from delta : color) : color :=
  zip_with (fun f d => clamp (F32.add f d)) from delta.

(** [for (int i = 0; i < maxi; i++)]: the test converts [i] to [float];
    a step updates the colors, pushes them and sleeps; [i++] at
    [INT_MAX] is a signed overflow. *)
Fixpoint transition_loop (fuel : nat) (refresh : Z) (maxi : spec_float) (i : Z)
    (leftFrom rightFrom leftDelta rightDelta : color)
  : outcome (color * color) * trace :=
  if F32.ltb (F32.of_Z i) maxi then
    match fuel with
    | O => (OutOfFuel, [])
    | S fuel' =>
        match color_loop NUM_COLORS 0 leftFrom rightFrom leftDelta rightDelta with
        | None => (Undefined, [])
        | Some (leftFrom', rightFrom') =>
            let step := [SetRgbw leftFrom' rightFrom'; Sleep refresh] in
            if i =? INT_MAX then (Undefined, step)
            else
              let '(o, tr) :=
                transition_loop fuel' refresh maxi (i + 1)
                  leftFrom' rightFrom' leftDelta rightDelta in
              (o, step ++ tr)
        end
    end
  else (Done (leftFrom, rightFrom), []).

(** [float maxi = this->transitionTime / (float)this->transitionRefreshInterval]. *)
Definition maxi_of (h : RgbLightHandler) : spec_float :=
  F32.div (F32.of_Z (transitionTime h)) (F32.of_Z (transitionRefreshInterval h)).

(** [transitionBoth(leftFrom, rightFrom)]. The arguments are passed by
    value: the caller's colors do not change. The handler that comes
    back differs only in the call counts of its two patterns. The guard
    [maxi == 0.0] compares with a [double] literal; the promotion of
    [maxi] is exact, so the test is the single-precision one. *)
Definition transitionBoth (fuel : nat) (h : RgbLightHandler) (leftFrom rightFrom : color)
  : outcome RgbLightHandler * trace :=
  let '(leftTo, pl) := getColor (patternLeft h) in
  let '(rightTo, pr) := getColor (patternRight h) in
  let h' := set_patternRight pr (set_patternLeft pl h) in
  let leftDelta := [F32.zero; F32.zero; F32.zero; F32.zero] in
  let rightDelta := [F32.zero; F32.zero; F32.zero; F32.zero] in
  let maxi := maxi_of h in
  if F32.eqb maxi F32.zero then (Done h', [])
  else
    match delta_loop NUM_COLORS 0 maxi leftTo leftFrom rightTo rightFrom
            leftDelta rightDelta with
    | None => (Undefined, [])
    | Some (leftDelta, rightDelta) =>
        let '(o, tr) :=
          transition_loop fuel (transitionRefreshInterval h) maxi 0
            leftFrom rightFrom leftDelta rightDelta in
        (match o with
         | Done _ => Done h'
         | OutOfFuel => OutOfFuel
         | Undefined => Undefined
         end, tr)
    end.

(** The handler after [transitionBoth] returns: the two patterns have
    answered one [getColor()] each. *)
Definition transition_handler (h : RgbLightHandler) : RgbLightHandler :=
  set_patternRight (snd (getColor (patternRight h)))
    (set_patternLeft (snd (getColor (patternLeft h))) h).

(** The events of the steps that push the given pairs: after every push
    a sleep of [refresh] milliseconds. *)
Definition paced (refresh : Z) (ps : list (color * color)) : trace :=
  flat_map (fun p => [SetRgbw p.1 p.2; Sleep refresh]) ps.

(** Two floats that are the same number: equal, or zeros of either sign. *)
Definition same_number (a b : spec_float) : Prop :=
  b = a \/ exists s s', a = S754_zero s /\ b = S754_zero s'.


(** ** The worker *)

(** The local variables of [worker()]. *)
Record locals : Type := {
  interval : Z;
  colorLeft : color;
  colorRight : color
}.

(** The prologue of [worker()], before the loop. *)
Definition worker_locals : locals :=
  {| interval := 20;
     colorLeft := [F32.zero; F32.zero; F32.zero; F32.zero];
     colorRight := [F32.zero; F32.zero; F32.zero; F32.zero] |}.

Definition worker_start (h : RgbLightHandler) : RgbLightHandler * locals :=
  (set_isRunning true h, worker_locals).

(** The part of an iteration after the transition: the interval, the
    two samples, the push and the sleep. *)
Definition sample (h : RgbLightHandler) : RgbLightHandler * locals * trace :=
  let interval := Z.min (refreshInterval (patternLeft h)) (refreshInterval (patternRight h)) in
  let '(colorLeft, pl) := getColor (patternLeft h) in
  let '(colorRight, pr) := getColor (patternRight h) in
  (set_patternRight pr (set_patternLeft pl h),
   {| interval := interval; colorLeft := colorLeft; colorRight := colorRight |},
   [SetRgbw colorLeft colorRight; Sleep interval]).

(** One iteration of the [while (this->isRunning)] loop of [worker()]. *)
Definition worker_iteration (fuel : nat) (h : RgbLightHandler) (w : locals)
  : outcome (RgbLightHandler * locals) * trace :=
  if patternsChanged h && transitionsEnabled h then
    match transitionBoth fuel h (colorLeft w) (colorRight w) with
    | (Done h1, tr) =>
        let '(h2, w', tr') := sample (set_patternsChanged false h1) in
        (Done (h2, w'), tr ++ tr')
    | (OutOfFuel, tr) => (OutOfFuel, tr)
    | (Undefined, tr) => (Undefined, tr)
    end
  else
    let '(h2, w', tr') := sample h in
    (Done (h2, w'), tr').

(** The loop [while (this->isRunning)] of [worker()], as the worker
    thread runs it when no other thread interferes. [ticks] bounds the
    iterations of the model; [fuel] is the fuel of each transition. *)
Fixpoint worker_loop (ticks fuel : nat) (h : RgbLightHandler) (w : locals)
  : outcome RgbLightHandler * trace :=
  if isRunning h then
    match ticks with
    | O => (OutOfFuel, [])
    | S ticks' =>
        match worker_iteration fuel h w with
        | (Done (h', w'), tr) =>
            let '(o, tr') := worker_loop ticks' fuel h' w' in (o, tr ++ tr')
        | (OutOfFuel, tr) => (OutOfFuel, tr)
        | (Undefined, tr) => (Undefined, tr)
        end
    end
  else (Done h, []).

(** [worker()]: the prologue, then the loop. *)
Definition worker (ticks fuel : nat) (h : RgbLightHandler)
  : outcome RgbLightHandler * trace :=
  let '(h1, w) := worker_start h in worker_loop ticks fuel h1 w.

(** The events of the [k]-th iteration from handler [h] on, when no
    transition runs: the [k]-th next color of each pattern, and the
    smaller refresh interval. *)
Definition tick (h : RgbLightHandler) (k : nat) : trace :=
  [SetRgbw (colorAt (patternLeft h) (calls (patternLeft h) + k))
           (colorAt (patternRight h) (calls (patternRight h) + k));
   Sleep (Z.min (refreshInterval (patternLeft h)) (refreshInterval (patternRight h)))].

(** What the constructors fix for the life of the handler. *)
Definition configuration (h : RgbLightHandler) : bool * Z * Z :=
  (transitionsEnabled h, transitionRefreshInterval h, transitionTime h).

(** ** The colors of the scenarios *)

Definition black : color := [F32.zero; F32.zero; F32.zero; F32.zero].
Definition white : color := [F32.one; F32.one; F32.one; F32.one].
Definition half_red : color := [F32.half; F32.zero; F32.zero; F32.zero].

(** ** Colors of the data model *)

(** Every channel lies in [0, 1]. *)
Definition unit_color (c : color) : Prop :=
  Forall (fun x => F32.in_unit x = true) c.

(** A Color as the data model has it: [NUM_COLORS] channels, each a
    member of the format and in [0, 1]. *)
Definition Color (c : color) : Prop :=
  length c = NUM_COLORS /\
  Forall (fun x => F32.valid x = true /\ F32.in_unit x = true) c.

(** The color the next [getColor()] of a pattern reports. *)
Definition target (p : RgbLightPattern) : color := fst (getColor p).

(** The number of steps the loop [for (int i = 0; i < maxi; i++)] makes:
    the least [n] whose conversion to [float] is not below [maxi]. *)
Definition steps_of (maxi : spec_float) (n : Z) : Prop :=
  0 <= n /\
  (forall i, 0 <= i < n -> F32.ltb (F32.of_Z i) maxi = true) /\
  F32.ltb (F32.of_Z n) maxi = false.


(** The same quotient rounded up. *)
Definition ceiling_steps (h : RgbLightHandler) : Z :=
  (transitionTime h + transitionRefreshInterval h - 1) / transitionRefreshInterval h.

(** ** Scenarios *)

(** Some values for the members the constructors leave unassigned. *)
Definition junk : unassigned :=
  {| isRunning0 := false; transitionRefreshInterval0 := 0; transitionTime0 := 0 |}.

(** A started handler with transitions enabled and default color black,
    after [setPatterns] to a constant pattern. *)
Definition fading (refresh time : Z) (to : color) : RgbLightHandler :=
  setPatterns (RgbLightConstant 20 to)
    (fst (worker_start (new_RgbLightHandler_transitions junk 20 black refresh time))).

(** A started handler with transitions disabled and default color black,
    after [setPatternLeft] to a constant pattern. *)
Definition snapping (to : color) : RgbLightHandler :=
  setPatternLeft (RgbLightConstant 20 to)
    (fst (worker_start (new_RgbLightHandler junk 20 black))).

(** The [k]-th pair of a fade in ten steps: every channel of both sides
    within [2^-23] of [(k+1)/10], on vectors of [NUM_COLORS] entries. *)
Definition fade_step_ok (k : nat) (p : color * color) : bool :=
  forallb (F32.within (1 # 8388608) (inject_Z (Z.of_nat k + 1) / 10)%Q) p.1 &&
  forallb (F32.within (1 # 8388608) (inject_Z (Z.of_nat k + 1) / 10)%Q) p.2 &&
  Nat.eqb (length p.1) NUM_COLORS && Nat.eqb (length p.2) NUM_COLORS.

(** ** Threads and the pattern lock *)

Module Locking.

(** Who holds [patternMutex]. *)
Inductive owner : Type :=
| Worker
| Caller (k : nat).

(** A replacement call of a caller thread. *)
Inductive call : Type :=
| CallLeft (pattern : RgbLightPattern)
| CallRight (pattern : RgbLightPattern)
| CallBoth (pattern : RgbLightPattern).

Definition apply_call (c : call) (h : RgbLightHandler) : RgbLightHandler :=
  match c with
  | CallLeft p => setPatternLeft p h
  | CallRight p => setPatternRight p h
  | CallBoth p => setPatterns p h
  end.

(** Where a caller thread is in its call: at [patternMutex.lock()],
    between lock and unlock, or back from the call. *)
Inductive caller_pc : Type :=
| AtLock (c : call)
| InCritical (c : call)
| Returned.

(** Where the worker thread is in [worker()]. [InTransition] is the
    head of the step loop of [transitionBoth], with the loop's variables. *)
Inductive worker_pc : Type :=
| LoopTest
| WorkerAtLock
| Check
| InTransition (i : Z) (maxi : spec_float)
    (leftFrom rightFrom leftDelta rightDelta : color)
| Clear
| Sample
| Unlock
| Push
| Sleeping
| Exited
| Stuck.

Record system : Type := System {
  handler : RgbLightHandler;
  mutex : option owner;
  wpc : worker_pc;
  wlocals : locals;
  callers : list caller_pc;
  sink : trace
}.

(** The worker between [lock()] and [unlock()]. *)
Definition critical (pc : worker_pc) : bool :=
  match pc with
  | Check | InTransition _ _ _ _ _ _ | Clear | Sample | Unlock | Stuck => true
  | _ => false
  end.

Definition in_transition (pc : worker_pc) : bool :=
  match pc with InTransition _ _ _ _ _ _ => true | _ => false end.

(** The entry of [transitionBoth], up to the head of its step loop. *)
Definition transition_enter (h : RgbLightHandler) (leftFrom rightFrom : color)
  : RgbLightHandler * worker_pc :=
  let '(leftTo, pl) := getColor (patternLeft h) in
  let '(rightTo, pr) := getColor (patternRight h) in
  let h' := set_patternRight pr (set_patternLeft pl h) in
  let maxi := maxi_of h in
  if F32.eqb maxi F32.zero then (h', Clear)
  else
    match delta_loop NUM_COLORS 0 maxi leftTo leftFrom rightTo rightFrom
            [F32.zero; F32.zero; F32.zero; F32.zero]
            [F32.zero; F32.zero; F32.zero; F32.zero] with
    | None => (h', Stuck)
    | Some (leftDelta, rightDelta) =>
        (h', InTransition 0 maxi leftFrom rightFrom leftDelta rightDelta)
    end.

(** One step of one thread. The worker's steps follow [worker()] and
    [transitionBoth()] line by line; a caller's steps are the lock and
    the critical section of a replacement call; [step_call] is a thread
    entering such a call, [step_stop_request] the assignment
    [isRunning = false] of [stop()]. *)
Inductive step : system -> system -> Prop :=
| step_loop_enter h m w cs tr :
    isRunning h = true ->
    step (System h m LoopTest w cs tr) (System h m WorkerAtLock w cs tr)
| step_loop_exit h m w cs tr :
    isRunning h = false ->
    step (System h m LoopTest w cs tr) (System h m Exited w cs tr)
| step_worker_lock h w cs tr :
    step (System h None WorkerAtLock w cs tr) (System h (Some Worker) Check w cs tr)
| step_check_skip h m w cs tr :
    patternsChanged h && transitionsEnabled h = false ->
    step (System h m Check w cs tr) (System h m Sample w cs tr)
| step_check_enter h m w cs tr h' pc :
    patternsChanged h && transitionsEnabled h = true ->
    transition_enter h (colorLeft w) (colorRight w) = (h', pc) ->
    step (System h m Check w cs tr) (System h' m pc w cs tr)
| step_transition_iter h m w cs tr i maxi lf rf ld rd lf' rf' :
    F32.ltb (F32.of_Z i) maxi = true ->
    color_loop NUM_COLORS 0 lf rf ld rd = Some (lf', rf') ->
    i <> INT_MAX ->
    step (System h m (InTransition i maxi lf rf ld rd) w cs tr)
         (System h m (InTransition (i + 1) maxi lf' rf' ld rd) w cs
            (tr ++ [SetRgbw lf' rf'; Sleep (transitionRefreshInterval h)]))
| step_transition_overflow h m w cs tr maxi lf rf ld rd lf' rf' :
    F32.ltb (F32.of_Z INT_MAX) maxi = true ->
    color_loop NUM_COLORS 0 lf rf ld rd = Some (lf', rf') ->
    step (System h m (InTransition INT_MAX maxi lf rf ld rd) w cs tr)
         (System h m Stuck w cs
            (tr ++ [SetRgbw lf' rf'; Sleep (transitionRefreshInterval h)]))
| step_transition_undefined h m w cs tr i maxi lf rf ld rd :
    F32.ltb (F32.of_Z i) maxi = true ->
    color_loop NUM_COLORS 0 lf rf ld rd = None ->
    step (System h m (InTransition i maxi lf rf ld rd) w cs tr)
         (System h m Stuck w cs tr)
| step_transition_done h m w cs tr i maxi lf rf ld rd :
    F32.ltb (F32.of_Z i) maxi = false ->
    step (System h m (InTransition i maxi lf rf ld rd) w cs tr)
         (System h m Clear w cs tr)
| step_clear h m w cs tr :
    step (System h m Clear w cs tr)
         (System (set_patternsChanged false h) m Sample w cs tr)
| step_sample h m w cs tr h' w' tr' :
    sample h = (h', w', tr') ->
    step (System h m Sample w cs tr) (System h' m Unlock w' cs tr)
| step_unlock h m w cs tr :
    step (System h m Unlock w cs tr) (System h None Push w cs tr)
| step_push h m w cs tr :
    step (System h m Push w cs tr)
         (System h m Sleeping w cs (tr ++ [SetRgbw (colorLeft w) (colorRight w)]))
| step_sleep h m w cs tr :
    step (System h m Sleeping w cs tr)
         (System h m LoopTest w cs (tr ++ [Sleep (interval w)]))
| step_call h m pc w cs tr c :
    step (System h m pc w cs tr) (System h m pc w (cs ++ [AtLock c]) tr)
| step_caller_lock h pc w cs tr k c :
    cs !! k = Some (AtLock c) ->
    step (System h None pc w cs tr)
         (System h (Some (Caller k)) pc w (<[k := InCritical c]> cs) tr)
| step_caller_unlock h m pc w cs tr k c :
    cs !! k = Some (InCritical c) ->
    step (System h m pc w cs tr)
         (System (apply_call c h) None pc w (<[k := Returned]> cs) tr)
| step_stop_request h m pc w cs tr :
    step (System h m pc w cs tr) (System (set_isRunning false h) m pc w cs tr).

(** The worker thread has just been started on handler [h]; no caller is
    in a call. *)
Definition initial (h : RgbLightHandler) : system :=
  System (fst (worker_start h)) None LoopTest (snd (worker_start h)) [] [].

Definition reachable (h : RgbLightHandler) (s : system) : Prop :=
  rtc step (initial h) s.

(** The lock is held by the worker exactly in its critical section, and
    by a caller whenever that caller is in its critical section. *)
Definition lock_invariant (s : system) : Prop :=
  (critical (wpc s) = true <-> mutex s = Some Worker) /\
  (forall k c, callers s !! k = Some (InCritical c) -> mutex s = Some (Caller k)).

(** A step taken while the worker is inside a transition. *)
Definition during_transition (s s' : system) : Prop :=
  in_transition (wpc s) = true /\ step s s'.

(** No replacement has touched the patterns or the flag, and the
    transition timings are what they were. *)
Definition untouched (h h' : RgbLightHandler) : Prop :=
  patternLeft h' = patternLeft h /\
  patternRight h' = patternRight h /\
  patternsChanged h' = patternsChanged h /\
  transitionRefreshInterval h' = transitionRefreshInterval h /\
  transitionTime h' = transitionTime h.

(** The worker is further on in the same transition, or has just left it. *)
Definition same_transition (pc pc' : worker_pc) : Prop :=
  match pc, pc' with
  | InTransition i maxi _ _ ld rd, InTransition i' maxi' _ _ ld' rd' =>
      maxi' = maxi /\ ld' = ld /\ rd' = rd /\ i <= i'
  | InTransition _ _ _ _ _ _, (Clear | Stuck) => True
  | _, _ => False
  end.

(** The milliseconds of sleep in a trace: a lower bound of the time the
    trace takes. *)
Definition slept (tr : trace) : Z :=
  foldr (fun e t => match e with Sleep ms => ms + t | SetRgbw _ _ => t end) 0 tr.

(** Between two heads of the step loop the worker has slept one refresh
    interval for each step in between. *)
Definition slept_per_step (s s' : system) : Prop :=
  match wpc s, wpc s' with
  | InTransition i _ _ _ _ _, InTransition i' _ _ _ _ _ =>
      slept (sink s') - slept (sink s) = (i' - i) * transitionRefreshInterval (handler s)
  | _, _ => True
  end.

(** At the head of the step loop the quotient is the one of the handler
    and every index before the current one was below it. *)
Definition loop_invariant (s : system) : Prop :=
  match wpc s with
  | InTransition i maxi _ _ _ _ =>
      maxi = maxi_of (handler s) /\ 0 <= i /\
      forall k, 0 <= k < i -> F32.ltb (F32.of_Z k) maxi = true
  | _ => True
  end.

(** A scenario: the worker has entered a transition from black to white
    while a caller waits to replace the left pattern. *)
Definition waiting_call : call := CallLeft (RgbLightConstant 20 half_red).

Definition scenario_handler (refresh time : Z) : RgbLightHandler :=
  setPatterns (RgbLightConstant 20 white)
    (new_RgbLightHandler_transitions junk 20 black refresh time).

Definition entered (refresh time : Z) : system :=
  let '(h, pc) :=
    transition_enter (fst (worker_start (scenario_handler refresh time))) black black in
  System h (Some Worker) pc worker_locals [AtLock waiting_call] [].

(** The state after one more step of the transition loop. *)
Definition loop_step (s : system) : system :=
  match s with
  | System h m (InTransition i maxi lf rf ld rd) w cs tr =>
      System h m (InTransition (i + 1) maxi (step_color lf ld) (step_color rf rd) ld rd)
        w cs
        (tr ++ [SetRgbw (step_color lf ld) (step_color rf rd);
                Sleep (transitionRefreshInterval h)])
  | _ => s
  end.

End Locking.

(** ** States and invariants of the threads *)

(** The worker stands at its first sample: nothing was replaced yet. *)
Definition sampling (h : RgbLightHandler) : Locking.system :=
  Locking.System (fst (worker_start h)) (Some Locking.Worker) Locking.Sample
    worker_locals [] [].

(** The worker has left its loop after a [stop()] that came before its
    first loop test. *)
Definition stopped (h : RgbLightHandler) : Locking.system :=
  Locking.System (set_isRunning false (fst (worker_start h))) None Locking.Exited
    worker_locals [] [].

(** With transitions enabled the flag is clear while the worker samples. *)
Definition sample_invariant (s : Locking.system) : Prop :=
  Locking.wpc s = Locking.Sample \/ Locking.wpc s = Locking.Unlock ->
  transitionsEnabled (Locking.handler s) = true ->
  patternsChanged (Locking.handler s) = false.

(** A worker that has left its loop found [isRunning] false, and
    nothing sets it again. *)
Definition exit_invariant (s : Locking.system) : Prop :=
  Locking.wpc s = Locking.Exited -> isRunning (Locking.handler s) = false.

(** ** Signs and directions *)

(** Not below zero: a zero, a positive number or the positive infinity. *)
Definition nonneg (x : spec_float) : bool :=
  match x with
  | S754_zero _ => true
  | S754_finite s _ _ | S754_infinity s => negb s
  | S754_nan => false
  end.

(** Not above zero. *)
Definition nonpos (x : spec_float) : bool :=
  match x with
  | S754_zero _ => true
  | S754_finite s _ _ | S754_infinity s => s
  | S754_nan => false
  end.

(** Channel [b] follows channel [a] in the direction from [from] to
    [to]: not below it when the target is not below the start, not above
    it when the target is not above the start. *)
Definition toward (to from a b : spec_float) : bool :=
  implb (F32.leb from to) (F32.leb a b) && implb (F32.leb to from) (F32.leb b a).

(** The same for all channels of a color. *)
Definition toward_color (to from a b : color) : Prop :=
  forall j t f x y,
    to !! j = Some t -> from !! j = Some f -> a !! j = Some x -> b !! j = Some y ->
    toward t f x y = true.

(** What the step loop keeps for a channel with target [t], start [f],
    delta [d] and running value [x]. *)
Definition channel_ok (t f d x : spec_float) : Prop :=
  F32.valid x = true /\ F32.in_unit x = true /\
  F32.valid d = true /\ F32.is_nan d = false /\
  (F32.leb f t = true -> nonneg d = true) /\
  (F32.leb t f = true -> nonpos d = true).

Definition channels_ok (to from delta c : color) : Prop :=
  forall j t f d x,
    to !! j = Some t -> from !! j = Some f -> delta !! j = Some d -> c !! j = Some x ->
    channel_ok t f d x.

(** ** Well-formed states *)

(** A pattern that reports a Color of the data model at every call. *)
Definition good_pattern (p : RgbLightPattern) : Prop :=
  forall n, Color (colorAt p n).

Definition good_call (c : Locking.call) : Prop :=
  match c with
  | Locking.CallLeft p | Locking.CallRight p | Locking.CallBoth p => good_pattern p
  end.

Definition good_caller (pc : Locking.caller_pc) : Prop :=
  match pc with
  | Locking.AtLock c | Locking.InCritical c => good_call c
  | Locking.Returned => True
  end.

(** What the sink may be given: Colors of the data model. *)
Definition good_event (e : event) : Prop :=
  match e with
  | SetRgbw l r => Color l /\ Color r
  | Sleep _ => True
  end.

(** Deltas of a transition whose quotient is a number. *)
Definition good_deltas (d : color) : Prop :=
  length d = NUM_COLORS /\
  Forall (fun x => F32.valid x = true /\ F32.is_nan x = false) d.

Definition good_pc (pc : Locking.worker_pc) : Prop :=
  match pc with
  | Locking.InTransition _ maxi lf rf ld rd =>
      Color lf /\ Color rf /\
      (F32.is_nan maxi = false -> good_deltas ld /\ good_deltas rd)
  | _ => True
  end.

(** The patterns installed and the patterns of the calls under way
    report Colors, and so far the worker has computed and pushed
    nothing but Colors. *)
Definition well_formed (s : Locking.system) : Prop :=
  good_pattern (patternLeft (Locking.handler s)) /\
  good_pattern (patternRight (Locking.handler s)) /\
  Color (colorLeft (Locking.wlocals s)) /\
  Color (colorRight (Locking.wlocals s)) /\
  good_pc (Locking.wpc s) /\
  Forall good_caller (Locking.callers s) /\
  Forall good_event (Locking.sink s).

(** A step after which every call under way is given a good pattern. *)
Definition good_step (s s' : Locking.system) : Prop :=
  Locking.step s s' /\ Forall good_caller (Locking.callers s').

(** The worker has pushed its first sample. *)
Definition first_push (h : RgbLightHandler) : Locking.system :=
  Locking.System (fst (fst (sample (fst (worker_start h))))) None Locking.Sleeping
    (snd (fst (sample (fst (worker_start h))))) []
    [SetRgbw (target (patternLeft h)) (target (patternRight h))].

(** ** The handler and its objects in memory *)

(** The pointer view of the handler: the patterns and the driver are
    objects made by [new] and released by [delete]; [patternLeft],
    [patternRight] and [pwmDriver] are pointers to them. *)
Module Heap.

(** An address; [NULL] is [None] of [option ptr]. *)
Abbreviation ptr := nat (only parsing).

Inductive object : Type :=
| Pattern (p : RgbLightPattern)
| Driver.

(** The memory: cell [a] holds the object at address [a], or [None]
    once that object is deleted. No address is used twice. *)
Abbreviation memory := (list (option object)) (only parsing).

(** [new]. *)
Definition new (o : object) (m : memory) : ptr * memory :=
  (length m, m ++ [Some o]).

(** [delete p]: nothing happens for [NULL]; a pointer to anything but
    a living object is undefined behaviour, [None]. *)
Definition delete (p : option ptr) (m : memory) : option memory :=
  match p with
  | None => Some m
  | Some a =>
      match m !! a with
      | Some (Some _) => Some (<[a := None]> m)
      | _ => None
      end
  end.

(** Modelled from the spec: [pattern->clone()] is a method of the class
    [RgbLightPattern], which is not part of the sources; by the comment
    at its calls it makes a new object that is a copy of the pattern.
    The pointer must point to a living pattern. *)
Definition clone (pattern : ptr) (m : memory) : option (ptr * memory) :=
  match m !! pattern with
  | Some (Some (Pattern p)) => Some (new (Pattern (clone p)) m)
  | _ => None
  end.

Record RgbLightHandler : Type := {
  patternLeft : option ptr;
  patternRight : option ptr;
  pwmDriver : option ptr;
  patternsChanged : bool;
  transitionsEnabled : bool;
  transitionRefreshInterval : Z;
  transitionTime : Z;
  isRunning : bool;
  workerThread : bool
}.

(** [RgbLightHandler(vector<float> defaultColor)]. *)
Definition new_RgbLightHandler (u : unassigned) (interval : Z) (defaultColor : color)
    (m : memory) : RgbLightHandler * memory :=
  let '(l, m1) := new (Pattern (RgbLightConstant interval defaultColor)) m in
  let '(r, m2) := new (Pattern (RgbLightConstant interval defaultColor)) m1 in
  let '(d, m3) := new Driver m2 in
  ({| patternLeft := Some l; patternRight := Some r; pwmDriver := Some d;
      patternsChanged := false;
      transitionsEnabled := false;
      transitionRefreshInterval := transitionRefreshInterval0 u;
      transitionTime := transitionTime0 u;
      isRunning := isRunning0 u;
      workerThread := false |}, m3).

(** [RgbLightHandler(defaultColor, transitionRefreshInterval, transitionTime)]. *)
Definition new_RgbLightHandler_transitions (u : unassigned) (interval : Z)
    (defaultColor : color) (transitionRefreshInterval transitionTime : Z)
    (m : memory) : RgbLightHandler * memory :=
  let '(l, m1) := new (Pattern (RgbLightConstant interval defaultColor)) m in
  let '(r, m2) := new (Pattern (RgbLightConstant interval defaultColor)) m1 in
  let '(d, m3) := new Driver m2 in
  ({| patternLeft := Some l; patternRight := Some r; pwmDriver := Some d;
      patternsChanged := false;
      transitionsEnabled := true;
      transitionRefreshInterval := transitionRefreshInterval;
      transitionTime := transitionTime;
      isRunning := isRunning0 u;
      workerThread := false |}, m3).

(** [stop()]. *)
Definition stop (h : RgbLightHandler) : RgbLightHandler * list wait :=
  if isRunning h then
    if workerThread h then
      ({| patternLeft := patternLeft h; patternRight := patternRight h;
          pwmDriver := pwmDriver h; patternsChanged := patternsChanged h;
          transitionsEnabled := transitionsEnabled h;
          transitionRefreshInterval := transitionRefreshInterval h;
          transitionTime := transitionTime h;
          isRunning := false; workerThread := false |}, [Join])
    else
      ({| patternLeft := patternLeft h; patternRight := patternRight h;
          pwmDriver := pwmDriver h; patternsChanged := patternsChanged h;
          transitionsEnabled := transitionsEnabled h;
          transitionRefreshInterval := transitionRefreshInterval h;
          transitionTime := transitionTime h;
          isRunning := false; workerThread := workerThread h |}, [])
  else (h, []).

(** [start()]: the assignment to a joinable [workerThread] calls
    [std::terminate()], [None]. *)
Definition start (h : RgbLightHandler) : option RgbLightHandler :=
  if workerThread h then None
  else
    Some {| patternLeft := patternLeft h; patternRight := patternRight h;
            pwmDriver := pwmDriver h; patternsChanged := patternsChanged h;
            transitionsEnabled := transitionsEnabled h;
            transitionRefreshInterval := transitionRefreshInterval h;
            transitionTime := transitionTime h;
            isRunning := isRunning h; workerThread := true |}.

(** The first statement of [worker()], [this->isRunning = true], which
    the thread made by [start()] runs at some later time. *)
Definition worker_start (h : RgbLightHandler) : RgbLightHandler :=
  {| patternLeft := patternLeft h; patternRight := patternRight h;
     pwmDriver := pwmDriver h; patternsChanged := patternsChanged h;
     transitionsEnabled := transitionsEnabled h;
     transitionRefreshInterval := transitionRefreshInterval h;
     transitionTime := transitionTime h;
     isRunning := true; workerThread := workerThread h |}.

(** The destructor of the member [workerThread]: [~thread()] of a
    thread that is still joinable calls [std::terminate()], [None]. *)
Definition thread_destructor (joinable : bool) : option unit :=
  if joinable then None else Some ().

(** [~RgbLightHandler()]: the body [this->stop(); delete pwmDriver;],
    and after it the destructors of the members, of which that of
    [workerThread] can end the program. The two patterns are held by
    plain pointers: nothing deletes them. [None] is undefined behaviour
    in the [delete], or [std::terminate()]. *)
Definition destructor (h : RgbLightHandler) (m : memory) : option (list wait * memory) :=
  let '(h1, joins) := stop h in
  m' ← delete (pwmDriver h1) m;
  _ ← thread_destructor (workerThread h1);
  Some (joins, m').

(** The assignments of a replacement call: the two pointers and the flag. *)
Definition replaced (left right : option ptr) (h : RgbLightHandler) : RgbLightHandler :=
  {| patternLeft := left; patternRight := right;
     pwmDriver := pwmDriver h; patternsChanged := true;
     transitionsEnabled := transitionsEnabled h;
     transitionRefreshInterval := transitionRefreshInterval h;
     transitionTime := transitionTime h;
     isRunning := isRunning h; workerThread := workerThread h |}.

(** [setPatternLeft], between lock and unlock: the test against [NULL]
    and the [delete], then the clone, then the flag. *)
Definition setPatternLeft (pattern : ptr) (h : RgbLightHandler) (m : memory)
  : option (RgbLightHandler * memory) :=
  m1 ← delete (patternLeft h) m;
  '(l, m2) ← clone pattern m1;
  Some (replaced (Some l) (patternRight h) h, m2).

Definition setPatternRight (pattern : ptr) (h : RgbLightHandler) (m : memory)
  : option (RgbLightHandler * memory) :=
  m1 ← delete (patternRight h) m;
  '(r, m2) ← clone pattern m1;
  Some (replaced (patternLeft h) (Some r) h, m2).

Definition setPatterns (pattern : ptr) (h : RgbLightHandler) (m : memory)
  : option (RgbLightHandler * memory) :=
  m1 ← delete (patternLeft h) m;
  m2 ← delete (patternRight h) m1;
  '(l, m3) ← clone pattern m2;
  '(r, m4) ← clone pattern m3;
  Some (replaced (Some l) (Some r) h, m4).

(** The number of objects that live. *)
Fixpoint live (m : memory) : nat :=
  match m with
  | [] => 0
  | Some _ :: m' => S (live m')
  | None :: m' => live m'
  end.

(** The pattern a pointer points to. *)
Definition pattern_at (p : option ptr) (m : memory) : option RgbLightPattern :=
  match p with
  | None => None
  | Some a =>
      match m !! a with
      | Some (Some (Pattern q)) => Some q
      | _ => None
      end
  end.

(** The handler owns its three objects: the pointers are not [NULL],
    point to living objects of the right kind, and the two patterns
    are two objects. *)
Definition owns (h : RgbLightHandler) (m : memory) : Prop :=
  exists l r d pl pr,
    patternLeft h = Some l /\ patternRight h = Some r /\ pwmDriver h = Some d /\
    m !! l = Some (Some (Pattern pl)) /\
    m !! r = Some (Some (Pattern pr)) /\
    m !! d = Some (Some Driver) /\
    l <> r.

(** A replacement call, with the pointer it is given. *)
Inductive call : Type :=
| CallLeft (pattern : ptr)
| CallRight (pattern : ptr)
| CallBoth (pattern : ptr).

Definition argument (c : call) : ptr :=
  match c with CallLeft p | CallRight p | CallBoth p => p end.

Definition apply_call (c : call) (h : RgbLightHandler) (m : memory)
  : option (RgbLightHandler * memory) :=
  match c with
  | CallLeft p => setPatternLeft p h m
  | CallRight p => setPatternRight p h m
  | CallBoth p => setPatterns p h m
  end.

Fixpoint apply_calls (cs : list call) (h : RgbLightHandler) (m : memory)
  : option (RgbLightHandler * memory) :=
  match cs with
  | [] => Some (h, m)
  | c :: cs' => '(h', m') ← apply_call c h m; apply_calls cs' h' m'
  end.

(** A handler's life in one thread: it is constructed, its patterns
    are replaced some times, it is destroyed. *)
Definition life (u : unassigned) (interval : Z) (defaultColor : color) (cs : list call)
    (m : memory) : option (list wait * memory) :=
  let '(h, m1) := new_RgbLightHandler u interval defaultColor m in
  '(h', m2) ← apply_calls cs h m1;
  destructor h' m2.

(** The handler and the memory of such a life just before the
    destructor runs. *)
Definition before_destructor (u : unassigned) (interval : Z) (defaultColor : color)
    (cs : list call) (m : memory) : option (RgbLightHandler * memory) :=
  let '(h, m1) := new_RgbLightHandler u interval defaultColor m in
  apply_calls cs h m1.

End Heap.

(** The handler of the pointer view as a handler of patterns. *)
Definition abstract (h : Heap.RgbLightHandler) (m : Heap.memory) : option RgbLightHandler :=
  pl ← Heap.pattern_at (Heap.patternLeft h) m;
  pr ← Heap.pattern_at (Heap.patternRight h) m;
  Some {| patternLeft := pl; patternRight := pr;
          patternsChanged := Heap.patternsChanged h;
          transitionsEnabled := Heap.transitionsEnabled h;
          transitionRefreshInterval := Heap.transitionRefreshInterval h;
          transitionTime := Heap.transitionTime h;
          isRunning := Heap.isRunning h;
          workerThread := Heap.workerThread h |}.

(** A program that builds a handler in a memory holding one pattern at
    address 0, the caller's. *)
Definition caller_memory : Heap.memory :=
  [Some (Heap.Pattern (RgbLightConstant 20 white))].

(** The handler built there. *)
Definition built : Heap.RgbLightHandler * Heap.memory :=
  Heap.new_RgbLightHandler junk 20 black caller_memory.



(** The handler's objects were made after the memory [m0] that the
    caller had, there are three of them, and the caller's objects are
    as they were. *)
Definition apart (m0 : Heap.memory) (h : Heap.RgbLightHandler) (m : Heap.memory) : Prop :=
  Heap.owns h m /\
  Heap.live m = (Heap.live m0 + 3)%nat /\
  (forall a, Heap.patternLeft h = Some a \/ Heap.patternRight h = Some a \/
             Heap.pwmDriver h = Some a -> (length m0 <= a)%nat) /\
  (forall a o, m0 !! a = Some o -> m !! a = Some o).

(** * Facts about single-precision arithmetic *)

(** ** Digits and shifts *)

Lemma digits2_pos_size (p : positive) : digits2_pos p = Pos.size p.
Proof. induction p; simpl; congruence. Qed.

Lemma digits2_pos_upper (p : positive) : Z.pos p < 2 ^ Z.pos (digits2_pos p).
Proof.
  rewrite digits2_pos_size.
  pose proof (Pos.size_gt p) as H.
  apply Pos2Z.pos_lt_pos in H. rewrite Pos2Z.inj_pow in H. exact H.
Qed.

Lemma digits2_pos_lower (p : positive) : 2 ^ (Z.pos (digits2_pos p) - 1) <= Z.pos p.
Proof.
  rewrite digits2_pos_size.
  pose proof (Pos.size_le p) as H.
  apply Pos2Z.pos_le_pos in H. rewrite Pos2Z.inj_pow in H.
  change (Z.pos p~0) with (2 * Z.pos p) in H.
  replace (Z.pos (Pos.size p)) with (Z.succ (Z.pos (Pos.size p) - 1)) in H by lia.
  rewrite Z.pow_succ_r in H by lia. lia.
Qed.

Lemma Zdigits2_nonneg (m : Z) : 0 <= Zdigits2 m.
Proof. destruct m; simpl; lia. Qed.

Lemma Zdigits2_upper (m : Z) : 0 <= m -> m < 2 ^ Zdigits2 m.
Proof.
  destruct m as [|p|p]; simpl; intros H; [lia | apply digits2_pos_upper | lia].
Qed.

Lemma Zdigits2_lower (m : Z) : 0 < m -> 2 ^ (Zdigits2 m - 1) <= m.
Proof.
  destruct m as [|p|p]; simpl; intros H; [lia | apply digits2_pos_lower | lia].
Qed.

Lemma Zdigits2_le (m k : Z) : 0 <= k -> 0 <= m < 2 ^ k -> Zdigits2 m <= k.
Proof.
  intros Hk [H0 Hm].
  destruct (Z.eq_dec m 0) as [->|Hne]; [simpl; lia|].
  pose proof (Zdigits2_lower m ltac:(lia)) as Hl.
  pose proof (Zdigits2_nonneg m) as Hn.
  destruct (Z_le_gt_dec (Zdigits2 m) k) as [|Hgt]; [assumption|exfalso].
  assert (2 ^ k <= 2 ^ (Zdigits2 m - 1)) by (apply Z.pow_le_mono_r; lia).
  lia.
Qed.

Lemma Zdigits2_ge (m k : Z) : 2 ^ (k - 1) <= m -> 0 < m -> k <= Zdigits2 m.
Proof.
  intros Hm H0.
  pose proof (Zdigits2_upper m ltac:(lia)) as Hu.
  pose proof (Zdigits2_nonneg m) as Hn.
  destruct (Z_le_gt_dec k (Zdigits2 m)) as [|Hgt]; [assumption|exfalso].
  assert (2 ^ Zdigits2 m <= 2 ^ (k - 1)) by (apply Z.pow_le_mono_r; lia).
  lia.
Qed.

Lemma Zdigits2_unique (m k : Z) : 0 < k -> 2 ^ (k - 1) <= m < 2 ^ k -> Zdigits2 m = k.
Proof.
  intros Hk [Hl Hu].
  assert (0 < m) by (pose proof (Z.pow_pos_nonneg 2 (k - 1)); lia).
  pose proof (Zdigits2_le m k). pose proof (Zdigits2_ge m k). lia.
Qed.

Lemma shr_1_m (mrs : shr_record) : 0 <= shr_m mrs -> shr_m (shr_1 mrs) = shr_m mrs / 2.
Proof.
  destruct mrs as [m r s]; simpl. intros Hm.
  destruct m as [|[p|p|]|p]; cbn [shr_1 shr_m].
  - reflexivity.
  - apply Z.div_unique with (r := 1); lia.
  - apply Z.div_unique with (r := 0); lia.
  - reflexivity.
  - lia.
Qed.

Lemma iter_pos_shr_1_m (n : positive) (mrs : shr_record) :
  0 <= shr_m mrs -> shr_m (SpecFloat.iter_pos shr_1 n mrs) = shr_m mrs / 2 ^ Z.pos n.
Proof.
  revert mrs. induction n as [n IH|n IH|]; intros mrs Hm; simpl SpecFloat.iter_pos.
  - assert (H1 : 0 <= shr_m (shr_1 mrs)) by (rewrite shr_1_m by lia; apply Z.div_pos; lia).
    assert (H2 : 0 <= shr_m (SpecFloat.iter_pos shr_1 n (shr_1 mrs)))
      by (rewrite IH by lia; apply Z.div_pos; [lia | apply Z.pow_pos_nonneg; lia]).
    rewrite IH by lia. rewrite IH by lia. rewrite shr_1_m by lia.
    rewrite !Z.div_div by (try apply Z.pow_pos_nonneg; lia).
    f_equal. replace (Z.pos n~1) with (1 + Z.pos n + Z.pos n) by lia.
    rewrite !Z.pow_add_r by lia. lia.
  - assert (H2 : 0 <= shr_m (SpecFloat.iter_pos shr_1 n mrs))
      by (rewrite IH by lia; apply Z.div_pos; [lia | apply Z.pow_pos_nonneg; lia]).
    rewrite IH by lia. rewrite IH by lia.
    rewrite !Z.div_div by (try apply Z.pow_pos_nonneg; lia).
    f_equal. replace (Z.pos n~0) with (Z.pos n + Z.pos n) by lia.
    rewrite !Z.pow_add_r by lia. lia.
  - rewrite shr_1_m by lia. reflexivity.
Qed.

Lemma shr_record_of_loc_m (m : Z) (l : location) : shr_m (shr_record_of_loc m l) = m.
Proof. destruct l as [|[]]; reflexivity. Qed.

Lemma round_nearest_even_cases (m : Z) (l : location) :
  round_nearest_even m l = m \/ round_nearest_even m l = m + 1.
Proof.
  destruct l as [|[]]; simpl; auto. destruct (Z.even m); auto.
Qed.


Lemma shr_fexp_spec (prec emax m e : Z) (l : location) :
  0 <= m ->
  snd (shr_fexp prec emax m e l) = Z.max e (fexp prec emax (Zdigits2 m + e)) /\
  shr_m (fst (shr_fexp prec emax m e l)) = m / 2 ^ (snd (shr_fexp prec emax m e l) - e).
Proof.
  intros Hm. unfold shr_fexp, shr.
  destruct (fexp prec emax (Zdigits2 m + e) - e) as [|p|p] eqn:E; simpl.
  - rewrite Z.max_l by lia. rewrite Z.sub_diag, Z.div_1_r.
    split; [reflexivity | apply shr_record_of_loc_m].
  - rewrite Z.max_r by lia. split; [lia|].
    rewrite iter_pos_shr_1_m by (rewrite shr_record_of_loc_m; lia).
    rewrite shr_record_of_loc_m. f_equal. f_equal. lia.
  - rewrite Z.max_l by lia. rewrite Z.sub_diag, Z.div_1_r.
    split; [reflexivity | apply shr_record_of_loc_m].
Qed.

Lemma fexp32 (e : Z) : fexp 24 128 e = Z.max (e - 24) (-149).
Proof. reflexivity. Qed.

Lemma Zdigits2_div_pow2 (m k : Z) :
  0 <= m -> 0 <= k -> Zdigits2 (m / 2 ^ k) <= Z.max 0 (Zdigits2 m - k).
Proof.
  intros Hm Hk.
  pose proof (Zdigits2_upper m Hm) as Hu.
  pose proof (Zdigits2_nonneg m) as Hn.
  assert (Hp : 0 < 2 ^ k) by (apply Z.pow_pos_nonneg; lia).
  apply Zdigits2_le; [lia|]. split; [apply Z.div_pos; lia|].
  apply Z.div_lt_upper_bound; [lia|].
  rewrite <- Z.pow_add_r by lia.
  eapply Z.lt_le_trans; [exact Hu|]. apply Z.pow_le_mono_r; lia.
Qed.

Lemma Zdigits2_succ (m : Z) : 0 <= m -> Zdigits2 (m + 1) <= Zdigits2 m + 1.
Proof.
  intros Hm. pose proof (Zdigits2_upper m Hm) as Hu.
  pose proof (Zdigits2_nonneg m) as Hn.
  apply Zdigits2_le; [lia|]. rewrite Z.pow_add_r by lia. lia.
Qed.

Lemma Zdigits2_mono (m n : Z) : 0 <= m <= n -> Zdigits2 m <= Zdigits2 n.
Proof.
  intros [Hm Hmn]. apply Zdigits2_le; [apply Zdigits2_nonneg|].
  pose proof (Zdigits2_upper n ltac:(lia)). lia.
Qed.

(** The result of the rounding step: its sign, and a bound on its
    exponent. *)
Lemma binary_round_aux_shape (sx : bool) (mx ex : Z) (lx : location) :
  0 <= mx ->
  match binary_round_aux 24 128 sx mx ex lx with
  | S754_zero s => s = sx
  | S754_finite s m e =>
      s = sx /\ e <= Z.max ex (fexp 24 128 (Zdigits2 mx + ex)) + 1 /\ e <= 104
  | S754_infinity s => s = sx /\ 104 < Z.max ex (fexp 24 128 (Zdigits2 mx + ex)) + 1
  | S754_nan => False
  end.
Proof.
  intros Hm. unfold binary_round_aux.
  pose proof (shr_fexp_spec 24 128 mx ex lx Hm) as [He1 Hm1].
  destruct (shr_fexp 24 128 mx ex lx) as [mrs' e'] eqn:E1. simpl in He1, Hm1.
  set (m2 := round_nearest_even (shr_m mrs') (loc_of_shr_record mrs')).
  assert (Hk : 0 <= e' - ex) by lia.
  assert (Hp : 0 < 2 ^ (e' - ex)) by (apply Z.pow_pos_nonneg; lia).
  assert (H1 : 0 <= shr_m mrs') by (rewrite Hm1; apply Z.div_pos; lia).
  assert (H2 : 0 <= m2 /\ m2 <= shr_m mrs' + 1)
    by (subst m2; destruct (round_nearest_even_cases (shr_m mrs') (loc_of_shr_record mrs'))
          as [-> | ->]; lia).
  pose proof (shr_fexp_spec 24 128 m2 e' loc_Exact (proj1 H2)) as [He2 Hm2].
  destruct (shr_fexp 24 128 m2 e' loc_Exact) as [mrs'' e''] eqn:E2. simpl in He2, Hm2.
  assert (Hd2 : Zdigits2 m2 <= Zdigits2 (shr_m mrs') + 1).
  { etransitivity; [apply (Zdigits2_mono m2 (shr_m mrs' + 1)); lia|].
    apply Zdigits2_succ; lia. }
  assert (Hd1 : Zdigits2 (shr_m mrs') <= Z.max 0 (Zdigits2 mx - (e' - ex)))
    by (rewrite Hm1; apply Zdigits2_div_pow2; lia).
  assert (He : e'' <= e' + 1) by (rewrite fexp32 in *; lia).
  assert (H3 : 0 <= shr_m mrs'').
  { rewrite Hm2. apply Z.div_pos; [lia|]. apply Z.pow_pos_nonneg; lia. }
  destruct (shr_m mrs'') as [|p|p] eqn:E3; [reflexivity| |lia].
  destruct (e'' <=? 128 - 24) eqn:E4.
  - apply Z.leb_le in E4. repeat split; lia.
  - apply Z.leb_gt in E4. split; [reflexivity|lia].
Qed.

(** Rounding a mantissa of at least 24 digits whose value is in the
    range of the normal numbers gives a normal number. *)
Lemma binary_round_aux_normal (sx : bool) (mx ex : Z) (lx : location) :
  0 <= mx ->
  24 <= Zdigits2 mx ->
  -149 <= Zdigits2 mx + ex - 24 ->
  Zdigits2 mx + ex - 23 <= 104 ->
  exists m e,
    binary_round_aux 24 128 sx mx ex lx = S754_finite sx m e /\
    Z.pos (digits2_pos m) = 24 /\
    Zdigits2 mx + ex - 24 <= e <= Zdigits2 mx + ex - 23.
Proof.
  intros Hm0 Hd Hlo Hhi.
  assert (Hm : 0 < mx) by (destruct mx; simpl in Hd; lia).
  unfold binary_round_aux.
  pose proof (shr_fexp_spec 24 128 mx ex lx ltac:(lia)) as [He1 Hm1].
  destruct (shr_fexp 24 128 mx ex lx) as [mrs' e'] eqn:E1. simpl in He1, Hm1.
  rewrite fexp32 in He1.
  assert (He' : e' = Zdigits2 mx + ex - 24) by lia. clear He1.
  set (m2 := round_nearest_even (shr_m mrs') (loc_of_shr_record mrs')).
  assert (Hp : 0 < 2 ^ (e' - ex)) by (apply Z.pow_pos_nonneg; lia).
  pose proof (Zdigits2_upper mx ltac:(lia)) as Hu.
  pose proof (Zdigits2_lower mx Hm) as Hl.
  assert (Hpow : 2 ^ Zdigits2 mx = 2 ^ 24 * 2 ^ (e' - ex))
    by (rewrite <- Z.pow_add_r by lia; f_equal; lia).
  assert (Hpow' : 2 ^ (Zdigits2 mx - 1) = 2 ^ 23 * 2 ^ (e' - ex))
    by (rewrite <- Z.pow_add_r by lia; f_equal; lia).
  assert (H1 : 2 ^ 23 <= shr_m mrs' < 2 ^ 24).
  { rewrite Hm1. split.
    - apply Z.div_le_lower_bound; lia.
    - apply Z.div_lt_upper_bound; lia. }
  assert (H2 : 2 ^ 23 <= m2 <= 2 ^ 24)
    by (subst m2; destruct (round_nearest_even_cases (shr_m mrs') (loc_of_shr_record mrs'))
          as [-> | ->]; lia).
  pose proof (shr_fexp_spec 24 128 m2 e' loc_Exact ltac:(lia)) as [He2 Hm2].
  destruct (shr_fexp 24 128 m2 e' loc_Exact) as [mrs'' e''] eqn:E2. simpl in He2, Hm2.
  rewrite fexp32 in He2.
  destruct (Z.eq_dec m2 (2 ^ 24)) as [Heq|Hne].
  - assert (Hd2 : Zdigits2 m2 = 25) by (rewrite Heq; reflexivity).
    assert (He'' : e'' = e' + 1) by lia.
    rewrite Hm2, He'', Heq. replace (e' + 1 - e') with 1 by lia.
    change (2 ^ 24 / 2 ^ 1) with (Z.pos 8388608).
    replace (e' + 1 <=? 128 - 24) with true by (symmetry; apply Z.leb_le; lia).
    exists 8388608%positive, (e' + 1). repeat split; lia.
  - assert (Hd2 : Zdigits2 m2 = 24) by (apply Zdigits2_unique; lia).
    assert (He'' : e'' = e') by lia.
    rewrite Hm2, He'', Z.sub_diag, Z.div_1_r.
    destruct m2 as [|p|p]; [lia| |lia].
    replace (e' <=? 128 - 24) with true by (symmetry; apply Z.leb_le; lia).
    exists p, e'. simpl in Hd2. repeat split; lia.
Qed.

Lemma pos_iter_xO (d m : positive) : Z.pos (Pos.iter xO m d) = Z.pos m * 2 ^ Z.pos d.
Proof.
  induction d as [|d IH] using Pos.peano_ind.
  - simpl. lia.
  - rewrite Pos.iter_succ, Pos2Z.inj_xO, IH, Pos2Z.inj_succ, Z.pow_succ_r by lia. lia.
Qed.

Lemma Zdigits2_mul_pow2 (m k : Z) : 0 < m -> 0 <= k -> Zdigits2 (m * 2 ^ k) = Zdigits2 m + k.
Proof.
  intros Hm Hk.
  pose proof (Zdigits2_upper m ltac:(lia)) as Hu.
  pose proof (Zdigits2_lower m Hm) as Hl.
  assert (Hd : 0 < Zdigits2 m) by (destruct m; simpl; lia).
  assert (Hp : 0 < 2 ^ k) by (apply Z.pow_pos_nonneg; lia).
  apply Zdigits2_unique; [lia|].
  replace (Zdigits2 m + k - 1) with (Zdigits2 m - 1 + k) by lia.
  rewrite !Z.pow_add_r by lia. nia.
Qed.

(** [shl_align] keeps the value and lowers the exponent to the one asked
    for, when that is lower. *)
Lemma shl_align_spec (mx : positive) (ex ex' : Z) :
  snd (shl_align mx ex ex') = Z.min ex ex' /\
  Z.pos (fst (shl_align mx ex ex')) = Z.pos mx * 2 ^ (ex - snd (shl_align mx ex ex')).
Proof.
  unfold shl_align. destruct (ex' - ex) as [|d|d] eqn:E; simpl.
  - rewrite Z.min_l by lia. rewrite Z.sub_diag. simpl. lia.
  - rewrite Z.min_l by lia. rewrite Z.sub_diag. simpl. lia.
  - rewrite Z.min_r by lia. split; [reflexivity|].
    rewrite pos_iter_xO. f_equal. f_equal. lia.
Qed.

Lemma binary_round_not_nan (s : bool) (m : positive) (e : Z) :
  binary_round 24 128 s m e <> S754_nan.
Proof.
  unfold binary_round. destruct (shl_align m e _) as [mz ez].
  pose proof (binary_round_aux_shape s (Z.pos mz) ez loc_Exact ltac:(lia)) as H.
  intros E. rewrite E in H. exact H.
Qed.

Lemma binary_normalize_not_nan (z e : Z) (sz : bool) :
  binary_normalize 24 128 z e sz <> S754_nan.
Proof.
  destruct z; simpl; [discriminate | apply binary_round_not_nan ..].
Qed.

(** Rounding [m * 2^e] cannot overflow when [m] has at most [k] digits
    and [k + e] stays below the exponent of the infinities. *)
Lemma binary_round_no_overflow (s : bool) (m : positive) (e k : Z) :
  Z.pos m < 2 ^ k -> 0 <= k -> k + e <= 127 ->
  forall s', binary_round 24 128 s m e <> S754_infinity s'.
Proof.
  intros Hm Hk Hke s'. unfold binary_round.
  pose proof (shl_align_spec m e (fexp 24 128 (Z.pos (digits2_pos m) + e))) as [He Hz].
  destruct (shl_align m e _) as [mz ez]. simpl in He, Hz.
  pose proof (binary_round_aux_shape s (Z.pos mz) ez loc_Exact ltac:(lia)) as H.
  intros E. rewrite E in H. destruct H as [_ H].
  assert (Hd : Z.pos (digits2_pos m) <= k) by (apply (Zdigits2_le (Z.pos m)); lia).
  assert (Hdz : Zdigits2 (Z.pos mz) = Z.pos (digits2_pos m) + (e - ez)).
  { rewrite Hz. rewrite Zdigits2_mul_pow2 by lia. reflexivity. }
  rewrite Hdz in H. rewrite !fexp32 in *. lia.
Qed.

(** ** Conversions of integers *)

Lemma of_Z_pos_shape (n : Z) :
  0 < n < 2 ^ 32 ->
  exists m e,
    F32.of_Z n = S754_finite false m e /\
    Z.pos (digits2_pos m) = 24 /\
    Zdigits2 n - 24 <= e <= Zdigits2 n - 23.
Proof.
  intros [H0 Hn]. destruct n as [|p|p]; [lia| |lia].
  change (F32.of_Z (Z.pos p)) with (binary_round 24 128 false p 0).
  unfold binary_round.
  pose proof (shl_align_spec p 0 (fexp 24 128 (Z.pos (digits2_pos p) + 0))) as [He Hz].
  destruct (shl_align p 0 _) as [mz ez]. simpl in He, Hz.
  assert (Hd : Z.pos (digits2_pos p) <= 32) by (apply (Zdigits2_le (Z.pos p)); lia).
  assert (Hdz : Zdigits2 (Z.pos mz) = Z.pos (digits2_pos p) + (0 - ez)).
  { rewrite Hz. rewrite Zdigits2_mul_pow2 by lia. reflexivity. }
  rewrite fexp32 in He.
  destruct (binary_round_aux_normal false (Z.pos mz) ez loc_Exact) as (m & e & E & Hm & Hle);
    try lia.
  exists m, e. simpl Zdigits2. repeat split; try assumption; lia.
Qed.

Lemma of_Z_nonneg_cases (n : Z) :
  0 <= n < 2 ^ 32 ->
  F32.of_Z n = F32.zero \/ exists m e, F32.of_Z n = S754_finite false m e.
Proof.
  intros [H0 Hn]. destruct (Z.eq_dec n 0) as [->|Hne]; [left; reflexivity|right].
  destruct (of_Z_pos_shape n ltac:(lia)) as (m & e & E & _). eauto.
Qed.

(** ** Division of two normal numbers *)

Lemma SFdiv_normal_shape (s1 s2 : bool) (m1 m2 : positive) (e1 e2 : Z) :
  Z.pos (digits2_pos m1) = 24 -> Z.pos (digits2_pos m2) = 24 ->
  -125 <= e1 - e2 <= 126 ->
  exists m e,
    F32.div (S754_finite s1 m1 e1) (S754_finite s2 m2 e2)
      = S754_finite (xorb s1 s2) m e /\
    Z.pos (digits2_pos m) = 24 /\
    e1 - e2 - 24 <= e <= e1 - e2 - 22.
Proof.
  intros Hd1 Hd2 He. unfold F32.div, SFdiv, SFdiv_core_binary.
  change F32.prec with 24. change F32.emax with 128.
  simpl Zdigits2. rewrite Hd1, Hd2, fexp32.
  replace (Z.min (Z.max (24 + e1 - (24 + e2) - 24) (-149)) (e1 - e2)) with (e1 - e2 - 24) by lia.
  replace (e1 - e2 - (e1 - e2 - 24)) with 24 by lia.
  rewrite Z.shiftl_mul_pow2 by lia.
  pose proof (digits2_pos_upper m1) as Hu1. pose proof (digits2_pos_lower m1) as Hl1.
  pose proof (digits2_pos_upper m2) as Hu2. pose proof (digits2_pos_lower m2) as Hl2.
  rewrite Hd1 in Hu1, Hl1. rewrite Hd2 in Hu2, Hl2.
  change (24 - 1) with 23 in *.
  pose proof (Z_div_mod (Z.pos m1 * 2 ^ 24) (Z.pos m2) ltac:(lia)) as Hdm.
  destruct (Z.div_eucl (Z.pos m1 * 2 ^ 24) (Z.pos m2)) as [q r].
  destruct Hdm as [Hq Hr].
  assert (Hq1 : 2 ^ 23 <= q) by nia.
  assert (Hq2 : q < 2 ^ 25) by nia.
  assert (Hdq : 24 <= Zdigits2 q <= 25).
  { split; [apply Zdigits2_ge; lia | apply Zdigits2_le; lia]. }
  destruct (binary_round_aux_normal (xorb s1 s2) q (e1 - e2 - 24) (new_location (Z.pos m2) r))
    as (m & e & E & Hm & Hle); try lia.
  exists m, e. repeat split; try assumption; lia.
Qed.



Lemma SFcompare_antisym (x y : spec_float) :
  SFcompare y x = option_map CompOpp (SFcompare x y).
Proof.
  destruct x as [sx|sx| |sx mx ex], y as [sy|sy| |sy my ey]; simpl;
    try reflexivity; try (destruct sx; reflexivity); try (destruct sy; reflexivity);
    try (destruct sx, sy; reflexivity).
  destruct sx, sy; simpl; try reflexivity;
    rewrite (Z.compare_antisym ex ey); destruct (ex ?= ey); simpl; try reflexivity;
    rewrite (Pos.compare_cont_antisym mx my Eq); simpl;
    destruct (Pos.compare_cont Eq mx my); reflexivity.
Qed.

Lemma SFcompare_finite_pos (m1 m2 : positive) (e1 e2 : Z) :
  SFcompare (S754_finite false m1 e1) (S754_finite false m2 e2) =
    Some match e1 ?= e2 with
         | Lt => Lt
         | Gt => Gt
         | Eq => Pos.compare_cont Eq m1 m2
         end.
Proof. reflexivity. Qed.

Lemma in_unit_shape (x : spec_float) :
  F32.in_unit x = true ->
  (exists s, x = S754_zero s) \/
  (exists m e, x = S754_finite false m e /\ e <= -23).
Proof.
  unfold F32.in_unit, F32.leb, SFleb. intros H.
  apply andb_true_iff in H. destruct H as [H0 H1].
  destruct x as [s|s| |s m e].
  - eauto.
  - destruct s; [discriminate H0 | discriminate H1].
  - discriminate H0.
  - destruct s; [discriminate H0|]. right. exists m, e. split; [reflexivity|].
    unfold F32.one in H1. rewrite SFcompare_finite_pos in H1.
    destruct (e ?= -23) eqn:E; try discriminate H1.
    + apply Z.compare_eq in E. lia.
    + change (e < -23) in E. lia.
Qed.

Lemma in_unit_finite (x : spec_float) : F32.in_unit x = true -> F32.is_finite x = true.
Proof.
  intros H. destruct (in_unit_shape x H) as [[s ->] | (m & e & -> & _)]; reflexivity.
Qed.

Lemma SFcompare_None (x y : spec_float) :
  SFcompare x y = None -> F32.is_nan x = true \/ F32.is_nan y = true.
Proof.
  destruct x as [sx|sx| |sx mx ex], y as [sy|sy| |sy my ey]; cbn [SFcompare F32.is_nan];
    auto; discriminate.
Qed.

(** On numbers, [not (y < x)] is [x <= y]. *)
Lemma ltb_false_leb (x y : spec_float) :
  F32.is_nan x = false -> F32.is_nan y = false ->
  F32.ltb y x = false -> F32.leb x y = true.
Proof.
  unfold F32.ltb, F32.leb, SFltb, SFleb. intros Nx Ny.
  rewrite (SFcompare_antisym x y).
  destruct (SFcompare x y) as [[]|] eqn:E; cbn [option_map CompOpp];
    try reflexivity; try discriminate.
  destruct (SFcompare_None x y E); congruence.
Qed.

Lemma clamp_cases (x : spec_float) :
  clamp x = F32.one \/ clamp x = F32.zero \/
  (clamp x = x /\ F32.ltb F32.one x = false /\ F32.ltb x F32.zero = false).
Proof.
  unfold clamp, F32.max, F32.min.
  destruct (F32.ltb F32.one x) eqn:E1.
  - left. reflexivity.
  - destruct (F32.ltb x F32.zero) eqn:E2; auto.
Qed.

(** The clamp brings every float that is a number into [0, 1]. *)
Lemma clamp_in_unit (x : spec_float) :
  F32.is_nan x = false -> F32.in_unit (clamp x) = true.
Proof.
  intros Hx. destruct (clamp_cases x) as [-> | [-> | (-> & H1 & H0)]];
    [reflexivity | reflexivity |].
  unfold F32.in_unit. apply andb_true_iff. split.
  - apply ltb_false_leb; [reflexivity | assumption | assumption].
  - apply ltb_false_leb; [assumption | reflexivity | assumption].
Qed.

(** NaN is not ordered: it passes both comparisons of the clamp. *)
Lemma clamp_nan : clamp S754_nan = S754_nan.
Proof. reflexivity. Qed.

Lemma add_not_nan (x y : spec_float) :
  F32.is_finite x = true -> F32.is_nan y = false -> F32.is_nan (F32.add x y) = false.
Proof.
  intros Hx Hy.
  destruct x as [sx|sx| |sx mx ex]; try discriminate;
    destruct y as [sy|sy| |sy my ey]; try discriminate; try reflexivity.
  - destruct sx, sy; reflexivity.
  - unfold F32.add, SFadd.
    match goal with |- F32.is_nan ?b = false =>
      pose proof (binary_normalize_not_nan) as H; destruct b eqn:E; try reflexivity end.
    exfalso. eapply H. exact E.
Qed.

Lemma SFdiv_core_binary_nonneg (m1 m2 : positive) (e1 e2 : Z) :
  0 <= fst (fst (SFdiv_core_binary 24 128 (Z.pos m1) e1 (Z.pos m2) e2)).
Proof.
  unfold SFdiv_core_binary.
  match goal with |- context [Z.div_eucl ?a ?b] =>
    assert (Ha : 0 <= a); [| pose proof (Z_div_mod a b ltac:(lia)) as Hdm;
                             destruct (Z.div_eucl a b) as [q r]] end.
  - destruct (_ - _ - _) as [|p|p]; try lia. apply Z.shiftl_nonneg. lia.
  - simpl. destruct Hdm as [Hq Hr]. nia.
Qed.

Lemma div_not_nan (x y : spec_float) :
  F32.is_finite x = true -> F32.is_nan y = false -> (forall s, y <> S754_zero s) ->
  F32.is_nan (F32.div x y) = false.
Proof.
  intros Hx Hy Hz.
  destruct x as [sx|sx| |sx mx ex]; try discriminate;
    destruct y as [sy|sy| |sy my ey]; try discriminate; try reflexivity;
    try (exfalso; eapply Hz; reflexivity).
  unfold F32.div, SFdiv.
  pose proof (SFdiv_core_binary_nonneg mx my ex ey) as Hq.
  change F32.prec with 24. change F32.emax with 128.
  destruct (SFdiv_core_binary 24 128 (Z.pos mx) ex (Z.pos my) ey) as [[mz ez] lz].
  cbn [fst] in Hq.
  pose proof (binary_round_aux_shape (xorb sx sy) mz ez lz Hq) as H.
  destruct (binary_round_aux 24 128 (xorb sx sy) mz ez lz) eqn:E; try reflexivity.
  exact (False_ind _ H).
Qed.

Lemma valid_mantissa_bound (s : bool) (m : positive) (e : Z) :
  F32.valid (S754_finite s m e) = true -> Z.pos m < 2 ^ 24.
Proof.
  unfold F32.valid, valid_binary, bounded, canonical_mantissa. intros H.
  apply andb_true_iff in H. destruct H as [H _]. apply Z.eqb_eq in H.
  change F32.prec with 24 in H. change F32.emax with 128 in H.
  rewrite fexp32 in H.
  pose proof (digits2_pos_upper m) as Hu.
  eapply Z.lt_le_trans; [exact Hu|]. apply Z.pow_le_mono_r; lia.
Qed.

(** The difference of two colors' channels is a number: subtracting two
    members of the format that lie in [0, 1] neither overflows nor gives
    NaN. *)
Lemma sub_unit_finite (x y : spec_float) :
  F32.valid x = true -> F32.valid y = true ->
  F32.in_unit x = true -> F32.in_unit y = true ->
  F32.is_finite (F32.sub x y) = true.
Proof.
  intros Vx Vy Ux Uy.
  destruct (in_unit_shape x Ux) as [[sx ->] | (mx & ex & -> & Hex)];
    destruct (in_unit_shape y Uy) as [[sy ->] | (my & ey & -> & Hey)];
    try reflexivity.
  - destruct sx, sy; reflexivity.
  - pose proof (valid_mantissa_bound _ _ _ Vx) as Bx.
    pose proof (valid_mantissa_bound _ _ _ Vy) as By.
    unfold F32.sub, SFsub. cbn [cond_Zopp].
    pose proof (shl_align_spec mx ex (Z.min ex ey)) as [Ex Hx].
    pose proof (shl_align_spec my ey (Z.min ex ey)) as [Ey Hy].
    destruct (shl_align mx ex (Z.min ex ey)) as [mx' ex'].
    destruct (shl_align my ey (Z.min ex ey)) as [my' ey'].
    cbn [fst snd] in *.
    assert (Px : 0 < 2 ^ (ex - ex')) by (apply Z.pow_pos_nonneg; lia).
    assert (Py : 0 < 2 ^ (ey - ey')) by (apply Z.pow_pos_nonneg; lia).
    assert (Bx' : Z.pos mx' < 2 ^ (1 - Z.min ex ey)).
    { rewrite Hx. apply Z.lt_le_trans with (2 ^ 24 * 2 ^ (ex - ex')); [nia|].
      rewrite <- Z.pow_add_r by lia. apply Z.pow_le_mono_r; lia. }
    assert (By' : Z.pos my' < 2 ^ (1 - Z.min ex ey)).
    { rewrite Hy. apply Z.lt_le_trans with (2 ^ 24 * 2 ^ (ey - ey')); [nia|].
      rewrite <- Z.pow_add_r by lia. apply Z.pow_le_mono_r; lia. }
    destruct (Z.pos mx' - Z.pos my') as [|p|p] eqn:E; [reflexivity| |];
      cbn [binary_normalize].
    + pose proof (binary_round_not_nan false p (Z.min ex ey)) as N.
      pose proof (binary_round_no_overflow false p (Z.min ex ey) (1 - Z.min ex ey)
                    ltac:(lia) ltac:(lia) ltac:(lia)) as O.
      change F32.prec with 24. change F32.emax with 128.
      destruct (binary_round 24 128 false p (Z.min ex ey)) as [s|s| |s m e];
        try reflexivity; [exfalso; eapply O; reflexivity | contradiction].
    + pose proof (binary_round_not_nan true p (Z.min ex ey)) as N.
      pose proof (binary_round_no_overflow true p (Z.min ex ey) (1 - Z.min ex ey)
                    ltac:(lia) ltac:(lia) ltac:(lia)) as O.
      change F32.prec with 24. change F32.emax with 128.
      destruct (binary_round 24 128 true p (Z.min ex ey)) as [s|s| |s m e];
        try reflexivity; [exfalso; eapply O; reflexivity | contradiction].
Qed.

(** ** Exact values of roundings *)

Lemma loc_of_shr_record_of_loc (m : Z) (l : location) :
  loc_of_shr_record (shr_record_of_loc m l) = l.
Proof. destruct l as [|[]]; reflexivity. Qed.

(** Rounding a mantissa of 24 or more digits in the normal range: the
    result is normal, and its value is the rounded shifted mantissa at
    the exponent of the shift. *)
Lemma binary_round_aux_value (sx : bool) (mx ex : Z) (lx : location) :
  0 <= mx ->
  24 <= Zdigits2 mx ->
  -149 <= Zdigits2 mx + ex - 24 ->
  Zdigits2 mx + ex - 23 <= 104 ->
  exists m e,
    binary_round_aux 24 128 sx mx ex lx = S754_finite sx m e /\
    Z.pos (digits2_pos m) = 24 /\
    Zdigits2 mx + ex - 24 <= e /\
    Z.pos m * 2 ^ (e - (Zdigits2 mx + ex - 24)) =
      round_nearest_even (shr_m (fst (shr_fexp 24 128 mx ex lx)))
        (loc_of_shr_record (fst (shr_fexp 24 128 mx ex lx))).
Proof.
  intros Hm0 Hd Hlo Hhi.
  assert (Hm : 0 < mx) by (destruct mx; simpl in Hd; lia).
  unfold binary_round_aux.
  pose proof (shr_fexp_spec 24 128 mx ex lx ltac:(lia)) as [He1 Hm1].
  destruct (shr_fexp 24 128 mx ex lx) as [mrs' e'] eqn:E1. cbn [fst snd] in *.
  rewrite fexp32 in He1.
  assert (He' : e' = Zdigits2 mx + ex - 24) by lia. clear He1.
  set (m2 := round_nearest_even (shr_m mrs') (loc_of_shr_record mrs')).
  assert (Hp : 0 < 2 ^ (e' - ex)) by (apply Z.pow_pos_nonneg; lia).
  pose proof (Zdigits2_upper mx ltac:(lia)) as Hu.
  pose proof (Zdigits2_lower mx Hm) as Hl.
  assert (Hpow : 2 ^ Zdigits2 mx = 2 ^ 24 * 2 ^ (e' - ex))
    by (rewrite <- Z.pow_add_r by lia; f_equal; lia).
  assert (Hpow' : 2 ^ (Zdigits2 mx - 1) = 2 ^ 23 * 2 ^ (e' - ex))
    by (rewrite <- Z.pow_add_r by lia; f_equal; lia).
  assert (H1 : 2 ^ 23 <= shr_m mrs' < 2 ^ 24).
  { rewrite Hm1. split.
    - apply Z.div_le_lower_bound; lia.
    - apply Z.div_lt_upper_bound; lia. }
  assert (H2 : 2 ^ 23 <= m2 <= 2 ^ 24)
    by (subst m2; destruct (round_nearest_even_cases (shr_m mrs') (loc_of_shr_record mrs'))
          as [-> | ->]; lia).
  pose proof (shr_fexp_spec 24 128 m2 e' loc_Exact ltac:(lia)) as [He2 Hm2].
  destruct (shr_fexp 24 128 m2 e' loc_Exact) as [mrs'' e''] eqn:E2. cbn [fst snd] in *.
  rewrite fexp32 in He2.
  destruct (Z.eq_dec m2 (2 ^ 24)) as [Heq|Hne].
  - assert (Hd2 : Zdigits2 m2 = 25) by (rewrite Heq; reflexivity).
    assert (He'' : e'' = e' + 1) by lia.
    rewrite Hm2, He'', Heq. replace (e' + 1 - e') with 1 by lia.
    change (2 ^ 24 / 2 ^ 1) with (Z.pos 8388608).
    replace (e' + 1 <=? 128 - 24) with true by (symmetry; apply Z.leb_le; lia).
    exists 8388608%positive, (e' + 1). repeat split; try lia.
    replace (e' + 1 - (Zdigits2 mx + ex - 24)) with 1 by lia. reflexivity.
  - assert (Hd2 : Zdigits2 m2 = 24) by (apply Zdigits2_unique; lia).
    assert (He'' : e'' = e') by lia.
    rewrite Hm2, He'', Z.sub_diag, Z.div_1_r.
    destruct m2 as [|p|p] eqn:Ep; [lia| |lia].
    replace (e' <=? 128 - 24) with true by (symmetry; apply Z.leb_le; lia).
    exists p, e'. simpl in Hd2. repeat split; try lia.
    replace (e' - (Zdigits2 mx + ex - 24)) with 0 by lia. lia.
Qed.

(** The conversion of an integer below [2^24] is exact. *)
Lemma of_Z_exact (n : Z) :
  0 < n < 2 ^ 24 ->
  exists m,
    F32.of_Z n = S754_finite false m (Zdigits2 n - 24) /\
    Z.pos m = n * 2 ^ (24 - Zdigits2 n) /\
    Z.pos (digits2_pos m) = 24.
Proof.
  intros [H0 Hn]. destruct n as [|p|p]; [lia| |lia].
  change (F32.of_Z (Z.pos p)) with (binary_round 24 128 false p 0).
  unfold binary_round.
  pose proof (shl_align_spec p 0 (fexp 24 128 (Z.pos (digits2_pos p) + 0))) as [He Hz].
  destruct (shl_align p 0 _) as [mz ez]. cbn [fst snd] in He, Hz.
  assert (Hd : Z.pos (digits2_pos p) <= 24) by (apply (Zdigits2_le (Z.pos p)); lia).
  rewrite fexp32 in He.
  assert (Hez : ez = Z.pos (digits2_pos p) - 24) by lia.
  assert (Hdz : Zdigits2 (Z.pos mz) = 24).
  { rewrite Hz. rewrite Zdigits2_mul_pow2 by lia. simpl Zdigits2. lia. }
  destruct (binary_round_aux_value false (Z.pos mz) ez loc_Exact)
    as (m & e & E & Hm & Hle & Hv); try lia.
  replace (e - (Zdigits2 (Z.pos mz) + ez - 24)) with (e - ez) in Hv by lia.
  unfold shr_fexp in Hv. rewrite fexp32, Hdz in Hv.
  replace (Z.max (24 + ez - 24) (-149) - ez) with 0 in Hv by lia.
  cbn [shr fst shr_record_of_loc shr_m loc_of_shr_record round_nearest_even] in Hv.
  assert (Hee : e = ez).
  { destruct (Z.eq_dec e ez) as [|Hne]; [assumption|exfalso].
    assert (Hp : 2 <= 2 ^ (e - ez)).
    { change 2 with (2 ^ 1) at 1. apply Z.pow_le_mono_r; lia. }
    pose proof (digits2_pos_lower m) as Hl. rewrite Hm in Hl.
    pose proof (Zdigits2_upper (Z.pos mz) ltac:(lia)) as Hu. rewrite Hdz in Hu.
    change (2 ^ (24 - 1)) with 8388608 in Hl. change (2 ^ 24) with 16777216 in Hu. nia. }
  subst e. rewrite Z.sub_diag, Z.pow_0_r, Z.mul_1_r in Hv. injection Hv as ->.
  exists mz. simpl Zdigits2. rewrite E, Hz, Hez. repeat split; try assumption.
  f_equal. f_equal. lia.
Qed.

(** Two positive normal numbers compare as their values do. *)
Lemma ltb_normal (m1 m2 : positive) (e1 e2 e0 : Z) :
  Z.pos (digits2_pos m1) = 24 -> Z.pos (digits2_pos m2) = 24 ->
  e0 <= e1 -> e0 <= e2 ->
  F32.ltb (S754_finite false m1 e1) (S754_finite false m2 e2) = true <->
  Z.pos m1 * 2 ^ (e1 - e0) < Z.pos m2 * 2 ^ (e2 - e0).
Proof.
  intros Hd1 Hd2 H1 H2.
  pose proof (digits2_pos_upper m1) as Hu1. pose proof (digits2_pos_lower m1) as Hl1.
  pose proof (digits2_pos_upper m2) as Hu2. pose proof (digits2_pos_lower m2) as Hl2.
  rewrite Hd1 in Hu1, Hl1. rewrite Hd2 in Hu2, Hl2.
  change (2 ^ (24 - 1)) with 8388608 in *. change (2 ^ 24) with 16777216 in *.
  unfold F32.ltb, SFltb. rewrite SFcompare_finite_pos.
  destruct (e1 ?= e2) eqn:E.
  - apply Z.compare_eq in E. subst e2.
    assert (Hp : 0 < 2 ^ (e1 - e0)) by (apply Z.pow_pos_nonneg; lia).
    change (Pos.compare_cont Eq m1 m2) with (Z.pos m1 ?= Z.pos m2).
    destruct (Z.pos m1 ?= Z.pos m2) eqn:Ec.
    + apply Z.compare_eq in Ec. split; [discriminate|]. rewrite Ec. lia.
    + change (Z.pos m1 < Z.pos m2) in Ec. split; [intros _; nia | reflexivity].
    + apply Z.compare_gt_iff in Ec. split; [discriminate|]. nia.
  - change (e1 < e2) in E.
    assert (Hp : 0 < 2 ^ (e1 - e0)) by (apply Z.pow_pos_nonneg; lia).
    assert (Hq : 2 * 2 ^ (e1 - e0) <= 2 ^ (e2 - e0)).
    { replace (e2 - e0) with (1 + (e2 - e1 - 1) + (e1 - e0)) by lia.
      rewrite !Z.pow_add_r by lia.
      assert (0 < 2 ^ (e2 - e1 - 1)) by (apply Z.pow_pos_nonneg; lia).
      change (2 ^ 1) with 2. nia. }
    split; [intros _; nia | reflexivity].
  - apply Z.compare_gt_iff in E.
    assert (Hp : 0 < 2 ^ (e2 - e0)) by (apply Z.pow_pos_nonneg; lia).
    assert (Hq : 2 * 2 ^ (e2 - e0) <= 2 ^ (e1 - e0)).
    { replace (e1 - e0) with (1 + (e1 - e2 - 1) + (e2 - e0)) by lia.
      rewrite !Z.pow_add_r by lia.
      assert (0 < 2 ^ (e1 - e2 - 1)) by (apply Z.pow_pos_nonneg; lia).
      change (2 ^ 1) with 2. nia. }
    split; [discriminate | nia].
Qed.

Lemma new_location_exact (n k : Z) : new_location n k = loc_Exact <-> k = 0.
Proof.
  unfold new_location, new_location_even, new_location_odd.
  destruct (Z.even n); destruct (Z.eqb_spec k 0) as [->|Hk];
    split; try reflexivity; try discriminate; try contradiction;
    try (intros H; destruct (_ ?= _); discriminate H).
Qed.

Lemma round_exact (m : Z) : round_nearest_even m loc_Exact = m.
Proof. reflexivity. Qed.

(** One shift of an even mantissa that is exact stays exact; one shift
    of an odd mantissa that is inexact lands above the midpoint. *)
Lemma shr_1_even_exact (k : Z) :
  0 < k ->
  let mrs := shr_1 (shr_record_of_loc (2 * k) loc_Exact) in
  shr_m mrs = k /\ loc_of_shr_record mrs = loc_Exact.
Proof. intros Hk. destruct k as [|p|p]; try lia. split; reflexivity. Qed.

Lemma shr_1_odd_inexact (k : Z) (l : location) :
  0 <= k -> l <> loc_Exact ->
  let mrs := shr_1 (shr_record_of_loc (2 * k + 1) l) in
  shr_m mrs = k /\ loc_of_shr_record mrs = loc_Inexact Gt.
Proof.
  intros Hk Hl. destruct k as [|p|p]; try lia;
    destruct l as [|[]]; try contradiction; split; reflexivity.
Qed.

Lemma shr_1_m_half (q : Z) (l : location) :
  0 <= q -> shr_m (shr_1 (shr_record_of_loc q l)) = q / 2.
Proof. intros Hq. rewrite shr_1_m; rewrite shr_record_of_loc_m; [reflexivity | assumption]. Qed.

Lemma shr_fexp_24 (q e : Z) (l : location) :
  Zdigits2 q = 24 -> -149 <= e ->
  fst (shr_fexp 24 128 q e l) = shr_record_of_loc q l.
Proof.
  intros Hd He. unfold shr_fexp. rewrite Hd, fexp32.
  replace (Z.max (24 + e - 24) (-149) - e) with 0 by lia. reflexivity.
Qed.

Lemma shr_fexp_25 (q e : Z) (l : location) :
  Zdigits2 q = 25 -> -150 <= e ->
  fst (shr_fexp 24 128 q e l) = shr_1 (shr_record_of_loc q l).
Proof.
  intros Hd He. unfold shr_fexp. rewrite Hd, fexp32.
  replace (Z.max (25 + e - 24) (-149) - e) with 1 by lia. reflexivity.
Qed.

(** The quotient of two normal numbers, with its value. *)
Lemma div_normal_value (s1 s2 : bool) (m1 m2 : positive) (e1 e2 : Z) :
  Z.pos (digits2_pos m1) = 24 -> Z.pos (digits2_pos m2) = 24 ->
  -125 <= e1 - e2 <= 126 ->
  let q := Z.pos m1 * 2 ^ 24 / Z.pos m2 in
  let r := (Z.pos m1 * 2 ^ 24) mod Z.pos m2 in
  let mrs := fst (shr_fexp 24 128 q (e1 - e2 - 24) (new_location (Z.pos m2) r)) in
  let E := Zdigits2 q + (e1 - e2 - 24) - 24 in
  2 ^ 23 <= q < 2 ^ 25 /\
  exists m e,
    F32.div (S754_finite s1 m1 e1) (S754_finite s2 m2 e2) = S754_finite (xorb s1 s2) m e /\
    Z.pos (digits2_pos m) = 24 /\
    E <= e /\
    Z.pos m * 2 ^ (e - E) = round_nearest_even (shr_m mrs) (loc_of_shr_record mrs).
Proof.
  intros Hd1 Hd2 He q r mrs E. subst mrs E.
  unfold F32.div, SFdiv, SFdiv_core_binary.
  change F32.prec with 24. change F32.emax with 128.
  simpl Zdigits2. rewrite Hd1, Hd2, fexp32.
  replace (Z.min (Z.max (24 + e1 - (24 + e2) - 24) (-149)) (e1 - e2)) with (e1 - e2 - 24) by lia.
  replace (e1 - e2 - (e1 - e2 - 24)) with 24 by lia.
  rewrite Z.shiftl_mul_pow2 by lia.
  pose proof (digits2_pos_upper m1) as Hu1. pose proof (digits2_pos_lower m1) as Hl1.
  pose proof (digits2_pos_upper m2) as Hu2. pose proof (digits2_pos_lower m2) as Hl2.
  rewrite Hd1 in Hu1, Hl1. rewrite Hd2 in Hu2, Hl2.
  change (24 - 1) with 23 in *.
  pose proof (Z_div_mod (Z.pos m1 * 2 ^ 24) (Z.pos m2) ltac:(lia)) as Hdm.
  unfold q, r, Z.div, Z.modulo.
  destruct (Z.div_eucl (Z.pos m1 * 2 ^ 24) (Z.pos m2)) as [q0 r0].
  destruct Hdm as [Hq Hr].
  assert (Hq1 : 2 ^ 23 <= q0) by nia.
  assert (Hq2 : q0 < 2 ^ 25) by nia.
  split; [lia|].
  assert (Hdq : 24 <= Zdigits2 q0 <= 25).
  { split; [apply Zdigits2_ge; lia | apply Zdigits2_le; lia]. }
  destruct (binary_round_aux_value (xorb s1 s2) q0 (e1 - e2 - 24) (new_location (Z.pos m2) r0))
    as (m & e & Eq & Hm & Hle & Hv); try lia.
  exists m, e. repeat split; assumption.
Qed.

(** The arithmetic behind the comparison of an integer with the rounded
    quotient, when the quotient has 24 digits... *)
Lemma quotient_core_24 (i q r mR R D T S M : Z) :
  0 < mR < T -> 0 <= r < mR -> q * mR + r = D * T -> mR * S = R * T ->
  0 < S -> 0 <= i ->
  M = q \/ M = q + 1 -> (r = 0 -> M = q) ->
  i * S < M <-> i * R < D.
Proof.
  intros HmR Hr Hq HS HS0 Hi HM HM0.
  assert (HT : i * S * mR = i * R * T) by nia.
  destruct (Z.lt_trichotomy (i * R) D) as [H | [H | H]].
  - split; [intros _; exact H|intros _].
    assert (i * R * T <= D * T - T) by nia.
    assert (i * S * mR < q * mR) by nia.
    assert (i * S < q) by nia. lia.
  - assert (Hr0 : r = 0).
    { assert (r = (i * S - q) * mR) by nia.
      destruct (Z.lt_trichotomy (i * S) q) as [G | [G | G]]; nia. }
    assert (i * S = q) by nia.
    rewrite (HM0 Hr0). lia.
  - split; [|lia]. intros G. exfalso.
    assert (D * T + T <= i * R * T) by nia.
    assert ((q + 1) * mR <= i * S * mR) by nia.
    assert (q + 1 <= i * S) by nia. lia.
Qed.

(** ... and when it has 25 digits and loses its last bit. *)
Lemma quotient_core_25 (i q r mR R D T S' M : Z) :
  0 < mR < T -> 0 <= r < mR -> q * mR + r = D * T -> mR * (2 * S') = R * T ->
  0 < S' -> 0 <= i -> 0 <= q ->
  M = q / 2 \/ M = q / 2 + 1 ->
  (q mod 2 = 0 -> r = 0 -> M = q / 2) ->
  (q mod 2 = 1 -> r <> 0 -> M = q / 2 + 1) ->
  i * S' < M <-> i * R < D.
Proof.
  intros HmR Hr Hq HS HS0 Hi Hq0 HM HMe HMo.
  assert (HT : i * (2 * S') * mR = i * R * T) by nia.
  pose proof (Z.div_mod q 2 ltac:(lia)) as Hdm.
  pose proof (Z.mod_pos_bound q 2 ltac:(lia)) as Hb.
  set (q1 := q / 2) in *. set (b := q mod 2) in *.
  destruct (Z.lt_trichotomy (i * R) D) as [H | [H | H]].
  - split; [intros _; exact H|intros _].
    assert (i * R * T <= D * T - T) by nia.
    assert (i * (2 * S') * mR < q * mR) by nia.
    assert (i * (2 * S') < q) by nia.
    destruct (Z.lt_trichotomy (i * S') q1) as [G | [G | G]]; [lia| |lia].
    assert (Hb1 : b = 1) by lia.
    assert (Hr0 : r <> 0) by nia.
    rewrite (HMo Hb1 Hr0). lia.
  - assert (Hr0 : r = 0).
    { assert (r = (i * (2 * S') - q) * mR) by nia.
      destruct (Z.lt_trichotomy (i * (2 * S')) q) as [G | [G | G]]; nia. }
    assert (i * (2 * S') = q) by nia.
    assert (Hb0 : b = 0) by lia.
    rewrite (HMe Hb0 Hr0). lia.
  - split; [|lia]. intros G. exfalso.
    assert (D * T + T <= i * R * T) by nia.
    assert ((q + 1) * mR <= i * (2 * S') * mR) by nia.
    assert (q + 1 <= i * (2 * S')) by nia. lia.
Qed.

Lemma round_half (q : Z) (l : location) :
  0 <= q ->
  let mrs := shr_1 (shr_record_of_loc q l) in
  let M := round_nearest_even (shr_m mrs) (loc_of_shr_record mrs) in
  (M = q / 2 \/ M = q / 2 + 1) /\
  (q mod 2 = 0 -> l = loc_Exact -> M = q / 2) /\
  (q mod 2 = 1 -> l <> loc_Exact -> M = q / 2 + 1).
Proof.
  intros Hq mrs M. subst M mrs.
  pose proof (Z.div_mod q 2 ltac:(lia)) as Hdm.
  pose proof (Z.mod_pos_bound q 2 ltac:(lia)) as Hb.
  split; [|split].
  - rewrite <- (shr_1_m_half q l Hq). apply round_nearest_even_cases.
  - intros H0 ->. destruct (Z.eq_dec q 0) as [->|Hn]; [reflexivity|].
    assert (Hq2 : q = 2 * (q / 2)) by lia.
    destruct (shr_1_even_exact (q / 2) ltac:(lia)) as [E1 E2].
    rewrite <- Hq2 in E1, E2. rewrite E1, E2. reflexivity.
  - intros H1 Hl.
    assert (Hq2 : q = 2 * (q / 2) + 1) by lia.
    destruct (shr_1_odd_inexact (q / 2) l ltac:(apply Z.div_pos; lia) Hl) as [E1 E2].
    rewrite <- Hq2 in E1, E2. rewrite E1, E2. reflexivity.
Qed.

(** For a duration and an interval below [2^24], an integer is below
    the single-precision quotient exactly when it is below the exact
    quotient. *)
Lemma ltb_of_Z_quotient (D R i : Z) :
  0 < D < 2 ^ 24 -> 0 < R < 2 ^ 24 -> 0 <= i < 2 ^ 24 ->
  F32.ltb (F32.of_Z i) (F32.div (F32.of_Z D) (F32.of_Z R)) = true <-> i * R < D.
Proof.
  intros HD HR Hi.
  destruct (of_Z_exact D HD) as (mD & ED & VD & DD).
  destruct (of_Z_exact R HR) as (mR & ER & VR & DR).
  assert (BD : 1 <= Zdigits2 D <= 24)
    by (split; [apply Zdigits2_ge; simpl; lia | apply Zdigits2_le; lia]).
  assert (BR : 1 <= Zdigits2 R <= 24)
    by (split; [apply Zdigits2_ge; simpl; lia | apply Zdigits2_le; lia]).
  rewrite ED, ER.
  destruct (div_normal_value false false mD mR (Zdigits2 D - 24) (Zdigits2 R - 24) DD DR
              ltac:(lia)) as (Hq & m & e & Em & Dm & HE & HV).
  rewrite Em. cbn [xorb] in *.
  set (q := Z.pos mD * 2 ^ 24 / Z.pos mR) in *.
  set (r := (Z.pos mD * 2 ^ 24) mod Z.pos mR) in *.
  set (a := 24 - Zdigits2 D) in *. set (b := 24 - Zdigits2 R) in *.
  replace (Zdigits2 D - 24 - (Zdigits2 R - 24) - 24) with (b - a - 24) in * by lia.
  assert (Hqr : q * Z.pos mR + r = Z.pos mD * 2 ^ 24).
  { pose proof (Z.div_mod (Z.pos mD * 2 ^ 24) (Z.pos mR) ltac:(lia)). subst q r. lia. }
  assert (Hr : 0 <= r < Z.pos mR) by (apply Z.mod_pos_bound; lia).
  set (T := 2 ^ (24 + a)).
  assert (HT : Z.pos mD * 2 ^ 24 = D * T).
  { rewrite VD. unfold T. rewrite Z.pow_add_r by lia. lia. }
  assert (HT0 : 2 ^ 24 <= T) by (apply Z.pow_le_mono_r; lia).
  pose proof (digits2_pos_upper mR) as HuR. rewrite DR in HuR.
  assert (HmRT : 0 < Z.pos mR < T) by lia.
  assert (Hl : forall x, x = 0 <-> new_location (Z.pos mR) x = loc_Exact)
    by (intros x; symmetry; apply new_location_exact).
  (* the integer [i] *)
  destruct (Z.eq_dec i 0) as [->|Hi0].
  { change (F32.of_Z 0) with F32.zero. split; [intros _; lia | reflexivity]. }
  destruct (of_Z_exact i ltac:(lia)) as (mi & Ei & Vi & Di).
  assert (Bi : 1 <= Zdigits2 i <= 24)
    by (split; [apply Zdigits2_ge; simpl; lia | apply Zdigits2_le; lia]).
  rewrite Ei.
  assert (Hdq : Zdigits2 q = 24 \/ Zdigits2 q = 25).
  { assert (24 <= Zdigits2 q <= 25)
      by (split; [apply Zdigits2_ge; lia | apply Zdigits2_le; lia]). lia. }
  rewrite (ltb_normal mi m (Zdigits2 i - 24) e (-48) Di Dm ltac:(lia) ltac:(lia)).
  rewrite Vi.
  replace (i * 2 ^ (24 - Zdigits2 i) * 2 ^ (Zdigits2 i - 24 - -48)) with (i * 2 ^ 48)
    by (rewrite <- Z.mul_assoc, <- Z.pow_add_r by lia; do 2 f_equal; lia).
  destruct Hdq as [Hdq | Hdq]; rewrite Hdq in *.
  - (* the quotient has 24 digits *)
    rewrite shr_fexp_24 in HV by lia.
    rewrite shr_record_of_loc_m, loc_of_shr_record_of_loc in HV.
    set (M := round_nearest_even q (new_location (Z.pos mR) r)) in *.
    set (E := 24 + (b - a - 24) - 24) in *.
    set (S := 2 ^ (24 + a - b)).
    assert (HS0 : 0 < S) by (apply Z.pow_pos_nonneg; lia).
    assert (HS : Z.pos mR * S = R * T).
    { rewrite VR. unfold S, T. fold b. rewrite <- Z.mul_assoc, <- Z.pow_add_r by lia.
      do 2 f_equal. lia. }
    assert (HM : M = q \/ M = q + 1) by apply round_nearest_even_cases.
    assert (HM0 : r = 0 -> M = q).
    { intros Hr0. unfold M. rewrite (proj1 (Hl r) Hr0). reflexivity. }
    rewrite <- (quotient_core_24 i q r (Z.pos mR) R D T S M HmRT Hr ltac:(lia) HS HS0
                  ltac:(lia) HM HM0).
    replace (Z.pos m * 2 ^ (e - -48)) with (M * 2 ^ (E + 48)).
    2:{ rewrite <- HV, <- Z.mul_assoc, <- Z.pow_add_r by lia. do 2 f_equal. lia. }
    replace (2 ^ 48) with (S * 2 ^ (E + 48)).
    2:{ unfold S. rewrite <- Z.pow_add_r by lia. f_equal. lia. }
    assert (0 < 2 ^ (E + 48)) by (apply Z.pow_pos_nonneg; lia).
    rewrite Z.mul_assoc. symmetry. apply Z.mul_lt_mono_pos_r. assumption.
  - (* the quotient has 25 digits *)
    rewrite shr_fexp_25 in HV by lia.
    destruct (round_half q (new_location (Z.pos mR) r) ltac:(lia)) as (HM & HMe & HMo).
    cbv zeta in HM, HMe, HMo.
    set (M := round_nearest_even _ _) in *.
    set (E := 25 + (b - a - 24) - 24) in *.
    assert (Hab : 1 <= 24 + a - b).
    { (* a quotient of 25 digits needs [mD >= mR], and then [a - b >= -23] *) lia. }
    set (S' := 2 ^ (24 + a - b - 1)).
    assert (HS0 : 0 < S') by (apply Z.pow_pos_nonneg; lia).
    assert (HS : Z.pos mR * (2 * S') = R * T).
    { rewrite VR. unfold S', T. fold b.
      replace (2 * 2 ^ (24 + a - b - 1)) with (2 ^ (24 + a - b))
        by (replace (24 + a - b) with (1 + (24 + a - b - 1)) at 1 by lia;
            rewrite Z.pow_add_r by lia; reflexivity).
      rewrite <- Z.mul_assoc, <- Z.pow_add_r by lia. do 2 f_equal. lia. }
    rewrite <- (quotient_core_25 i q r (Z.pos mR) R D T S' M HmRT Hr ltac:(lia) HS HS0
                  ltac:(lia) ltac:(lia) HM).
    + replace (Z.pos m * 2 ^ (e - -48)) with (M * 2 ^ (E + 48)).
      2:{ rewrite <- HV, <- Z.mul_assoc, <- Z.pow_add_r by lia. do 2 f_equal. lia. }
      replace (2 ^ 48) with (S' * 2 ^ (E + 48)).
      2:{ unfold S'. rewrite <- Z.pow_add_r by lia. f_equal. lia. }
      assert (0 < 2 ^ (E + 48)) by (apply Z.pow_pos_nonneg; lia).
      rewrite Z.mul_assoc. symmetry. apply Z.mul_lt_mono_pos_r. assumption.
    + intros H0 Hr0. apply HMe; [exact H0 | apply Hl; exact Hr0].
    + intros H1 Hr0. apply HMo; [exact H1 |]. intros Hx. apply Hr0, Hl, Hx.
Qed.

(** * The loops of the transition engine *)

Ltac four l :=
  destruct l as [|? [|? [|? [|? [|? ?]]]]]; try discriminate.

Lemma color_loop_4 (lf rf ld rd : color) :
  length lf = NUM_COLORS -> length rf = NUM_COLORS ->
  length ld = NUM_COLORS -> length rd = NUM_COLORS ->
  color_loop NUM_COLORS 0 lf rf ld rd =
    Some (step_color lf ld, step_color rf rd).
Proof.
  intros H1 H2 H3 H4. four lf. four rf. four ld. four rd. reflexivity.
Qed.

Lemma delta_loop_4 (maxi : spec_float) (lt lf rt rf ld rd : color) :
  length lt = NUM_COLORS -> length lf = NUM_COLORS ->
  length rt = NUM_COLORS -> length rf = NUM_COLORS ->
  length ld = NUM_COLORS -> length rd = NUM_COLORS ->
  delta_loop NUM_COLORS 0 maxi lt lf rt rf ld rd =
    Some (delta_color maxi lt lf, delta_color maxi rt rf).
Proof.
  intros H1 H2 H3 H4 H5 H6. four lt. four lf. four rt. four rf. four ld. four rd.
  reflexivity.
Qed.

Lemma length_step_color (c d : color) (n : nat) :
  length c = n -> length d = n -> length (step_color c d) = n.
Proof. intros Hl Hk. unfold step_color. rewrite length_zip_with. lia. Qed.

Lemma length_delta_color (maxi : spec_float) (t f : color) (n : nat) :
  length t = n -> length f = n -> length (delta_color maxi t f) = n.
Proof. intros Hl Hk. unfold delta_color. rewrite length_zip_with. lia. Qed.

Lemma Forall_zip_with_2 {A B C} (P : A -> Prop) (Q : B -> Prop) (R : C -> Prop)
    (f : A -> B -> C) (l : list A) (k : list B) :
  (forall x y, P x -> Q y -> R (f x y)) ->
  Forall P l -> Forall Q k -> Forall R (zip_with f l k).
Proof.
  intros Hf Hl. revert k. induction Hl as [|x l Hx Hl IH]; intros k Hk; [constructor|].
  destruct Hk as [|y k Hy Hk]; simpl; constructor; auto.
Qed.

Lemma pushes_app (tr1 tr2 : trace) : pushes (tr1 ++ tr2) = pushes tr1 ++ pushes tr2.
Proof. apply omap_app. Qed.

(** A step keeps the running colors in [0, 1], whatever the deltas, as
    long as no delta is NaN. *)
Lemma step_unit_color (c d : color) :
  unit_color c -> Forall (fun x => F32.is_nan x = false) d ->
  unit_color (step_color c d).
Proof.
  apply Forall_zip_with_2. intros x y Hx Hy.
  apply clamp_in_unit, add_not_nan; [apply in_unit_finite|]; assumption.
Qed.

Lemma transition_loop_O (refresh : Z) (maxi : spec_float) (i : Z) (lf rf ld rd : color) :
  transition_loop O refresh maxi i lf rf ld rd =
    if F32.ltb (F32.of_Z i) maxi then (OutOfFuel, []) else (Done (lf, rf), []).
Proof. reflexivity. Qed.

Lemma transition_loop_S (fuel : nat) (refresh : Z) (maxi : spec_float) (i : Z)
    (lf rf ld rd : color) :
  transition_loop (S fuel) refresh maxi i lf rf ld rd =
    if F32.ltb (F32.of_Z i) maxi then
      match color_loop NUM_COLORS 0 lf rf ld rd with
      | None => (Undefined, [])
      | Some (lf', rf') =>
          if i =? INT_MAX then (Undefined, [SetRgbw lf' rf'; Sleep refresh])
          else
            let '(o, tr) := transition_loop fuel refresh maxi (i + 1) lf' rf' ld rd in
            (o, [SetRgbw lf' rf'; Sleep refresh] ++ tr)
      end
    else (Done (lf, rf), []).
Proof. reflexivity. Qed.

(** The loop makes exactly [n] steps when [i + n] is the first index
    whose conversion is not below [maxi]. *)
Lemma transition_loop_steps (n : nat) :
  forall (fuel : nat) (refresh : Z) (maxi : spec_float) (i : Z) (lf rf ld rd : color),
    length lf = NUM_COLORS -> length rf = NUM_COLORS ->
    length ld = NUM_COLORS -> length rd = NUM_COLORS ->
    (forall k, i <= k < i + Z.of_nat n -> F32.ltb (F32.of_Z k) maxi = true) ->
    F32.ltb (F32.of_Z (i + Z.of_nat n)) maxi = false ->
    i + Z.of_nat n <= INT_MAX ->
    (n <= fuel)%nat ->
    exists c tr,
      transition_loop fuel refresh maxi i lf rf ld rd = (Done c, tr) /\
      length (pushes tr) = n.
Proof.
  induction n as [|n IH]; intros fuel refresh maxi i lf rf ld rd H1 H2 H3 H4 Hlt Hge Hmax Hfuel.
  - replace (i + Z.of_nat 0) with i in Hge by lia.
    exists (lf, rf), [].
    destruct fuel; rewrite ?transition_loop_O, ?transition_loop_S, Hge; auto.
  - destruct fuel as [|fuel]; [lia|]. rewrite transition_loop_S.
    rewrite (Hlt i) by lia.
    rewrite color_loop_4 by assumption.
    replace (i =? INT_MAX) with false by (symmetry; apply Z.eqb_neq; lia).
    destruct (IH fuel refresh maxi (i + 1)
                (step_color lf ld) (step_color rf rd) ld rd)
      as (c & tr & E & Hlen).
    + apply length_step_color; assumption.
    + apply length_step_color; assumption.
    + assumption.
    + assumption.
    + intros k Hk. apply Hlt. lia.
    + replace (i + 1 + Z.of_nat n) with (i + Z.of_nat (S n)) by lia. assumption.
    + lia.
    + lia.
    + rewrite E. exists c. eexists. split; [reflexivity|].
      simpl. rewrite Hlen. reflexivity.
Qed.

(** Every pair the loop pushes is in [0, 1], in every prefix of the run. *)
Lemma transition_loop_unit (fuel : nat) :
  forall (refresh : Z) (maxi : spec_float) (i : Z) (lf rf ld rd : color),
    length lf = NUM_COLORS -> length rf = NUM_COLORS ->
    length ld = NUM_COLORS -> length rd = NUM_COLORS ->
    Forall (fun x => F32.is_nan x = false) ld ->
    Forall (fun x => F32.is_nan x = false) rd ->
    unit_color lf -> unit_color rf ->
    Forall (fun p => unit_color p.1 /\ unit_color p.2)
      (pushes (snd (transition_loop fuel refresh maxi i lf rf ld rd))).
Proof.
  induction fuel as [|fuel IH]; intros refresh maxi i lf rf ld rd H1 H2 H3 H4 Nl Nr Ul Ur;
    rewrite ?transition_loop_O, ?transition_loop_S.
  - destruct (F32.ltb (F32.of_Z i) maxi); constructor.
  - destruct (F32.ltb (F32.of_Z i) maxi); [|constructor].
    rewrite color_loop_4 by assumption.
    pose proof (step_unit_color lf ld Ul Nl) as Ul'.
    pose proof (step_unit_color rf rd Ur Nr) as Ur'.
    destruct (i =? INT_MAX).
    + simpl. constructor; [split; assumption|constructor].
    + specialize (IH refresh maxi (i + 1) _ _ ld rd
                    (length_step_color lf ld _ H1 H3)
                    (length_step_color rf rd _ H2 H4) H3 H4 Nl Nr Ul' Ur').
      destruct (transition_loop fuel refresh maxi (i + 1) _ _ ld rd) as [o tr].
      simpl in *. constructor; [split; assumption|exact IH].
Qed.

(** With [maxi] the positive infinity the loop never returns: it pushes
    a pair at every index up to [INT_MAX] and then overflows its counter. *)
Lemma transition_loop_infinity (fuel : nat) :
  forall (refresh : Z) (i : Z) (lf rf ld rd : color),
    length lf = NUM_COLORS -> length rf = NUM_COLORS ->
    length ld = NUM_COLORS -> length rd = NUM_COLORS ->
    0 <= i <= INT_MAX ->
    let r := transition_loop fuel refresh (S754_infinity false) i lf rf ld rd in
    (forall c, fst r <> Done c) /\
    Z.of_nat (length (pushes (snd r))) = Z.min (Z.of_nat fuel) (INT_MAX + 1 - i).
Proof.
  induction fuel as [|fuel IH]; intros refresh i lf rf ld rd H1 H2 H3 H4 Hi r; subst r;
    rewrite ?transition_loop_O, ?transition_loop_S.
  all: assert (Hlt : F32.ltb (F32.of_Z i) (S754_infinity false) = true)
    by (destruct (of_Z_nonneg_cases i) as [E | (m & e & E)];
        [unfold INT_MAX in Hi; lia | rewrite E; reflexivity ..]).
  all: rewrite Hlt.
  - split; [discriminate|]. simpl. unfold INT_MAX in *. lia.
  - rewrite color_loop_4 by assumption.
    destruct (i =? INT_MAX) eqn:E.
    + apply Z.eqb_eq in E. split; [discriminate|]. simpl. lia.
    + apply Z.eqb_neq in E.
      specialize (IH refresh (i + 1) _ _ ld rd
                    (length_step_color lf ld _ H1 H3)
                    (length_step_color rf rd _ H2 H4) H3 H4 ltac:(lia)).
      destruct (transition_loop fuel refresh (S754_infinity false) (i + 1) _ _ ld rd)
        as [o tr]. simpl in *. destruct IH as [IH1 IH2].
      split; [exact IH1|]. lia.
Qed.

Lemma ltb_nan_r (x : spec_float) : F32.ltb x S754_nan = false.
Proof. destruct x; reflexivity. Qed.

Lemma transition_loop_done (fuel : nat) (refresh : Z) (maxi : spec_float) (i : Z)
    (lf rf ld rd : color) :
  F32.ltb (F32.of_Z i) maxi = false ->
  transition_loop fuel refresh maxi i lf rf ld rd = (Done (lf, rf), []).
Proof.
  intros H. destruct fuel; rewrite ?transition_loop_O, ?transition_loop_S, H; reflexivity.
Qed.

(** More fuel does not change a run that returns. *)
Lemma transition_loop_fuel_mono (fuel : nat) :
  forall (fuel' : nat) (refresh : Z) (maxi : spec_float) (i : Z) (lf rf ld rd : color) c tr,
    transition_loop fuel refresh maxi i lf rf ld rd = (Done c, tr) ->
    (fuel <= fuel')%nat ->
    transition_loop fuel' refresh maxi i lf rf ld rd = (Done c, tr).
Proof.
  induction fuel as [|fuel IH]; intros fuel' refresh maxi i lf rf ld rd c tr E Hle.
  - rewrite transition_loop_O in E.
    destruct (F32.ltb (F32.of_Z i) maxi) eqn:El; [discriminate|].
    rewrite transition_loop_done by assumption. exact E.
  - destruct fuel' as [|fuel']; [lia|].
    rewrite transition_loop_S in *.
    destruct (F32.ltb (F32.of_Z i) maxi); [|exact E].
    destruct (color_loop NUM_COLORS 0 lf rf ld rd) as [[lf' rf']|]; [|discriminate].
    destruct (i =? INT_MAX); [discriminate|].
    destruct (transition_loop fuel refresh maxi (i + 1) lf' rf' ld rd) as [o tr0] eqn:E0.
    destruct o as [c0| |]; try discriminate.
    rewrite (IH fuel' refresh maxi (i + 1) lf' rf' ld rd c0 tr0 E0) by lia.
    exact E.
Qed.

(** [transitionBoth] on vectors of [NUM_COLORS] entries. *)
Lemma transitionBoth_eq (fuel : nat) (h : RgbLightHandler) (lf rf : color) :
  length lf = NUM_COLORS -> length rf = NUM_COLORS ->
  length (target (patternLeft h)) = NUM_COLORS ->
  length (target (patternRight h)) = NUM_COLORS ->
  transitionBoth fuel h lf rf =
    if F32.eqb (maxi_of h) F32.zero then (Done (transition_handler h), [])
    else
      let '(o, tr) :=
        transition_loop fuel (transitionRefreshInterval h) (maxi_of h) 0 lf rf
          (delta_color (maxi_of h) (target (patternLeft h)) lf)
          (delta_color (maxi_of h) (target (patternRight h)) rf) in
      (match o with
       | Done _ => Done (transition_handler h)
       | OutOfFuel => OutOfFuel
       | Undefined => Undefined
       end, tr).
Proof.
  intros H1 H2 H3 H4. unfold transitionBoth, target, getColor in *. cbn [fst snd] in *.
  destruct (F32.eqb (maxi_of h) F32.zero); [reflexivity|].
  rewrite delta_loop_4 by (assumption || reflexivity). reflexivity.
Qed.

(** ** The quotient [maxi] *)

Lemma maxi_zero_time (h : RgbLightHandler) :
  transitionTime h = 0 -> 0 < transitionRefreshInterval h < 2 ^ 32 ->
  maxi_of h = F32.zero.
Proof.
  intros HD HR. unfold maxi_of. rewrite HD.
  destruct (of_Z_pos_shape _ HR) as (m & e & -> & _). reflexivity.
Qed.

Lemma maxi_positive (h : RgbLightHandler) :
  0 < transitionTime h < 2 ^ 32 -> 0 < transitionRefreshInterval h < 2 ^ 32 ->
  exists m e,
    maxi_of h = S754_finite false m e /\
    Z.pos (digits2_pos m) = 24 /\
    e <= Zdigits2 (transitionTime h) - Zdigits2 (transitionRefreshInterval h) - 21.
Proof.
  intros HD HR. unfold maxi_of.
  destruct (of_Z_pos_shape _ HD) as (m1 & e1 & -> & Hm1 & He1).
  destruct (of_Z_pos_shape _ HR) as (m2 & e2 & -> & Hm2 & He2).
  assert (B1 : 1 <= Zdigits2 (transitionTime h) <= 32).
  { split; [apply Zdigits2_ge; simpl; lia | apply Zdigits2_le; lia]. }
  assert (B2 : 1 <= Zdigits2 (transitionRefreshInterval h) <= 32).
  { split; [apply Zdigits2_ge; simpl; lia | apply Zdigits2_le; lia]. }
  destruct (SFdiv_normal_shape false false m1 m2 e1 e2 Hm1 Hm2 ltac:(lia))
    as (m & e & E & Hm & He).
  exists m, e. repeat split; [exact E | exact Hm | lia].
Qed.

Lemma maxi_zero_interval (h : RgbLightHandler) :
  0 < transitionTime h < 2 ^ 32 -> transitionRefreshInterval h = 0 ->
  maxi_of h = S754_infinity false.
Proof.
  intros HD HR. unfold maxi_of. rewrite HR.
  destruct (of_Z_pos_shape _ HD) as (m & e & -> & _). reflexivity.
Qed.

(** The first index at which a test fails, below a bound where it fails. *)
Lemma first_index (f : Z -> bool) (b : Z) :
  0 <= b -> f b = false ->
  exists n, 0 <= n <= b /\ (forall i, 0 <= i < n -> f i = true) /\ f n = false.
Proof.
  intros Hb Hf.
  assert (H : forall k : nat,
             (forall i, 0 <= i < Z.of_nat k -> f i = true) \/
             exists n, 0 <= n < Z.of_nat k /\
                       (forall i, 0 <= i < n -> f i = true) /\ f n = false).
  { induction k as [|k [IH | (n & Hn & Hlt & Hnf)]].
    - left. intros i Hi. lia.
    - destruct (f (Z.of_nat k)) eqn:E.
      + left. intros i Hi. destruct (Z.eq_dec i (Z.of_nat k)) as [->|]; [assumption|].
        apply IH. lia.
      + right. exists (Z.of_nat k). repeat split; try lia; assumption.
    - right. exists n. repeat split; try lia; assumption. }
  destruct (H (Z.to_nat b)) as [Hall | (n & Hn & Hlt & Hnf)].
  - exists b. repeat split; try lia; [|assumption]. intros i Hi. apply Hall. lia.
  - exists n. repeat split; try lia; assumption.
Qed.

Lemma steps_of_unique (maxi : spec_float) (n n' : Z) :
  steps_of maxi n -> steps_of maxi n' -> n = n'.
Proof.
  intros (H0 & Hlt & Hge) (H0' & Hlt' & Hge').
  destruct (Z.lt_trichotomy n n') as [H | [H | H]]; [|assumption|].
  - rewrite Hlt' in Hge by lia. discriminate.
  - rewrite Hlt in Hge' by lia. discriminate.
Qed.


(** Below [2^24] the loop counts the exact quotient rounded up. *)
Lemma steps_of_ceiling (h : RgbLightHandler) :
  0 <= transitionTime h < 2 ^ 24 -> 0 < transitionRefreshInterval h < 2 ^ 24 ->
  steps_of (maxi_of h) (ceiling_steps h).
Proof.
  intros HD HR. unfold ceiling_steps.
  set (D := transitionTime h) in *. set (R := transitionRefreshInterval h) in *.
  pose proof (Z.div_mod (D + R - 1) R ltac:(lia)) as Hdm.
  pose proof (Z.mod_pos_bound (D + R - 1) R ltac:(lia)) as Hb.
  set (N := (D + R - 1) / R) in *.
  assert (HN : 0 <= N) by (apply Z.div_pos; lia).
  assert (HN1 : D <= N * R) by lia.
  assert (HN2 : (N - 1) * R < D) by lia.
  destruct (Z.eq_dec D 0) as [E0 | NE0].
  - assert (N = 0) by nia.
    rewrite (maxi_zero_time h E0 ltac:(fold R; lia)).
    repeat split; try lia. replace N with 0 by lia. reflexivity.
  - assert (HNb : N < 2 ^ 24) by nia.
    unfold maxi_of. fold D R. repeat split; [exact HN| |].
    + intros i Hi. apply ltb_of_Z_quotient; try lia. nia.
    + destruct (F32.ltb (F32.of_Z N) (F32.div (F32.of_Z D) (F32.of_Z R))) eqn:E;
        [|reflexivity].
      apply ltb_of_Z_quotient in E; lia.
Qed.

(** * The transition engine *)




Lemma eqb_zero_false_nonzero (x : spec_float) :
  F32.eqb x F32.zero = false -> forall s, x <> S754_zero s.
Proof. intros H s ->. destruct s; discriminate H. Qed.

Lemma Color_length (c : color) : Color c -> length c = NUM_COLORS.
Proof. intros [H _]. exact H. Qed.

Lemma Color_unit (c : color) : Color c -> unit_color c.
Proof. intros [_ H]. eapply Forall_impl; [exact H|]. intros x [_ Hx]. exact Hx. Qed.

(** The deltas between two Colors are numbers, whatever the quotient,
    unless the quotient is zero or NaN. *)
Lemma delta_color_not_nan (maxi : spec_float) (t f : color) :
  Color t -> Color f ->
  F32.is_nan maxi = false -> (forall s, maxi <> S754_zero s) ->
  Forall (fun x => F32.is_nan x = false) (delta_color maxi t f).
Proof.
  intros [_ Ht] [_ Hf] Hn Hz. unfold delta_color.
  eapply Forall_zip_with_2; [|exact Ht|exact Hf].
  intros x y [Vx Ux] [Vy Uy]. cbn beta.
  apply div_not_nan; [apply sub_unit_finite|..]; assumption.
Qed.

(** C5. Every pair of colors that a transition between Colors of the
    data model pushes to the sink has all its channels in [0, 1] — for
    every duration and interval, and in every prefix of the run. *)
Theorem transition_pushes_clamped (fuel : nat) (h : RgbLightHandler)
    (leftFrom rightFrom : color) :
  Color leftFrom -> Color rightFrom ->
  Color (target (patternLeft h)) -> Color (target (patternRight h)) ->
  Forall (fun p => unit_color p.1 /\ unit_color p.2)
    (pushes (snd (transitionBoth fuel h leftFrom rightFrom))).
Proof.
  intros Cl Cr Tl Tr.
  rewrite transitionBoth_eq by (apply Color_length; assumption).
  destruct (F32.eqb (maxi_of h) F32.zero) eqn:Ez; [constructor|].
  destruct (F32.is_nan (maxi_of h)) eqn:En.
  - destruct (maxi_of h); try discriminate En.
    rewrite transition_loop_done by apply ltb_nan_r. constructor.
  - pose proof (eqb_zero_false_nonzero _ Ez) as Hz.
    pose proof (transition_loop_unit fuel (transitionRefreshInterval h) (maxi_of h) 0
                  leftFrom rightFrom
                  (delta_color (maxi_of h) (target (patternLeft h)) leftFrom)
                  (delta_color (maxi_of h) (target (patternRight h)) rightFrom)
                  (Color_length _ Cl) (Color_length _ Cr)
                  (length_delta_color _ _ _ _ (Color_length _ Tl) (Color_length _ Cl))
                  (length_delta_color _ _ _ _ (Color_length _ Tr) (Color_length _ Cr))
                  (delta_color_not_nan _ _ _ Tl Cl En Hz)
                  (delta_color_not_nan _ _ _ Tr Cr En Hz)
                  (Color_unit _ Cl) (Color_unit _ Cr)) as H.
    destruct (transition_loop _ _ _ _ _ _ _ _) as [o tr]. exact H.
Qed.

Lemma Color_black : Color black.
Proof. split; [reflexivity|]. repeat constructor. Qed.

Lemma Color_white : Color white.
Proof. split; [reflexivity|]. repeat constructor. Qed.

Lemma transition_pushes_clamped_witness :
  Forall (fun p => unit_color p.1 /\ unit_color p.2)
    (pushes (snd (transitionBoth 3 (fading 10 5 white) black black))).
Proof.
  apply (transition_pushes_clamped 3 (fading 10 5 white) black black);
    first [exact Color_black | exact Color_white].
Defined.

(** C2, at an interval of zero: the quotient of a nonzero duration by
    the interval zero is the positive infinity, the guard [maxi == 0.0]
    does not fire, and the step loop pushes a pair at each of the
    [INT_MAX + 1] values of its counter, without ever returning. *)
Theorem transition_zero_interval_never_returns (fuel : nat) (h : RgbLightHandler)
    (leftFrom rightFrom : color) :
  length leftFrom = NUM_COLORS -> length rightFrom = NUM_COLORS ->
  length (target (patternLeft h)) = NUM_COLORS ->
  length (target (patternRight h)) = NUM_COLORS ->
  transitionRefreshInterval h = 0 ->
  0 < transitionTime h <= UINT_MAX ->
  maxi_of h = S754_infinity false /\
  (forall h', fst (transitionBoth fuel h leftFrom rightFrom) <> Done h') /\
  Z.of_nat (length (pushes (snd (transitionBoth fuel h leftFrom rightFrom))))
    = Z.min (Z.of_nat fuel) (INT_MAX + 1).
Proof.
  intros H1 H2 H3 H4 HR HD. unfold UINT_MAX in HD.
  pose proof (maxi_zero_interval h ltac:(lia) HR) as Em.
  split; [exact Em|].
  rewrite transitionBoth_eq by assumption. rewrite Em.
  change (F32.eqb (S754_infinity false) F32.zero) with false. cbn iota.
  pose proof (transition_loop_infinity fuel (transitionRefreshInterval h) 0
                leftFrom rightFrom
                (delta_color (S754_infinity false) (target (patternLeft h)) leftFrom)
                (delta_color (S754_infinity false) (target (patternRight h)) rightFrom)
                H1 H2 (length_delta_color _ _ _ _ H3 H1) (length_delta_color _ _ _ _ H4 H2)
                ltac:(unfold INT_MAX; lia)) as H.
  cbv zeta in H.
  destruct (transition_loop _ _ _ _ _ _ _ _) as [o tr]. cbn [fst snd] in *.
  destruct H as [Hd Hn]. split; [|lia].
  intros h'. destruct o; [exfalso; eapply Hd; reflexivity | discriminate ..].
Qed.

(** With duration and interval both zero the quotient is NaN: the guard
    does not fire either, but no index is below NaN and the loop makes no
    step. *)
Lemma transition_zero_by_zero (fuel : nat) (h : RgbLightHandler)
    (leftFrom rightFrom : color) :
  length leftFrom = NUM_COLORS -> length rightFrom = NUM_COLORS ->
  length (target (patternLeft h)) = NUM_COLORS ->
  length (target (patternRight h)) = NUM_COLORS ->
  transitionRefreshInterval h = 0 -> transitionTime h = 0 ->
  maxi_of h = S754_nan /\
  transitionBoth fuel h leftFrom rightFrom = (Done (transition_handler h), []).
Proof.
  intros H1 H2 H3 H4 HR HD.
  assert (Em : maxi_of h = S754_nan) by (unfold maxi_of; rewrite HR, HD; reflexivity).
  split; [exact Em|]. rewrite transitionBoth_eq by assumption. rewrite Em.
  change (F32.eqb S754_nan F32.zero) with false. cbn iota.
  rewrite transition_loop_done by apply ltb_nan_r. reflexivity.
Qed.

Lemma transition_zero_interval_never_returns_witness :
  maxi_of (fading 0 100 white) = S754_infinity false /\
  (forall h', fst (transitionBoth 7 (fading 0 100 white) black black) <> Done h') /\
  Z.of_nat (length (pushes (snd (transitionBoth 7 (fading 0 100 white) black black))))
    = Z.min (Z.of_nat 7) (INT_MAX + 1).
Proof.
  apply (transition_zero_interval_never_returns 7 (fading 0 100 white) black black);
    try reflexivity; cbn; unfold UINT_MAX; lia.
Defined.

Lemma eqb_zero_ltb (x : spec_float) :
  F32.eqb x F32.zero = true -> F32.ltb (F32.of_Z 0) x = false.
Proof.
  intros H. destruct x as [s|s| |s m e]; try discriminate H;
    try (destruct s; discriminate H); reflexivity.
Qed.

(** A transition whose loop counts [n] steps. *)
Lemma transitionBoth_steps (fuel : nat) (h : RgbLightHandler) (lf rf : color) (n : Z) :
  length lf = NUM_COLORS -> length rf = NUM_COLORS ->
  length (target (patternLeft h)) = NUM_COLORS ->
  length (target (patternRight h)) = NUM_COLORS ->
  steps_of (maxi_of h) n -> n <= INT_MAX -> n <= Z.of_nat fuel ->
  exists tr,
    transitionBoth fuel h lf rf = (Done (transition_handler h), tr) /\
    Z.of_nat (length (pushes tr)) = n.
Proof.
  intros L1 L2 L3 L4 Hs Hmax Hfuel. rewrite transitionBoth_eq by assumption.
  destruct (F32.eqb (maxi_of h) F32.zero) eqn:Ez.
  - exists []. split; [reflexivity|].
    assert (Hs0 : steps_of (maxi_of h) 0).
    { split; [lia|]. split; [intros i Hi; lia | apply eqb_zero_ltb, Ez]. }
    rewrite (steps_of_unique _ _ _ Hs Hs0). reflexivity.
  - destruct Hs as (Hn & Hlt & Hge).
    destruct (transition_loop_steps (Z.to_nat n) fuel (transitionRefreshInterval h)
                (maxi_of h) 0 lf rf
                (delta_color (maxi_of h) (target (patternLeft h)) lf)
                (delta_color (maxi_of h) (target (patternRight h)) rf))
      as (c & tr & E & Hlen); try assumption.
    + apply length_delta_color; assumption.
    + apply length_delta_color; assumption.
    + intros k Hk. apply Hlt. lia.
    + replace (0 + Z.of_nat (Z.to_nat n)) with n by lia. exact Hge.
    + lia.
    + lia.
    + exists tr. rewrite E. split; [reflexivity | lia].
Qed.

(** * The worker *)

Lemma sample_eq (h : RgbLightHandler) :
  sample h =
    (transition_handler h,
     {| interval := Z.min (refreshInterval (patternLeft h)) (refreshInterval (patternRight h));
        colorLeft := target (patternLeft h);
        colorRight := target (patternRight h) |},
     [SetRgbw (target (patternLeft h)) (target (patternRight h));
      Sleep (Z.min (refreshInterval (patternLeft h)) (refreshInterval (patternRight h)))]).
Proof. reflexivity. Qed.

(** What [transitionBoth] leaves of the handler: everything but the call
    counts of the two patterns. *)
Lemma transitionBoth_handler (fuel : nat) (h h' : RgbLightHandler) (lf rf : color)
    (tr : trace) :
  transitionBoth fuel h lf rf = (Done h', tr) -> h' = transition_handler h.
Proof.
  unfold transitionBoth, transition_handler, getColor. cbn [fst snd].
  destruct (F32.eqb (maxi_of h) F32.zero); [congruence|].
  destruct (delta_loop _ _ _ _ _ _ _ _ _) as [[ld rd]|]; [|discriminate].
  destruct (transition_loop _ _ _ _ _ _ _ _) as [[c| |] tr0]; congruence.
Qed.

(** An iteration without a transition is the sample alone. *)
Lemma worker_iteration_plain (fuel : nat) (h : RgbLightHandler) (w : locals) :
  patternsChanged h && transitionsEnabled h = false ->
  worker_iteration fuel h w =
    (Done (fst (fst (sample h)), snd (fst (sample h))), snd (sample h)).
Proof. intros E. unfold worker_iteration. rewrite E. reflexivity. Qed.

(** An iteration that returns ends with the sample of the handler the
    transition, if any, has left. *)
Lemma worker_iteration_done (fuel : nat) (h h' : RgbLightHandler) (w w' : locals)
    (tr : trace) :
  worker_iteration fuel h w = (Done (h', w'), tr) ->
  exists h1 tr1,
    (h1 = h /\ tr1 = [] /\ patternsChanged h && transitionsEnabled h = false \/
     h1 = set_patternsChanged false (transition_handler h) /\
     patternsChanged h && transitionsEnabled h = true /\
     transitionBoth fuel h (colorLeft w) (colorRight w) = (Done (transition_handler h), tr1)) /\
    h' = fst (fst (sample h1)) /\ w' = snd (fst (sample h1)) /\
    tr = tr1 ++ snd (sample h1).
Proof.
  unfold worker_iteration.
  destruct (patternsChanged h && transitionsEnabled h) eqn:E.
  - destruct (transitionBoth fuel h (colorLeft w) (colorRight w)) as [[h1| |] tr1] eqn:Et;
      try discriminate.
    pose proof (transitionBoth_handler _ _ _ _ _ _ Et) as ->.
    rewrite sample_eq. intros [= <- <- <-].
    exists (set_patternsChanged false (transition_handler h)), tr1.
    split; [right; auto|]. rewrite sample_eq. auto.
  - rewrite sample_eq. intros [= <- <- <-]. exists h, [].
    split; [left; auto|]. rewrite sample_eq. auto.
Qed.

(** C3 (as amended). With transitions disabled an iteration always
    returns and leaves [patternsChanged] as it found it: a set flag stays
    set. The flag is cleared only with transitions enabled, when
    [transitionBoth] has returned. *)
Theorem worker_flag (fuel : nat) (h : RgbLightHandler) (w : locals) :
  (transitionsEnabled h = false ->
   exists h' w' tr,
     worker_iteration fuel h w = (Done (h', w'), tr) /\
     patternsChanged h' = patternsChanged h) /\
  (forall h' w' tr,
     worker_iteration fuel h w = (Done (h', w'), tr) ->
     patternsChanged h' = patternsChanged h && negb (transitionsEnabled h)).
Proof.
  split.
  - intros E. rewrite worker_iteration_plain by (rewrite E; apply andb_false_r).
    do 3 eexists. split; reflexivity.
  - intros h' w' tr H.
    destruct (worker_iteration_done _ _ _ _ _ _ H)
      as (h1 & tr1 & [(-> & _ & E) | (-> & E & _)] & -> & _ & _); rewrite sample_eq; cbn.
    + destruct (patternsChanged h), (transitionsEnabled h); try reflexivity; discriminate E.
    + destruct (patternsChanged h), (transitionsEnabled h); try reflexivity; discriminate E.
Qed.


Lemma worker_flag_witness :
  exists h' w' tr,
    worker_iteration 0 (snapping half_red) worker_locals = (Done (h', w'), tr) /\
    patternsChanged h' = patternsChanged (snapping half_red).
Proof.
  apply (proj1 (worker_flag 0 (snapping half_red) worker_locals)). reflexivity.
Defined.

(** C3 (as stated) fails: after a replacement on a handler built with
    transitions disabled the flag is set, and the next iteration of the
    loop returns with the flag still set. *)
Lemma worker_flag_not_cleared :
  patternsChanged (snapping half_red) = true /\
  transitionsEnabled (snapping half_red) = false /\
  exists h' w' tr,
    worker_iteration 0 (snapping half_red) worker_locals = (Done (h', w'), tr) /\
    patternsChanged h' = true.
Proof.
  split; [reflexivity|]. split; [reflexivity|].
  do 3 eexists. split; reflexivity.
Qed.

(** C6. Every iteration of the loop that comes to its end sleeps there
    the minimum of the refresh intervals of the two installed patterns,
    and the local [interval] holds that minimum. An iteration without a
    transition always comes to its end, with the sample and that sleep
    as its only events. An iteration with a transition comes to its end
    whenever the transition returns, which it does on colors of
    [NUM_COLORS] channels with a quotient that does not exceed [2^31]:
    after the steps of the transition come the sample and that sleep. *)
Theorem worker_sleep_interval (fuel : nat) (h : RgbLightHandler) (w : locals) :
  let ms := Z.min (refreshInterval (patternLeft h)) (refreshInterval (patternRight h)) in
  (patternsChanged h && transitionsEnabled h = false ->
   exists h' w',
     worker_iteration fuel h w =
       (Done (h', w'), [SetRgbw (colorLeft w') (colorRight w'); Sleep ms]) /\
     interval w' = ms) /\
  (patternsChanged h && transitionsEnabled h = true ->
   length (colorLeft w) = NUM_COLORS -> length (colorRight w) = NUM_COLORS ->
   length (target (patternLeft h)) = NUM_COLORS ->
   length (target (patternRight h)) = NUM_COLORS ->
   F32.ltb (F32.of_Z INT_MAX) (maxi_of h) = false ->
   exists n,
     steps_of (maxi_of h) n /\
     forall fuel', n <= Z.of_nat fuel' ->
       exists h' w' tr,
         worker_iteration fuel' h w =
           (Done (h', w'), tr ++ [SetRgbw (colorLeft w') (colorRight w'); Sleep ms]) /\
         Z.of_nat (length (pushes tr)) = n /\
         interval w' = ms) /\
  (forall h' w' tr,
     worker_iteration fuel h w = (Done (h', w'), tr) ->
     last tr = Some (Sleep ms) /\
     interval w' = ms /\
     refreshInterval (patternLeft h') = refreshInterval (patternLeft h) /\
     refreshInterval (patternRight h') = refreshInterval (patternRight h)).
Proof.
  cbv zeta. split; [|split].
  - intros E. rewrite worker_iteration_plain by assumption. rewrite sample_eq.
    cbn [fst snd]. eexists _, (Build_locals _ _ _). split; reflexivity.
  - intros E L1 L2 L3 L4 Hm.
    destruct (first_index (fun i => F32.ltb (F32.of_Z i) (maxi_of h)) INT_MAX
                ltac:(unfold INT_MAX; lia) Hm) as (n & Hn & Hlt & Hge).
    exists n. split; [split; [lia|split; assumption]|].
    intros fuel' Hfuel.
    destruct (transitionBoth_steps fuel' h (colorLeft w) (colorRight w) n L1 L2 L3 L4)
      as (tr & Et & Hlen); try lia.
    { split; [lia|]. split; assumption. }
    unfold worker_iteration. rewrite E, Et, sample_eq.
    eexists _, (Build_locals _ _ _), tr.
    split; [reflexivity|]. split; [exact Hlen | reflexivity].
  - intros h' w' tr H.
    destruct (worker_iteration_done _ _ _ _ _ _ H)
      as (h1 & tr1 & [(-> & _ & E) | (-> & E & _)] & -> & -> & ->); rewrite sample_eq;
      cbn [fst snd]; rewrite last_app; cbn; auto.
Qed.

Lemma worker_sleep_interval_witness :
  (exists h' w',
     worker_iteration 0 (snapping half_red) worker_locals =
       (Done (h', w'),
        [SetRgbw (colorLeft w') (colorRight w');
         Sleep (Z.min (refreshInterval (patternLeft (snapping half_red)))
                      (refreshInterval (patternRight (snapping half_red))))]) /\
     interval w' =
       Z.min (refreshInterval (patternLeft (snapping half_red)))
             (refreshInterval (patternRight (snapping half_red)))) /\
  (exists n,
     steps_of (maxi_of (fading 10 15 white)) n /\
     forall fuel', n <= Z.of_nat fuel' ->
       exists h' w' tr,
         worker_iteration fuel' (fading 10 15 white) worker_locals =
           (Done (h', w'),
            tr ++ [SetRgbw (colorLeft w') (colorRight w');
                   Sleep (Z.min (refreshInterval (patternLeft (fading 10 15 white)))
                                (refreshInterval (patternRight (fading 10 15 white))))]) /\
         Z.of_nat (length (pushes tr)) = n /\
         interval w' =
           Z.min (refreshInterval (patternLeft (fading 10 15 white)))
                 (refreshInterval (patternRight (fading 10 15 white)))).
Proof.
  split.
  - apply (proj1 (worker_sleep_interval 0 (snapping half_red) worker_locals)). reflexivity.
  - apply (proj1 (proj2 (worker_sleep_interval 0 (fading 10 15 white) worker_locals)));
      reflexivity.
Defined.

(** C7. On a handler with transitions disabled, after
    [setPatternLeft(RgbLightConstant([0.5, 0, 0, 0]))] the next iteration
    of the loop returns and pushes exactly one pair, whose left color is
    [[0.5, 0, 0, 0]]. *)
Theorem snap_to_new_pattern (fuel : nat) (h : RgbLightHandler) (w : locals)
    (refresh : Z) :
  transitionsEnabled h = false ->
  exists h' w',
    worker_iteration fuel (setPatternLeft (RgbLightConstant refresh half_red) h) w =
      (Done (h', w'),
       [SetRgbw half_red (target (patternRight h));
        Sleep (Z.min refresh (refreshInterval (patternRight h)))]) /\
    colorLeft w' = half_red.
Proof.
  intros E. rewrite worker_iteration_plain by (cbn; rewrite E; reflexivity).
  do 2 eexists. split; reflexivity.
Qed.

Lemma snap_to_new_pattern_witness :
  exists h' w',
    worker_iteration 0
      (setPatternLeft (RgbLightConstant 20 half_red)
         (fst (worker_start (new_RgbLightHandler junk 20 black)))) worker_locals =
      (Done (h', w'),
       [SetRgbw half_red
          (target (patternRight (fst (worker_start (new_RgbLightHandler junk 20 black)))));
        Sleep (Z.min 20
                 (refreshInterval
                    (patternRight (fst (worker_start (new_RgbLightHandler junk 20 black))))))]) /\
    colorLeft w' = half_red.
Proof.
  apply (snap_to_new_pattern 0 (fst (worker_start (new_RgbLightHandler junk 20 black)))
           worker_locals 20).
  reflexivity.
Defined.

Lemma transitionBoth_fuel_mono (fuel fuel' : nat) (h h' : RgbLightHandler) (lf rf : color)
    (tr : trace) :
  transitionBoth fuel h lf rf = (Done h', tr) ->
  (fuel <= fuel')%nat ->
  transitionBoth fuel' h lf rf = (Done h', tr).
Proof.
  unfold transitionBoth. cbn [getColor].
  destruct (F32.eqb (maxi_of h) F32.zero); [auto|].
  destruct (delta_loop _ _ _ _ _ _ _ _ _) as [[ld rd]|]; [|discriminate].
  destruct (transition_loop fuel _ _ _ _ _ _ _) as [[c| |] tr0] eqn:E; try discriminate.
  intros H Hle. rewrite (transition_loop_fuel_mono _ fuel' _ _ _ _ _ _ _ _ _ E Hle).
  exact H.
Qed.


(** The ten steps of the fade from black to white, once the quotient
    and the targets are known. *)
Lemma fade_loop :
  exists c tr,
    transition_loop 10 10 (F32.div (F32.of_Z 100) (F32.of_Z 10)) 0 black black
      (delta_color (F32.div (F32.of_Z 100) (F32.of_Z 10)) white black)
      (delta_color (F32.div (F32.of_Z 100) (F32.of_Z 10)) white black) = (Done c, tr) /\
    length (pushes tr) = 10%nat /\
    (forall k p, pushes tr !! k = Some p -> fade_step_ok k p = true) /\
    last (pushes tr) = Some (white, white).
Proof.
  do 2 eexists. split; [vm_compute; reflexivity|].
  split; [reflexivity|]. split; [|reflexivity].
  intros k p Hk.
  do 10 (destruct k as [|k]; [injection Hk as <-; vm_compute; reflexivity|]).
  discriminate Hk.
Qed.

(** C4. On a handler with transitions enabled, interval 10 ms and
    duration 100 ms, whose last displayed colors are [[0,0,0,0]] (as
    they are from the start, and after every sample of the default color
    [[0,0,0,0]]): after [setPatterns(RgbLightConstant([1,1,1,1]))] the
    transition of the next iteration returns after pushing exactly 10
    pairs; every channel of the [k]-th pair is within [2^-23] of [k/10];
    the last pair is [[1,1,1,1]] on both sides; the iteration then
    pushes the sample of the new patterns. *)
Theorem fade_black_to_white (fuel : nat) (h : RgbLightHandler) (w : locals)
    (refresh' : Z) :
  (10 <= fuel)%nat ->
  transitionsEnabled h = true ->
  transitionRefreshInterval h = 10 -> transitionTime h = 100 ->
  colorLeft w = black -> colorRight w = black ->
  let h1 := setPatterns (RgbLightConstant refresh' white) h in
  exists tr,
    transitionBoth fuel h1 (colorLeft w) (colorRight w)
      = (Done (transition_handler h1), tr) /\
    length (pushes tr) = 10%nat /\
    (forall k p, pushes tr !! k = Some p -> fade_step_ok k p = true) /\
    last (pushes tr) = Some (white, white) /\
    exists h' w',
      worker_iteration fuel h1 w =
        (Done (h', w'), tr ++ [SetRgbw white white; Sleep (Z.min refresh' refresh')]).
Proof.
  intros Hfuel He HR HD Hl Hr h1. rewrite Hl, Hr.
  destruct fade_loop as (c & tr & E & Hlen & Hok & Hlast).
  assert (Em : maxi_of h1 = F32.div (F32.of_Z 100) (F32.of_Z 10))
    by (unfold maxi_of, h1; cbn; rewrite HR, HD; reflexivity).
  assert (Et : transitionBoth fuel h1 black black = (Done (transition_handler h1), tr)).
  { rewrite transitionBoth_eq by reflexivity. rewrite Em.
    change (F32.eqb (F32.div (F32.of_Z 100) (F32.of_Z 10)) F32.zero) with false.
    cbn iota.
    replace (transitionRefreshInterval h1) with 10 by (unfold h1; cbn; congruence).
    change (target (patternLeft h1)) with white.
    change (target (patternRight h1)) with white.
    rewrite (transition_loop_fuel_mono 10 fuel _ _ _ _ _ _ _ _ _ E Hfuel). reflexivity. }
  exists tr. repeat split; try assumption.
  unfold worker_iteration.
  replace (patternsChanged h1 && transitionsEnabled h1) with true
    by (unfold h1; cbn; rewrite He; reflexivity).
  rewrite Hl, Hr, Et, sample_eq. do 2 eexists. reflexivity.
Qed.

Lemma fade_black_to_white_witness :
  let h1 := setPatterns (RgbLightConstant 20 white)
              (fst (worker_start (new_RgbLightHandler_transitions junk 20 black 10 100))) in
  exists tr,
    transitionBoth 10 h1 (colorLeft worker_locals) (colorRight worker_locals)
      = (Done (transition_handler h1), tr) /\
    length (pushes tr) = 10%nat /\
    (forall k p, pushes tr !! k = Some p -> fade_step_ok k p = true) /\
    last (pushes tr) = Some (white, white) /\
    exists h' w',
      worker_iteration 10 h1 worker_locals =
        (Done (h', w'), tr ++ [SetRgbw white white; Sleep (Z.min 20 20)]).
Proof.
  apply (fade_black_to_white 10
           (fst (worker_start (new_RgbLightHandler_transitions junk 20 black 10 100)))
           worker_locals 20); solve [reflexivity | lia].
Defined.

Lemma transition_loop_first (fuel : nat) (refresh : Z) (maxi : spec_float)
    (lf rf ld rd : color) :
  length lf = NUM_COLORS -> length rf = NUM_COLORS ->
  length ld = NUM_COLORS -> length rd = NUM_COLORS ->
  F32.ltb (F32.of_Z 0) maxi = true ->
  head (pushes (snd (transition_loop (S fuel) refresh maxi 0 lf rf ld rd)))
    = Some (step_color lf ld, step_color rf rd).
Proof.
  intros L1 L2 L3 L4 El. rewrite transition_loop_S, El, color_loop_4 by assumption.
  change (0 =? INT_MAX) with false. cbv iota.
  destruct (transition_loop fuel _ _ _ _ _ _ _) as [o tr]. reflexivity.
Qed.





(** With default color [[1,1,1,1]] and a new pattern of the same color,
    a transition before the first sample still starts from black: its
    first pair is a tenth of the way. *)
Lemma first_transition_ignores_default :
  let h := setPatterns (RgbLightConstant 20 white)
             (fst (worker_start (new_RgbLightHandler_transitions junk 20 white 10 100))) in
  exists p,
    head (pushes (snd (worker_iteration 10 h worker_locals))) = Some p /\
    fade_step_ok 0 p = true.
Proof. eexists. split; vm_compute; reflexivity. Qed.

(** * The pattern lock *)

Section LockFacts.
Import Locking.

Lemma lock_invariant_initial (h : RgbLightHandler) : lock_invariant (initial h).
Proof.
  split; cbn.
  - split; discriminate.
  - intros k c H. discriminate H.
Qed.

Lemma transition_enter_critical (h h' : RgbLightHandler) (lf rf : color) (pc : worker_pc) :
  transition_enter h lf rf = (h', pc) -> critical pc = true.
Proof.
  unfold transition_enter. cbn [getColor].
  destruct (F32.eqb _ _); [intros [= <- <-]; reflexivity|].
  destruct (delta_loop _ _ _ _ _ _ _ _ _) as [[ld rd]|]; intros [= <- <-]; reflexivity.
Qed.

Lemma lock_invariant_step (s s' : system) :
  lock_invariant s -> step s s' -> lock_invariant s'.
Proof.
  intros [Hw Hc] Hstep. unfold lock_invariant in *.
  destruct Hstep; cbn [wpc mutex callers critical] in *.
  all: try (split; [exact Hw || (split; [reflexivity|]; intros _; apply Hw; reflexivity)
                         || (split; intros; [apply Hw|]; reflexivity) | exact Hc]).
  all: try (split; [split; reflexivity|exact Hc]).
  - (* the worker takes the lock *)
    split; [split; reflexivity|]. intros k c H. specialize (Hc k c H). discriminate Hc.
  - (* the worker enters transitionBoth *)
    split; [|exact Hc]. split; [intros _; apply Hw; reflexivity|intros _].
    eapply transition_enter_critical; eassumption.
  - (* the worker releases the lock *)
    split; [split; discriminate|]. intros k c H. specialize (Hc k c H).
    rewrite (proj1 Hw eq_refl) in Hc. discriminate Hc.
  - (* a thread enters a call *)
    split; [exact Hw|]. intros k c' H. apply Hc with c'.
    apply lookup_app_Some in H. destruct H as [H | [_ H]]; [exact H|].
    destruct (k - length cs)%nat as [|n]; cbn in H; discriminate H.
  - (* a caller takes the lock *)
    split.
    + split; [intros E; apply Hw in E; discriminate E | discriminate].
    + intros k' c' H'. destruct (decide (k' = k)) as [->|Hne]; [reflexivity|].
      rewrite list_lookup_insert_ne in H' by congruence.
      specialize (Hc k' c' H'). discriminate Hc.
  - (* a caller releases the lock *)
    specialize (Hc k c H) as Hm. split.
    + split; [intros E; apply Hw in E; congruence | discriminate].
    + intros k' c' H'. destruct (decide (k' = k)) as [->|Hne].
      * apply lookup_lt_Some in H. rewrite list_lookup_insert_eq in H' by exact H.
        discriminate H'.
      * rewrite list_lookup_insert_ne in H' by congruence.
        specialize (Hc k' c' H'). congruence.
Qed.

Lemma maxi_of_apply_call (c : call) (h : RgbLightHandler) :
  maxi_of (apply_call c h) = maxi_of h.
Proof. destruct c; reflexivity. Qed.

Lemma loop_invariant_step (s s' : system) :
  loop_invariant s -> step s s' -> loop_invariant s'.
Proof.
  intros Hinv Hstep. unfold loop_invariant in *.
  destruct Hstep; cbn [wpc handler] in *; try exact I; try exact Hinv.
  - (* the worker enters transitionBoth *)
    unfold transition_enter in H0. cbn [getColor] in H0.
    destruct (F32.eqb _ _); [injection H0 as <- <-; exact I|].
    destruct (delta_loop _ _ _ _ _ _ _ _ _) as [[ld rd]|]; injection H0 as <- <-;
      [|exact I].
    split; [reflexivity|]. split; [lia|]. intros k Hk. lia.
  - (* a step of the loop *)
    destruct Hinv as (Hm & Hi & Hlt). split; [exact Hm|]. split; [lia|].
    intros k Hk. destruct (Z.eq_dec k i) as [->|]; [assumption | apply Hlt; lia].
  - (* a caller releases the lock *)
    destruct pc; try exact I. rewrite maxi_of_apply_call. exact Hinv.
Qed.

Lemma invariants_reachable (h : RgbLightHandler) (s : system) :
  reachable h s -> lock_invariant s /\ loop_invariant s.
Proof.
  unfold reachable. intros H. apply rtc_nsteps in H. destruct H as [n H].
  revert s H. induction n as [|n IH]; intros s H.
  - inversion H; subst. split; [apply lock_invariant_initial | exact I].
  - apply nsteps_inv_r in H. destruct H as (s0 & H0 & Hs).
    destruct (IH s0 H0) as [I1 I2].
    split; [eapply lock_invariant_step | eapply loop_invariant_step]; eassumption.
Qed.

(** One step taken while the worker is inside a transition: the lock
    stays with the worker, no pattern is replaced, waiting callers keep
    waiting, and the transition goes on with the same quotient and
    deltas, one sleep further, or ends. *)
Lemma transition_step_blocks (s s' : system) :
  lock_invariant s -> in_transition (wpc s) = true -> step s s' ->
  mutex s' = Some Worker /\
  untouched (handler s) (handler s') /\
  (forall k c, callers s !! k = Some (AtLock c) -> callers s' !! k = Some (AtLock c)) /\
  (forall k c, callers s' !! k <> Some (InCritical c)) /\
  same_transition (wpc s) (wpc s') /\
  slept_per_step s s'.
Proof.
  intros Hinv Hin Hstep.
  pose proof (lock_invariant_step s s' Hinv Hstep) as Hinv'.
  destruct Hinv as [Hw Hc].
  assert (Hm : mutex s = Some Worker)
    by (apply Hw; destruct (wpc s); try discriminate Hin; reflexivity).
  assert (Hgoal : mutex s' = Some Worker ->
                  untouched (handler s) (handler s') ->
                  (forall k c, callers s !! k = Some (AtLock c) ->
                               callers s' !! k = Some (AtLock c)) ->
                  same_transition (wpc s) (wpc s') ->
                  slept_per_step s s' ->
                  mutex s' = Some Worker /\
                  untouched (handler s) (handler s') /\
                  (forall k c, callers s !! k = Some (AtLock c) ->
                               callers s' !! k = Some (AtLock c)) /\
                  (forall k c, callers s' !! k <> Some (InCritical c)) /\
                  same_transition (wpc s) (wpc s') /\
                  slept_per_step s s').
  { intros G1 G2 G3 G4 G5. repeat split; try assumption; try apply G2.
    intros k c H. apply (proj2 Hinv') in H. congruence. }
  unfold slept_per_step in *.
  destruct Hstep; cbn [wpc mutex callers handler sink in_transition] in *;
    try discriminate Hin; try discriminate Hm.
  - (* a step of the loop *)
    apply Hgoal; [assumption | repeat split | auto | cbn; repeat split; lia |].
    unfold slept. rewrite foldr_app. cbn [foldr].
    fold (slept tr).
    assert (E : forall t l, foldr (fun e t => match e with
                                              | Sleep ms => ms + t
                                              | SetRgbw _ _ => t
                                              end) t l = slept l + t).
    { intros t l. induction l as [|[] l IH]; cbn; unfold slept in *; cbn; lia. }
    rewrite E. lia.
  - (* the counter overflows *)
    apply Hgoal; [assumption | repeat split | auto | exact I | exact I].
  - (* a vector is too short *)
    apply Hgoal; [assumption | repeat split | auto | exact I | exact I].
  - (* the loop ends *)
    apply Hgoal; [assumption | repeat split | auto | exact I | exact I].
  - (* a thread enters a call *)
    apply Hgoal; [assumption | repeat split | | | ].
    + intros k c' H. apply lookup_app_l_Some. exact H.
    + destruct pc; try discriminate Hin. cbn. repeat split; lia.
    + destruct pc; try discriminate Hin. lia.
  - (* a caller leaves its critical section: it holds no lock *)
    specialize (Hc k c H). congruence.
  - (* stop() of another thread *)
    apply Hgoal; [assumption | repeat split | auto | | ].
    + destruct pc; try discriminate Hin. cbn. repeat split; lia.
    + destruct pc; try discriminate Hin. lia.
Qed.

Lemma untouched_trans (h1 h2 h3 : RgbLightHandler) :
  untouched h1 h2 -> untouched h2 h3 -> untouched h1 h3.
Proof.
  unfold untouched. intros (A & B & C & D & E) (A' & B' & C' & D' & E').
  repeat split; congruence.
Qed.

Lemma same_transition_trans (p1 p2 p3 : worker_pc) :
  in_transition p2 = true ->
  same_transition p1 p2 -> same_transition p2 p3 -> same_transition p1 p3.
Proof.
  destruct p1; try contradiction; destruct p2; try discriminate; destruct p3;
    try contradiction; cbn; auto.
  intros _ (A & B & C & D) (A' & B' & C' & D'). repeat split; try congruence. lia.
Qed.

Lemma slept_per_step_trans (s1 s2 s3 : system) :
  in_transition (wpc s1) = true -> in_transition (wpc s2) = true ->
  untouched (handler s1) (handler s2) ->
  slept_per_step s1 s2 -> slept_per_step s2 s3 -> slept_per_step s1 s3.
Proof.
  unfold slept_per_step. intros H1 H2 (_ & _ & _ & HR & _).
  destruct (wpc s1); try discriminate H1. destruct (wpc s2); try discriminate H2.
  destruct (wpc s3); auto. rewrite HR. intros A B. lia.
Qed.

(** The index of a transition in progress never passes the number of
    steps. *)
Lemma loop_index_bound (s : system) (n : Z) :
  loop_invariant s -> steps_of (maxi_of (handler s)) n ->
  match wpc s with
  | InTransition i _ _ _ _ _ => 0 <= i <= n
  | _ => True
  end.
Proof.
  unfold loop_invariant. destruct (wpc s); auto.
  intros (-> & Hi & Hlt) (Hn & _ & Hge). split; [exact Hi|].
  destruct (Z_le_gt_dec i n) as [|Hgt]; [assumption|exfalso].
  rewrite Hlt in Hge by lia. discriminate Hge.
Qed.
End LockFacts.

Section LockTheorem.
Import Locking.

Lemma during_transition_reachable (h : RgbLightHandler) (s s' : system) :
  reachable h s -> rtc during_transition s s' -> reachable h s'.
Proof.
  unfold reachable. intros Hs Hrtc. etransitivity; [exact Hs|].
  clear Hs. induction Hrtc as [|s s1 s' [_ Hstep] _ IH]; [apply rtc_refl|].
  eapply rtc_l; eassumption.
Qed.

(** C9 (as amended). From the moment the worker is inside a transition
    until the transition has ended, the worker holds the pattern lock:
    however the threads interleave, no replacement is applied (the
    patterns and the flag stay as they are), every caller that waits for
    the lock keeps waiting, and the transition runs on with the quotient
    and the deltas it started with. Meanwhile the worker sleeps one
    refresh interval per step; for an interval [R > 0] and a duration
    [D], both below [2^24], the steps are at most [D / R] rounded up. *)
Theorem replacement_waits_for_transition (h0 : RgbLightHandler) (s s' : system) :
  reachable h0 s ->
  in_transition (wpc s) = true ->
  rtc during_transition s s' ->
  mutex s' = Some Worker /\
  untouched (handler s) (handler s') /\
  (forall k c, callers s !! k = Some (AtLock c) -> callers s' !! k = Some (AtLock c)) /\
  (forall k c, callers s' !! k <> Some (InCritical c)) /\
  same_transition (wpc s) (wpc s') /\
  slept_per_step s s' /\
  (0 < transitionRefreshInterval (handler s) < 2 ^ 24 ->
   0 <= transitionTime (handler s) < 2 ^ 24 ->
   match wpc s' with
   | InTransition i' _ _ _ _ _ => 0 <= i' <= ceiling_steps (handler s)
   | _ => True
   end).
Proof.
  intros Hreach Hin Hrtc.
  pose proof (during_transition_reachable h0 s s' Hreach Hrtc) as Hreach'.
  destruct (invariants_reachable h0 s' Hreach') as [_ Hloop'].
  destruct (invariants_reachable h0 s Hreach) as [Hinv _]. clear Hreach Hreach'.
  assert (H : mutex s' = Some Worker /\
              untouched (handler s) (handler s') /\
              (forall k c, callers s !! k = Some (AtLock c) ->
                           callers s' !! k = Some (AtLock c)) /\
              (forall k c, callers s' !! k <> Some (InCritical c)) /\
              same_transition (wpc s) (wpc s') /\
              slept_per_step s s').
  { clear Hloop'. induction Hrtc as [s | s s1 s' [_ Hstep] Hrtc IH].
    - destruct Hinv as [Hw Hc].
      assert (Hm : mutex s = Some Worker)
        by (apply Hw; destruct (wpc s); try discriminate Hin; reflexivity).
      split; [exact Hm|]. split; [repeat split|]. split; [auto|]. split; [|split].
      + intros k c H. apply Hc in H. congruence.
      + destruct (wpc s); try discriminate Hin. cbn. repeat split; lia.
      + unfold slept_per_step. destruct (wpc s); try discriminate Hin. lia.
    - pose proof (transition_step_blocks s s1 Hinv Hin Hstep)
        as (M1 & P1 & W1 & C1 & T1 & S1).
      pose proof (lock_invariant_step s s1 Hinv Hstep) as Hinv1.
      destruct (in_transition (wpc s1)) eqn:Hin1.
      + destruct (IH eq_refl Hinv1) as (M2 & P2 & W2 & C2 & T2 & S2).
        split; [exact M2|]. split; [exact (untouched_trans _ _ _ P1 P2)|].
        split; [intros k c H; apply W2, W1, H|]. split; [exact C2|]. split.
        * eapply same_transition_trans; eassumption.
        * eapply slept_per_step_trans; eassumption.
      + inversion Hrtc as [|? ? ? [Hin1' _] _]; subst.
        * repeat split; try assumption; apply P1.
        * rewrite Hin1 in Hin1'. discriminate Hin1'. }
  destruct H as (M & P & W & C & T & S).
  repeat split; try assumption; try apply P.
  intros HR HD. destruct P as (_ & _ & _ & ER & ED).
  assert (Hs : steps_of (maxi_of (handler s')) (ceiling_steps (handler s)))
    by (unfold maxi_of, ceiling_steps; rewrite ER, ED; apply steps_of_ceiling; assumption).
  exact (loop_index_bound s' _ Hloop' Hs).
Qed.

Lemma entered_reachable (refresh time : Z) :
  F32.eqb (F32.div (F32.of_Z time) (F32.of_Z refresh)) F32.zero = false ->
  reachable (scenario_handler refresh time) (entered refresh time).
Proof.
  intros E. unfold reachable.
  eapply rtc_l; [apply step_loop_enter; reflexivity|].
  eapply rtc_l; [apply step_worker_lock|].
  eapply rtc_l;
    [eapply step_check_enter;
     [reflexivity | unfold transition_enter; cbn [getColor]; unfold maxi_of; cbn; rewrite E;
                    reflexivity]|].
  eapply rtc_l; [apply (step_call _ _ _ _ _ _ waiting_call)|].
  unfold entered, transition_enter. cbn [getColor]. unfold maxi_of. cbn. rewrite E.
  apply rtc_refl.
Qed.

Lemma replacement_waits_for_transition_witness :
  mutex (loop_step (entered 10 100)) = Some Worker /\
  untouched (handler (entered 10 100)) (handler (loop_step (entered 10 100))) /\
  (forall k c, callers (entered 10 100) !! k = Some (AtLock c) ->
               callers (loop_step (entered 10 100)) !! k = Some (AtLock c)) /\
  (forall k c, callers (loop_step (entered 10 100)) !! k <> Some (InCritical c)) /\
  same_transition (wpc (entered 10 100)) (wpc (loop_step (entered 10 100))) /\
  slept_per_step (entered 10 100) (loop_step (entered 10 100)) /\
  (0 < transitionRefreshInterval (handler (entered 10 100)) < 2 ^ 24 ->
   0 <= transitionTime (handler (entered 10 100)) < 2 ^ 24 ->
   match wpc (loop_step (entered 10 100)) with
   | InTransition i' _ _ _ _ _ => 0 <= i' <= ceiling_steps (handler (entered 10 100))
   | _ => True
   end).
Proof.
  apply (replacement_waits_for_transition (scenario_handler 10 100) (entered 10 100)
           (loop_step (entered 10 100))).
  - apply entered_reachable. reflexivity.
  - reflexivity.
  - eapply rtc_l; [|apply rtc_refl]. split; [reflexivity|]. vm_compute.
    eapply step_transition_iter; [reflexivity | reflexivity | discriminate].
Defined.

(** C9 (as stated) fails in its bound: with a duration of 15 ms and an
    interval of 10 ms, a caller that waits at the lock when the
    transition starts still waits after the worker has slept 20 ms with
    the lock held. *)
Lemma lock_held_beyond_duration :
  reachable (scenario_handler 10 15) (entered 10 15) /\
  in_transition (wpc (entered 10 15)) = true /\
  rtc during_transition (entered 10 15) (loop_step (loop_step (entered 10 15))) /\
  callers (loop_step (loop_step (entered 10 15))) !! 0%nat = Some (AtLock waiting_call) /\
  mutex (loop_step (loop_step (entered 10 15))) = Some Worker /\
  slept (sink (loop_step (loop_step (entered 10 15)))) - slept (sink (entered 10 15)) = 20 /\
  transitionTime (handler (entered 10 15)) = 15.
Proof.
  split; [apply entered_reachable; reflexivity|]. split; [reflexivity|].
  split; [|repeat split].
  eapply rtc_l.
  { split; [reflexivity|]. vm_compute.
    eapply step_transition_iter; [reflexivity | reflexivity | discriminate]. }
  eapply rtc_l; [|apply rtc_refl].
  split; [reflexivity|]. vm_compute.
  eapply step_transition_iter; [reflexivity | reflexivity | discriminate].
Qed.
End LockTheorem.

Section WorkerRuns.
Import Locking.

(** The step loop of the threads' model, left alone, is the loop of
    [transitionBoth]. *)
Lemma transition_loop_run (fuel : nat) :
  forall h m w cs tr i maxi lf rf ld rd c tr',
    transition_loop fuel (transitionRefreshInterval h) maxi i lf rf ld rd = (Done c, tr') ->
    rtc step (System h m (InTransition i maxi lf rf ld rd) w cs tr)
             (System h m Clear w cs (tr ++ tr')).
Proof.
  induction fuel as [|fuel IH]; intros h m w cs tr i maxi lf rf ld rd c tr' E.
  - rewrite transition_loop_O in E.
    destruct (F32.ltb (F32.of_Z i) maxi) eqn:El; [discriminate|].
    injection E as _ <-. rewrite app_nil_r.
    apply rtc_once, step_transition_done, El.
  - rewrite transition_loop_S in E.
    destruct (F32.ltb (F32.of_Z i) maxi) eqn:El.
    + destruct (color_loop NUM_COLORS 0 lf rf ld rd) as [[lf' rf']|] eqn:Ec;
        [|discriminate].
      destruct (i =? INT_MAX) eqn:Ei; [discriminate|]. apply Z.eqb_neq in Ei.
      destruct (transition_loop fuel _ maxi (i + 1) lf' rf' ld rd) as [o tr0] eqn:E0.
      injection E as -> <-.
      eapply rtc_l; [apply step_transition_iter; eassumption|].
      pose proof (IH h m w cs (tr ++ [SetRgbw lf' rf'; Sleep (transitionRefreshInterval h)])
                    _ _ _ _ _ _ _ _ E0) as H.
      rewrite <- app_assoc in H. exact H.
    + injection E as _ <-. rewrite app_nil_r.
      apply rtc_once, step_transition_done, El.
Qed.

(** Every iteration of the worker that returns is a run of the worker
    thread of the threads' model, from the loop test back to the loop
    test, through the lock. *)
Lemma worker_iteration_run (fuel : nat) (h h' : RgbLightHandler) (w w' : locals)
    (cs : list caller_pc) (tr tr' : trace) :
  isRunning h = true ->
  worker_iteration fuel h w = (Done (h', w'), tr') ->
  rtc step (System h None LoopTest w cs tr) (System h' None LoopTest w' cs (tr ++ tr')).
Proof.
  intros Hrun E.
  eapply rtc_l; [apply step_loop_enter; exact Hrun|].
  eapply rtc_l; [apply step_worker_lock|].
  assert (Hsample : forall g t,
            rtc step (System g (Some Worker) Sample w cs t)
              (System (fst (fst (sample g))) None LoopTest (snd (fst (sample g))) cs
                 (t ++ snd (sample g)))).
  { intros g t.
    eapply rtc_l; [apply (step_sample g _ w cs t _ _ _ (sample_eq g))|].
    eapply rtc_l; [apply step_unlock|].
    eapply rtc_l; [apply step_push|].
    eapply rtc_l; [apply step_sleep|].
    rewrite sample_eq. cbn [fst snd colorLeft colorRight interval].
    rewrite <- app_assoc. apply rtc_refl. }
  destruct (worker_iteration_done _ _ _ _ _ _ E)
    as (h1 & tr1 & [(-> & -> & Ec) | (-> & Ec & Et)] & -> & -> & ->).
  - eapply rtc_l; [apply step_check_skip; exact Ec|]. apply Hsample.
  - rewrite app_assoc.
    etransitivity; [|apply Hsample].
    unfold transitionBoth in Et. cbn [getColor] in Et.
    destruct (F32.eqb (maxi_of h) F32.zero) eqn:Ez.
    + injection Et as <-. rewrite app_nil_r.
      eapply rtc_l.
      { eapply step_check_enter; [exact Ec|].
        unfold transition_enter. cbn [getColor]. rewrite Ez. reflexivity. }
      apply rtc_once. apply (step_clear (transition_handler h)).
    + destruct (delta_loop _ _ _ _ _ _ _ _ _) as [[ld rd]|] eqn:Ed; [|discriminate].
      destruct (transition_loop _ _ _ _ _ _ _ _) as [[c| |] tr0] eqn:El; try discriminate.
      injection Et as <-.
      eapply rtc_l.
      { eapply step_check_enter; [exact Ec|].
        unfold transition_enter. cbn [getColor]. rewrite Ez, Ed. reflexivity. }
      etransitivity.
      { apply (transition_loop_run fuel (transition_handler h) (Some Worker) w cs tr 0
                 (maxi_of h) (colorLeft w) (colorRight w) ld rd c tr0). exact El. }
      apply rtc_once. apply (step_clear (transition_handler h)).
Qed.
End WorkerRuns.

(** * More of the transition engine *)

(** ** The clamp *)

Lemma clamp_unit (x : spec_float) : F32.in_unit x = true -> clamp x = x.
Proof.
  intros H. apply andb_prop in H as [H0 H1].
  unfold F32.leb, SFleb in H0, H1.
  unfold clamp, F32.max, F32.min, F32.ltb, SFltb.
  rewrite (SFcompare_antisym x F32.one).
  destruct (SFcompare x F32.one) as [[]|]; try discriminate H1; cbn [option_map CompOpp];
    rewrite (SFcompare_antisym F32.zero x);
    destruct (SFcompare F32.zero x) as [[]|]; try discriminate H0; reflexivity.
Qed.

(** X1. The clamp [max(min(x, 1.0f), 0.0f)] of a step leaves a channel
    that lies in [0, 1] as it is, brings every other number into
    [0, 1], and is therefore idempotent; NaN alone passes through it. *)
Theorem clamp_projection (x : spec_float) :
  (F32.in_unit x = true -> clamp x = x) /\
  (F32.is_nan x = false -> F32.in_unit (clamp x) = true) /\
  (F32.is_nan x = true -> clamp x = x) /\
  clamp (clamp x) = clamp x.
Proof.
  split; [apply clamp_unit|]. split; [apply clamp_in_unit|]. split.
  - destruct x; try discriminate. intros _. apply clamp_nan.
  - destruct (F32.is_nan x) eqn:E.
    + destruct x; try discriminate E. rewrite clamp_nan. apply clamp_nan.
    + apply clamp_unit, clamp_in_unit, E.
Qed.

Lemma clamp_projection_witness :
  clamp F32.half = F32.half /\
  F32.in_unit (clamp (F32.of_Z 3)) = true /\
  clamp S754_nan = S754_nan.
Proof.
  split; [|split].
  - apply (proj1 (clamp_projection F32.half)). reflexivity.
  - apply (proj1 (proj2 (clamp_projection (F32.of_Z 3)))). reflexivity.
  - apply (proj1 (proj2 (proj2 (clamp_projection S754_nan)))). reflexivity.
Defined.

(** ** Vectors that are too short *)

Lemma delta_loop_short (n : nat) :
  forall (j : nat) (maxi : spec_float) (lt lf rt rf ld rd : color),
    (j <= length lt < j + n \/ j <= length lf < j + n \/
     j <= length rt < j + n \/ j <= length rf < j + n)%nat ->
    delta_loop n j maxi lt lf rt rf ld rd = None.
Proof.
  induction n as [|n IH]; intros j maxi lt lf rt rf ld rd H; [lia|].
  cbn [delta_loop].
  destruct (lt !! j) as [a|] eqn:E1; [|reflexivity].
  destruct (lf !! j) as [b|] eqn:E2; [|reflexivity].
  destruct (ld !! j) as [c|] eqn:E3; [|reflexivity].
  destruct (rt !! j) as [a'|] eqn:E4; [|reflexivity].
  destruct (rf !! j) as [b'|] eqn:E5; [|reflexivity].
  destruct (rd !! j) as [c'|] eqn:E6; [|reflexivity].
  cbn [mbind option_bind].
  apply lookup_lt_Some in E1, E2, E4, E5.
  apply IH. lia.
Qed.

(** X2. [transitionBoth] tests the quotient before it reads a channel:
    with a quotient equal to zero it returns without touching the
    colors, whatever their sizes. With any other quotient a start or
    target color of fewer than [NUM_COLORS] channels is read past its
    end, before anything is pushed. *)
Theorem transition_short_vector (fuel : nat) (h : RgbLightHandler)
    (leftFrom rightFrom : color) :
  (length (target (patternLeft h)) < NUM_COLORS \/ length leftFrom < NUM_COLORS \/
   length (target (patternRight h)) < NUM_COLORS \/ length rightFrom < NUM_COLORS)%nat ->
  transitionBoth fuel h leftFrom rightFrom =
    if F32.eqb (maxi_of h) F32.zero then (Done (transition_handler h), [])
    else (Undefined, []).
Proof.
  intros H. unfold transitionBoth. cbn [getColor].
  destruct (F32.eqb _ _); [reflexivity|].
  rewrite delta_loop_short; [reflexivity|].
  unfold target in H. cbn [getColor fst] in H. unfold NUM_COLORS in *. lia.
Qed.

Lemma transition_short_vector_witness :
  transitionBoth 3 (fading 10 5 [F32.one; F32.one; F32.one]) black black =
    if F32.eqb (maxi_of (fading 10 5 [F32.one; F32.one; F32.one])) F32.zero
    then (Done (transition_handler (fading 10 5 [F32.one; F32.one; F32.one])), [])
    else (Undefined, []).
Proof.
  apply (transition_short_vector 3 (fading 10 5 [F32.one; F32.one; F32.one]) black black).
  left. vm_compute. lia.
Defined.

(** ** NaN in a channel *)

Lemma add_nan_r (x : spec_float) : F32.add x S754_nan = S754_nan.
Proof. destruct x; reflexivity. Qed.

Lemma step_color_nan (c d : color) (j : nat) :
  (j < length c)%nat -> d !! j = Some S754_nan -> step_color c d !! j = Some S754_nan.
Proof.
  intros Hj Hd. unfold step_color, color in *. rewrite lookup_zip_with.
  destruct (lookup_lt_is_Some_2 c j Hj) as [x ->]. rewrite Hd. cbn [mbind option_bind].
  rewrite add_nan_r, clamp_nan. reflexivity.
Qed.

Lemma delta_color_nan (maxi : spec_float) (t f : color) (j : nat) :
  (j < length f)%nat -> t !! j = Some S754_nan -> delta_color maxi t f !! j = Some S754_nan.
Proof.
  intros Hj Ht. unfold delta_color, color in *. rewrite lookup_zip_with, Ht.
  destruct (lookup_lt_is_Some_2 f j Hj) as [x ->]. reflexivity.
Qed.

Lemma transition_loop_nan (fuel : nat) (j : nat) :
  forall (refresh : Z) (maxi : spec_float) (i : Z) (lf rf ld rd : color),
    length lf = NUM_COLORS -> length rf = NUM_COLORS ->
    length ld = NUM_COLORS -> length rd = NUM_COLORS ->
    (ld !! j = Some S754_nan ->
     Forall (fun p => p.1 !! j = Some S754_nan)
       (pushes (snd (transition_loop fuel refresh maxi i lf rf ld rd)))) /\
    (rd !! j = Some S754_nan ->
     Forall (fun p => p.2 !! j = Some S754_nan)
       (pushes (snd (transition_loop fuel refresh maxi i lf rf ld rd)))).
Proof.
  induction fuel as [|fuel IH]; intros refresh maxi i lf rf ld rd L1 L2 L3 L4.
  - rewrite transition_loop_O. destruct (F32.ltb _ _); split; intros; constructor.
  - rewrite transition_loop_S. destruct (F32.ltb _ _); [|split; intros; constructor].
    rewrite color_loop_4 by assumption.
    assert (Hl : ld !! j = Some S754_nan -> step_color lf ld !! j = Some S754_nan).
    { intros H. apply step_color_nan; [|exact H].
      apply lookup_lt_Some in H. rewrite L1, <- L3. exact H. }
    assert (Hr : rd !! j = Some S754_nan -> step_color rf rd !! j = Some S754_nan).
    { intros H. apply step_color_nan; [|exact H].
      apply lookup_lt_Some in H. rewrite L2, <- L4. exact H. }
    destruct (i =? INT_MAX).
    + split; intros H; repeat constructor; cbn [fst snd]; auto.
    + specialize (IH refresh maxi (i + 1) (step_color lf ld) (step_color rf rd) ld rd
                    (length_step_color _ _ _ L1 L3) (length_step_color _ _ _ L2 L4) L3 L4).
      destruct (transition_loop fuel _ _ _ _ _ _ _) as [o tr]. cbn [snd] in *.
      rewrite pushes_app.
      split; intros H; apply Forall_app; split;
        try (repeat constructor; cbn [fst snd]; auto); apply IH; exact H.
Qed.

(** X3. The clamp does not catch NaN. When a pattern reports NaN in a
    channel, a transition with an interval and a duration above zero
    pushes at least one color pair, and every pair it pushes has NaN in
    that channel of that side. *)
Theorem transition_pushes_nan (fuel : nat) (h : RgbLightHandler)
    (leftFrom rightFrom : color) (j : nat) :
  length leftFrom = NUM_COLORS -> length rightFrom = NUM_COLORS ->
  length (target (patternLeft h)) = NUM_COLORS ->
  length (target (patternRight h)) = NUM_COLORS ->
  0 < transitionRefreshInterval h < 2 ^ 32 ->
  0 < transitionTime h < 2 ^ 32 ->
  (0 < fuel)%nat ->
  let ps := pushes (snd (transitionBoth fuel h leftFrom rightFrom)) in
  ps <> [] /\
  (target (patternLeft h) !! j = Some S754_nan ->
   Forall (fun p => p.1 !! j = Some S754_nan) ps) /\
  (target (patternRight h) !! j = Some S754_nan ->
   Forall (fun p => p.2 !! j = Some S754_nan) ps).
Proof.
  intros L1 L2 L3 L4 HR HD Hfuel. cbv zeta.
  rewrite transitionBoth_eq by assumption.
  destruct (maxi_positive h HD HR) as (m & e & Em & _).
  rewrite Em. change (F32.eqb (S754_finite false m e) F32.zero) with false. cbv iota.
  pose proof (transition_loop_nan fuel j (transitionRefreshInterval h)
                (S754_finite false m e) 0 leftFrom rightFrom
                (delta_color (S754_finite false m e) (target (patternLeft h)) leftFrom)
                (delta_color (S754_finite false m e) (target (patternRight h)) rightFrom)
                L1 L2 (length_delta_color _ _ _ _ L3 L1) (length_delta_color _ _ _ _ L4 L2))
    as [Hl Hr].
  destruct fuel as [|fuel]; [lia|].
  pose proof (transition_loop_first fuel (transitionRefreshInterval h)
                (S754_finite false m e) leftFrom rightFrom
                (delta_color (S754_finite false m e) (target (patternLeft h)) leftFrom)
                (delta_color (S754_finite false m e) (target (patternRight h)) rightFrom)
                L1 L2 (length_delta_color _ _ _ _ L3 L1) (length_delta_color _ _ _ _ L4 L2)
                eq_refl) as Hhead.
  destruct (transition_loop (S fuel) _ _ _ _ _ _ _) as [o tr]. cbn [snd] in *.
  split; [intros E; rewrite E in Hhead; discriminate Hhead|].
  split; intros H.
  - apply Hl, delta_color_nan; [|exact H]. apply lookup_lt_Some in H. rewrite L1, <- L3. exact H.
  - apply Hr, delta_color_nan; [|exact H]. apply lookup_lt_Some in H. rewrite L2, <- L4. exact H.
Qed.

Lemma transition_pushes_nan_witness :
  let h := fading 10 5 [S754_nan; F32.zero; F32.zero; F32.zero] in
  let ps := pushes (snd (transitionBoth 3 h black black)) in
  ps <> [] /\ Forall (fun p => p.1 !! 0%nat = Some S754_nan) ps.
Proof.
  cbv zeta.
  pose proof (transition_pushes_nan 3
                (fading 10 5 [S754_nan; F32.zero; F32.zero; F32.zero]) black black 0
                eq_refl eq_refl eq_refl eq_refl) as H.
  cbv zeta in H.
  destruct H as (H1 & H2 & _); [cbn; lia | cbn; lia | lia |].
  split; [exact H1 | apply H2; reflexivity].
Defined.

(** ** A transition between equal colors *)

Lemma sub_self (x : spec_float) :
  F32.is_finite x = true -> F32.sub x x = S754_zero false.
Proof.
  destruct x as [s|s| |s m e]; try discriminate; intros _.
  - destruct s; reflexivity.
  - unfold F32.sub, SFsub. rewrite Z.sub_diag. reflexivity.
Qed.

Lemma div_zero_l (s : bool) (y : spec_float) :
  F32.is_nan y = false -> (forall s', y <> S754_zero s') ->
  exists s', F32.div (S754_zero s) y = S754_zero s'.
Proof.
  destruct y as [s'|s'| |s' m e]; try discriminate; intros _ Hz.
  - destruct (Hz s' eq_refl).
  - exists (xorb s s'). reflexivity.
  - exists (xorb s s'). reflexivity.
Qed.

Lemma add_zero_same (a b : spec_float) (s : bool) :
  F32.in_unit a = true -> same_number a b ->
  same_number a (clamp (F32.add b (S754_zero s))).
Proof.
  intros Ha Hab.
  assert (Hz : forall s1, same_number (S754_zero s1) (clamp (F32.add (S754_zero s1) (S754_zero s)))).
  { intros s1. right. exists s1.
    destruct s1, s; eexists; (split; [reflexivity|]); apply clamp_unit; reflexivity. }
  destruct Hab as [-> | (s1 & s2 & -> & ->)].
  - destruct (in_unit_shape a Ha) as [[s1 ->] | (m & e & -> & _)]; [apply Hz|].
    left. change (F32.add (S754_finite false m e) (S754_zero s)) with (S754_finite false m e).
    apply clamp_unit, Ha.
  - destruct (Hz s2) as [E | (s3 & s4 & _ & E)]; right; exists s1; rewrite E; eauto.
Qed.

Lemma step_color_same (a c d : color) :
  unit_color a -> Forall2 same_number a c ->
  Forall (fun x => exists s, x = S754_zero s) d -> length d = length c ->
  Forall2 same_number a (step_color c d).
Proof.
  intros Hu Hac. revert d Hu. unfold step_color.
  induction Hac as [|x y a c Hxy Hac IH]; intros d Hu Hd Hlen.
  - constructor.
  - destruct d as [|z d]; [discriminate Hlen|].
    apply Forall_cons in Hu as [Hx Hu]. apply Forall_cons in Hd as [[s ->] Hd].
    cbn [zip_with]. constructor.
    + apply add_zero_same; assumption.
    + apply IH; [assumption | assumption | cbn in Hlen; lia].
Qed.

Lemma same_number_eqb (a b : spec_float) :
  F32.in_unit a = true -> same_number a b -> F32.eqb a b = true.
Proof.
  intros Ha [-> | (s & s' & -> & ->)]; [|destruct s, s'; reflexivity].
  destruct (in_unit_shape a Ha) as [[s ->] | (m & e & -> & _)]; [destruct s; reflexivity|].
  unfold F32.eqb, SFeqb. rewrite SFcompare_finite_pos, Z.compare_refl.
  change (Pos.compare_cont Eq m m) with (Pos.compare m m). rewrite Pos.compare_refl.
  reflexivity.
Qed.

Lemma delta_color_self (maxi : spec_float) (c : color) :
  unit_color c -> F32.is_nan maxi = false -> (forall s, maxi <> S754_zero s) ->
  Forall (fun x => exists s, x = S754_zero s) (delta_color maxi c c).
Proof.
  intros Hu Hn Hz. unfold delta_color.
  induction Hu as [|x c Hx Hu IH]; [constructor|]. cbn [zip_with]. constructor; [|exact IH].
  rewrite (sub_self x (in_unit_finite x Hx)). apply div_zero_l; assumption.
Qed.

Lemma transition_loop_same (fuel : nat) (a b : color) :
  forall (refresh : Z) (maxi : spec_float) (i : Z) (lf rf ld rd : color),
    unit_color a -> unit_color b ->
    length lf = NUM_COLORS -> length rf = NUM_COLORS ->
    length ld = NUM_COLORS -> length rd = NUM_COLORS ->
    Forall2 same_number a lf -> Forall2 same_number b rf ->
    Forall (fun x => exists s, x = S754_zero s) ld ->
    Forall (fun x => exists s, x = S754_zero s) rd ->
    Forall (fun p => Forall2 same_number a p.1 /\ Forall2 same_number b p.2)
      (pushes (snd (transition_loop fuel refresh maxi i lf rf ld rd))).
Proof.
  induction fuel as [|fuel IH]; intros refresh maxi i lf rf ld rd Ha Hb L1 L2 L3 L4 S1 S2 Z1 Z2.
  - rewrite transition_loop_O. destruct (F32.ltb _ _); constructor.
  - rewrite transition_loop_S. destruct (F32.ltb _ _); [|constructor].
    rewrite color_loop_4 by assumption.
    assert (S1' : Forall2 same_number a (step_color lf ld))
      by (apply step_color_same; try assumption; congruence).
    assert (S2' : Forall2 same_number b (step_color rf rd))
      by (apply step_color_same; try assumption; congruence).
    destruct (i =? INT_MAX).
    + repeat constructor; assumption.
    + specialize (IH refresh maxi (i + 1) (step_color lf ld) (step_color rf rd) ld rd Ha Hb
                    (length_step_color _ _ _ L1 L3) (length_step_color _ _ _ L2 L4) L3 L4
                    S1' S2' Z1 Z2).
      destruct (transition_loop fuel _ _ _ _ _ _ _) as [o tr]. cbn [snd] in *.
      rewrite pushes_app. apply Forall_app. split; [|exact IH].
      repeat constructor; assumption.
Qed.

Lemma Forall2_same_eqb (a c : color) :
  unit_color a -> Forall2 same_number a c -> Forall2 (fun x y => F32.eqb x y = true) a c.
Proof.
  intros Hu H. induction H as [|x y a c Hxy H IH]; [constructor|].
  apply Forall_cons in Hu as [Hx Hu]. constructor; [|apply IH, Hu].
  apply same_number_eqb; assumption.
Qed.

Lemma Forall2_same_refl (c : color) : Forall2 same_number c c.
Proof. induction c; constructor; [left; reflexivity | assumption]. Qed.

(** X4. A transition to the colors that are already shown changes
    nothing on the way: whatever the quotient and however the run ends,
    every channel of every pair it pushes compares equal to the channel
    it started from. *)
Theorem transition_between_equal_colors (fuel : nat) (h : RgbLightHandler)
    (leftFrom rightFrom : color) :
  length leftFrom = NUM_COLORS -> length rightFrom = NUM_COLORS ->
  unit_color leftFrom -> unit_color rightFrom ->
  target (patternLeft h) = leftFrom -> target (patternRight h) = rightFrom ->
  Forall (fun p =>
            Forall2 (fun a b => F32.eqb a b = true) leftFrom p.1 /\
            Forall2 (fun a b => F32.eqb a b = true) rightFrom p.2)
    (pushes (snd (transitionBoth fuel h leftFrom rightFrom))).
Proof.
  intros L1 L2 U1 U2 T1 T2.
  rewrite transitionBoth_eq by congruence. rewrite T1, T2.
  destruct (F32.eqb (maxi_of h) F32.zero) eqn:Ez; [constructor|].
  destruct (F32.is_nan (maxi_of h)) eqn:En.
  { destruct (maxi_of h); try discriminate En.
    rewrite transition_loop_done by apply ltb_nan_r. constructor. }
  pose proof (eqb_zero_false_nonzero _ Ez) as Hz.
  pose proof (transition_loop_same fuel leftFrom rightFrom (transitionRefreshInterval h)
                (maxi_of h) 0 leftFrom rightFrom
                (delta_color (maxi_of h) leftFrom leftFrom)
                (delta_color (maxi_of h) rightFrom rightFrom) U1 U2 L1 L2
                (length_delta_color _ _ _ _ L1 L1) (length_delta_color _ _ _ _ L2 L2)
                (Forall2_same_refl _) (Forall2_same_refl _)
                (delta_color_self _ _ U1 En Hz) (delta_color_self _ _ U2 En Hz)) as H.
  destruct (transition_loop _ _ _ _ _ _ _ _) as [o tr]. cbn [snd] in *.
  eapply Forall_impl; [exact H|]. intros p [H1 H2].
  split; apply Forall2_same_eqb; assumption.
Qed.

Lemma transition_between_equal_colors_witness :
  Forall (fun p =>
            Forall2 (fun a b => F32.eqb a b = true) white p.1 /\
            Forall2 (fun a b => F32.eqb a b = true) white p.2)
    (pushes (snd (transitionBoth 3 (fading 10 15 white) white white))).
Proof.
  apply (transition_between_equal_colors 3 (fading 10 15 white) white white);
    try reflexivity; apply Color_unit, Color_white.
Defined.

(** ** The pace of a transition *)

Lemma transition_loop_paced (fuel : nat) :
  forall (refresh : Z) (maxi : spec_float) (i : Z) (lf rf ld rd : color),
    snd (transition_loop fuel refresh maxi i lf rf ld rd)
      = paced refresh (pushes (snd (transition_loop fuel refresh maxi i lf rf ld rd))).
Proof.
  induction fuel as [|fuel IH]; intros refresh maxi i lf rf ld rd.
  - rewrite transition_loop_O. destruct (F32.ltb _ _); reflexivity.
  - rewrite transition_loop_S. destruct (F32.ltb _ _); [|reflexivity].
    destruct (color_loop _ _ _ _ _ _) as [[lf' rf']|]; [|reflexivity].
    destruct (i =? INT_MAX); [reflexivity|].
    specialize (IH refresh maxi (i + 1) lf' rf' ld rd).
    destruct (transition_loop fuel _ _ _ _ _ _ _) as [o tr]. cbn [snd] in *.
    rewrite pushes_app. unfold paced in *. rewrite flat_map_app, <- IH. reflexivity.
Qed.

Lemma slept_paced (refresh : Z) (ps : list (color * color)) :
  Locking.slept (paced refresh ps) = Z.of_nat (length ps) * refresh.
Proof.
  induction ps as [|p ps IH]; [reflexivity|].
  change (Locking.slept (paced refresh (p :: ps)))
    with (refresh + Locking.slept (paced refresh ps)).
  rewrite IH. cbn [length]. lia.
Qed.

Lemma transitionBoth_paced (fuel : nat) (h : RgbLightHandler) (lf rf : color) :
  snd (transitionBoth fuel h lf rf)
    = paced (transitionRefreshInterval h) (pushes (snd (transitionBoth fuel h lf rf))).
Proof.
  unfold transitionBoth. cbn [getColor].
  destruct (F32.eqb _ _); [reflexivity|].
  destruct (delta_loop _ _ _ _ _ _ _ _ _) as [[ld rd]|]; [|reflexivity].
  pose proof (transition_loop_paced fuel (transitionRefreshInterval h) (maxi_of h) 0
                lf rf ld rd) as H.
  destruct (transition_loop _ _ _ _ _ _ _ _) as [o tr]. exact H.
Qed.

(** X5. A transition sleeps once after every push, each time for
    [transitionRefreshInterval] milliseconds, and does nothing else: its
    trace is push, sleep, push, sleep, ..., and the time slept is the
    number of pushes times the interval. This holds however the
    transition ends. *)
Theorem transition_paced (fuel : nat) (h : RgbLightHandler) (leftFrom rightFrom : color) :
  let tr := snd (transitionBoth fuel h leftFrom rightFrom) in
  tr = paced (transitionRefreshInterval h) (pushes tr) /\
  Locking.slept tr = Z.of_nat (length (pushes tr)) * transitionRefreshInterval h.
Proof.
  cbv zeta. split; [apply transitionBoth_paced|].
  rewrite transitionBoth_paced at 1. apply slept_paced.
Qed.

(** ** Which transitions return, and how long they last *)

Lemma of_Z_INT_MAX : F32.of_Z INT_MAX = S754_finite false 8388608 8.
Proof. vm_compute. reflexivity. Qed.

(** No [int] that is not negative converts to a float above the one of
    [INT_MAX], which is [2^31]. *)
Lemma of_Z_int_bound (i : Z) :
  0 <= i <= INT_MAX ->
  F32.of_Z i = F32.zero \/
  exists m e, F32.of_Z i = S754_finite false m e /\ (e < 8 \/ e = 8 /\ m = 8388608%positive).
Proof.
  intros Hi. unfold INT_MAX in Hi.
  destruct (Z.eq_dec i 0) as [->|Hne]; [left; reflexivity|right].
  destruct (Z_lt_le_dec i (2 ^ 24)) as [Hs|Hl].
  - destruct (of_Z_exact i ltac:(lia)) as (m & E & _). exists m. eexists. split; [exact E|].
    left. assert (Zdigits2 i <= 24) by (apply Zdigits2_le; lia). lia.
  - destruct i as [|p|p]; try lia.
    change (F32.of_Z (Z.pos p)) with (binary_round 24 128 false p 0).
    unfold binary_round.
    pose proof (shl_align_spec p 0 (fexp 24 128 (Z.pos (digits2_pos p) + 0))) as [He Hz].
    destruct (shl_align p 0 _) as [mz ez]. cbn [fst snd] in He, Hz.
    assert (Hd : 25 <= Z.pos (digits2_pos p) <= 31).
    { split; [apply (Zdigits2_ge (Z.pos p)); lia | apply (Zdigits2_le (Z.pos p)); lia]. }
    rewrite fexp32 in He.
    assert (Hez : ez = 0) by lia. clear He. subst ez.
    assert (Hmz : Z.pos mz = Z.pos p) by (rewrite Hz; change (2 ^ (0 - 0)) with 1; lia).
    injection Hmz as ->.
    change (Zdigits2 (Z.pos p)) with (Z.pos (digits2_pos p)) in *.
    destruct (binary_round_aux_normal false (Z.pos p) 0 loc_Exact) as (m & e & E & Hm & Hle);
      try (change (Zdigits2 (Z.pos p)) with (Z.pos (digits2_pos p)); lia).
    destruct (binary_round_aux_value false (Z.pos p) 0 loc_Exact) as (m' & e' & E' & _ & _ & Hv);
      try (change (Zdigits2 (Z.pos p)) with (Z.pos (digits2_pos p)); lia).
    rewrite E in E'. injection E' as <- <-.
    change (Zdigits2 (Z.pos p)) with (Z.pos (digits2_pos p)) in *.
    exists m, e. split; [exact E|].
    destruct (Z_lt_le_dec e 8) as [|He8]; [left; assumption|right].
    assert (e = 8) by lia. subst e. split; [reflexivity|].
    assert (Hdp : Z.pos (digits2_pos p) = 31) by lia.
    pose proof (shr_fexp_spec 24 128 (Z.pos p) 0 loc_Exact ltac:(lia)) as [Hs Hsm].
    change (Zdigits2 (Z.pos p)) with (Z.pos (digits2_pos p)) in Hs.
    rewrite fexp32, Hdp in Hs. rewrite Hs in Hsm.
    change (Z.max 0 (Z.max (31 + 0 - 24) (-149)) - 0) with 7 in Hsm.
    rewrite Hdp in Hv. change (8 - (31 + 0 - 24)) with 1 in Hv.
    pose proof (digits2_pos_upper p) as Hup. rewrite Hdp in Hup.
    assert (Hq : Z.pos p / 2 ^ 7 < 2 ^ 24)
      by (apply Z.div_lt_upper_bound; lia).
    pose proof (digits2_pos_lower m) as Hlo. rewrite Hm in Hlo.
    destruct (round_nearest_even_cases
                (shr_m (fst (shr_fexp 24 128 (Z.pos p) 0 loc_Exact)))
                (loc_of_shr_record (fst (shr_fexp 24 128 (Z.pos p) 0 loc_Exact)))) as [R|R];
      rewrite R, Hsm in Hv; change (2 ^ 1) with 2 in Hv; change (2 ^ (24 - 1)) with 8388608 in Hlo;
      change (2 ^ 24) with 16777216 in Hq; lia.
Qed.

Lemma ltb_of_Z_int (y : spec_float) (i : Z) :
  F32.ltb (F32.of_Z INT_MAX) y = true -> 0 <= i <= INT_MAX ->
  F32.ltb (F32.of_Z i) y = true.
Proof.
  rewrite of_Z_INT_MAX. intros Hy Hi.
  destruct y as [s|s| |s m' e']; try discriminate Hy.
  - destruct s; [discriminate Hy|].
    destruct (of_Z_int_bound i Hi) as [-> | (m & e & -> & _)]; reflexivity.
  - destruct s; [discriminate Hy|].
    destruct (of_Z_int_bound i Hi) as [-> | (m & e & -> & H)]; [reflexivity|].
    unfold F32.ltb, SFltb in *. rewrite SFcompare_finite_pos in *.
    destruct H as [H | [-> ->]]; [|exact Hy].
    destruct (8 ?= e') eqn:C8; try discriminate Hy.
    + apply Z.compare_eq in C8. subst e'.
      replace (e ?= 8) with Lt by (symmetry; apply Z.compare_lt_iff; lia). reflexivity.
    + change (8 < e') in C8.
      replace (e ?= e') with Lt by (symmetry; apply Z.compare_lt_iff; lia). reflexivity.
Qed.

(** The loop with a quotient above the float of [INT_MAX]. *)
Lemma transition_loop_overflow (fuel : nat) :
  forall (refresh : Z) (maxi : spec_float) (i : Z) (lf rf ld rd : color),
    length lf = NUM_COLORS -> length rf = NUM_COLORS ->
    length ld = NUM_COLORS -> length rd = NUM_COLORS ->
    F32.ltb (F32.of_Z INT_MAX) maxi = true ->
    0 <= i <= INT_MAX ->
    (forall c, fst (transition_loop fuel refresh maxi i lf rf ld rd) <> Done c) /\
    Z.of_nat (length (pushes (snd (transition_loop fuel refresh maxi i lf rf ld rd))))
      = Z.min (Z.of_nat fuel) (INT_MAX + 1 - i) /\
    fst (transition_loop fuel refresh maxi i lf rf ld rd)
      = if Z.of_nat fuel <=? INT_MAX - i then OutOfFuel else Undefined.
Proof.
  induction fuel as [|fuel IH]; intros refresh maxi i lf rf ld rd H1 H2 H3 H4 Hm Hi;
    rewrite ?transition_loop_O, ?transition_loop_S, (ltb_of_Z_int maxi i Hm Hi).
  - split; [discriminate|]. split; [cbn; unfold INT_MAX in *; lia|].
    replace (Z.of_nat 0 <=? INT_MAX - i) with true by (symmetry; apply Z.leb_le; lia).
    reflexivity.
  - rewrite color_loop_4 by assumption.
    destruct (i =? INT_MAX) eqn:E.
    + apply Z.eqb_eq in E. split; [discriminate|]. split; [simpl; lia|].
      replace (Z.of_nat (S fuel) <=? INT_MAX - i) with false
        by (symmetry; apply Z.leb_gt; lia).
      reflexivity.
    + apply Z.eqb_neq in E.
      specialize (IH refresh maxi (i + 1) _ _ ld rd
                    (length_step_color lf ld _ H1 H3)
                    (length_step_color rf rd _ H2 H4) H3 H4 Hm ltac:(lia)).
      destruct (transition_loop fuel refresh maxi (i + 1) _ _ ld rd) as [o tr].
      cbn [fst snd] in *. destruct IH as (IH1 & IH2 & IH3).
      split; [exact IH1|]. split; [rewrite pushes_app, length_app; simpl; lia|].
      rewrite IH3.
      destruct (Z.leb_spec (Z.of_nat fuel) (INT_MAX - (i + 1))),
               (Z.leb_spec (Z.of_nat (S fuel)) (INT_MAX - i)); try reflexivity; lia.
Qed.

(** X6. [transitionBoth], given colors of [NUM_COLORS] channels, returns
    exactly when its quotient does not exceed the float of [INT_MAX],
    that is [2^31]: a NaN quotient returns at once, and above [2^31]
    the step counter overflows after [INT_MAX + 1] pushes. *)
Theorem transition_returns_iff (h : RgbLightHandler) (leftFrom rightFrom : color) :
  length leftFrom = NUM_COLORS -> length rightFrom = NUM_COLORS ->
  length (target (patternLeft h)) = NUM_COLORS ->
  length (target (patternRight h)) = NUM_COLORS ->
  (exists fuel tr,
     transitionBoth fuel h leftFrom rightFrom = (Done (transition_handler h), tr)) <->
  F32.ltb (F32.of_Z INT_MAX) (maxi_of h) = false.
Proof.
  intros L1 L2 L3 L4. split.
  - intros (fuel & tr & E).
    destruct (F32.ltb (F32.of_Z INT_MAX) (maxi_of h)) eqn:Hm; [exfalso|reflexivity].
    rewrite transitionBoth_eq in E by assumption.
    destruct (F32.eqb (maxi_of h) F32.zero) eqn:Ez.
    + apply eqb_zero_ltb in Ez. rewrite (ltb_of_Z_int _ 0 Hm) in Ez by (unfold INT_MAX; lia).
      discriminate Ez.
    + pose proof (transition_loop_overflow fuel (transitionRefreshInterval h) (maxi_of h) 0
                    leftFrom rightFrom
                    (delta_color (maxi_of h) (target (patternLeft h)) leftFrom)
                    (delta_color (maxi_of h) (target (patternRight h)) rightFrom)
                    L1 L2 (length_delta_color _ _ _ _ L3 L1) (length_delta_color _ _ _ _ L4 L2)
                    Hm ltac:(unfold INT_MAX; lia)) as (Hnd & _ & _).
      destruct (transition_loop _ _ _ _ _ _ _ _) as [[c| |] tr0]; try discriminate E.
      apply (Hnd c). reflexivity.
  - intros Hm.
    destruct (first_index (fun i => F32.ltb (F32.of_Z i) (maxi_of h)) INT_MAX
                ltac:(unfold INT_MAX; lia) Hm) as (n & Hn & Hlt & Hge).
    destruct (transitionBoth_steps (Z.to_nat n) h leftFrom rightFrom n L1 L2 L3 L4)
      as (tr & E & _); try lia.
    + split; [lia|]. split; assumption.
    + exists (Z.to_nat n), tr. exact E.
Qed.

Lemma transition_returns_iff_witness :
  (exists fuel tr,
     transitionBoth fuel (fading 10 15 white) black black
       = (Done (transition_handler (fading 10 15 white)), tr)) <->
  F32.ltb (F32.of_Z INT_MAX) (maxi_of (fading 10 15 white)) = false.
Proof.
  apply (transition_returns_iff (fading 10 15 white) black black); reflexivity.
Defined.

(** X7. A quotient above [2^31], as a duration of [UINT_MAX] ms with an
    interval of 1 ms gives it, makes the transition push [INT_MAX + 1]
    color pairs and then overflow its counter: in the model, no fuel
    lets it return, the pushes are as many as the fuel up to
    [INT_MAX + 1], and with fuel for more than [INT_MAX] steps the run
    ends in the overflow, which is undefined behaviour. *)
Theorem transition_counter_overflow (fuel : nat) (h : RgbLightHandler)
    (leftFrom rightFrom : color) :
  length leftFrom = NUM_COLORS -> length rightFrom = NUM_COLORS ->
  length (target (patternLeft h)) = NUM_COLORS ->
  length (target (patternRight h)) = NUM_COLORS ->
  F32.ltb (F32.of_Z INT_MAX) (maxi_of h) = true ->
  (forall h', fst (transitionBoth fuel h leftFrom rightFrom) <> Done h') /\
  Z.of_nat (length (pushes (snd (transitionBoth fuel h leftFrom rightFrom))))
    = Z.min (Z.of_nat fuel) (INT_MAX + 1) /\
  fst (transitionBoth fuel h leftFrom rightFrom)
    = if Z.of_nat fuel <=? INT_MAX then OutOfFuel else Undefined.
Proof.
  intros L1 L2 L3 L4 Hm. rewrite transitionBoth_eq by assumption.
  destruct (F32.eqb (maxi_of h) F32.zero) eqn:Ez.
  { apply eqb_zero_ltb in Ez. rewrite (ltb_of_Z_int _ 0 Hm) in Ez by (unfold INT_MAX; lia).
    discriminate Ez. }
  pose proof (transition_loop_overflow fuel (transitionRefreshInterval h) (maxi_of h) 0
                leftFrom rightFrom
                (delta_color (maxi_of h) (target (patternLeft h)) leftFrom)
                (delta_color (maxi_of h) (target (patternRight h)) rightFrom)
                L1 L2 (length_delta_color _ _ _ _ L3 L1) (length_delta_color _ _ _ _ L4 L2)
                Hm ltac:(unfold INT_MAX; lia)) as (Hnd & Hlen & Ho).
  destruct (transition_loop _ _ _ _ _ _ _ _) as [o tr]. cbn [fst snd] in *.
  split; [|split].
  - intros h'. destruct o; [exfalso; apply (Hnd a); reflexivity | discriminate ..].
  - rewrite Hlen. lia.
  - rewrite Z.sub_0_r in Ho. rewrite Ho.
    destruct (Z.of_nat fuel <=? INT_MAX); reflexivity.
Qed.

Lemma transition_counter_overflow_witness :
  (forall h', fst (transitionBoth 5 (fading 1 UINT_MAX white) black black) <> Done h') /\
  Z.of_nat (length (pushes (snd (transitionBoth 5 (fading 1 UINT_MAX white) black black))))
    = Z.min (Z.of_nat 5) (INT_MAX + 1) /\
  fst (transitionBoth 5 (fading 1 UINT_MAX white) black black)
    = if Z.of_nat 5 <=? INT_MAX then OutOfFuel else Undefined.
Proof.
  apply (transition_counter_overflow 5 (fading 1 UINT_MAX white) black black);
    reflexivity.
Defined.

(** X8. For an interval [R > 0] and a duration [D], both below [2^24],
    a transition returns after it has slept [R] times the quotient
    [D / R] rounded up: at least the duration, and less than the
    duration plus one interval. *)
Theorem transition_duration (fuel : nat) (h : RgbLightHandler)
    (leftFrom rightFrom : color) :
  length leftFrom = NUM_COLORS -> length rightFrom = NUM_COLORS ->
  length (target (patternLeft h)) = NUM_COLORS ->
  length (target (patternRight h)) = NUM_COLORS ->
  0 < transitionRefreshInterval h < 2 ^ 24 ->
  0 <= transitionTime h < 2 ^ 24 ->
  ceiling_steps h <= Z.of_nat fuel ->
  exists tr,
    transitionBoth fuel h leftFrom rightFrom = (Done (transition_handler h), tr) /\
    Locking.slept tr = ceiling_steps h * transitionRefreshInterval h /\
    transitionTime h <= Locking.slept tr < transitionTime h + transitionRefreshInterval h.
Proof.
  intros L1 L2 L3 L4 HR HD Hfuel.
  pose proof (steps_of_ceiling h HD HR) as Hs.
  assert (Hdm : transitionTime h <= ceiling_steps h * transitionRefreshInterval h
                < transitionTime h + transitionRefreshInterval h).
  { unfold ceiling_steps.
    pose proof (Z.div_mod (transitionTime h + transitionRefreshInterval h - 1)
                  (transitionRefreshInterval h) ltac:(lia)) as Hdm.
    pose proof (Z.mod_pos_bound (transitionTime h + transitionRefreshInterval h - 1)
                  (transitionRefreshInterval h) ltac:(lia)) as Hb.
    lia. }
  assert (Hn : ceiling_steps h <= INT_MAX).
  { unfold INT_MAX. destruct Hs as (Hn & _). nia. }
  destruct (transitionBoth_steps fuel h leftFrom rightFrom _ L1 L2 L3 L4 Hs Hn Hfuel)
    as (tr & E & Hlen).
  exists tr. split; [exact E|].
  pose proof (transitionBoth_paced fuel h leftFrom rightFrom) as Hp.
  rewrite E in Hp. cbn [snd] in Hp.
  assert (Hsl : Locking.slept tr = ceiling_steps h * transitionRefreshInterval h)
    by (rewrite Hp, slept_paced, Hlen; reflexivity).
  rewrite Hsl. split; [reflexivity | exact Hdm].
Qed.

Lemma transition_duration_witness :
  exists tr,
    transitionBoth 2 (fading 10 15 white) black black
      = (Done (transition_handler (fading 10 15 white)), tr) /\
    Locking.slept tr
      = ceiling_steps (fading 10 15 white) * transitionRefreshInterval (fading 10 15 white) /\
    transitionTime (fading 10 15 white) <= Locking.slept tr
      < transitionTime (fading 10 15 white) + transitionRefreshInterval (fading 10 15 white).
Proof.
  apply (transition_duration 2 (fading 10 15 white) black black); try reflexivity;
    cbn; lia.
Defined.

(** * The loop of the worker *)

(** X9. An iteration of the worker that runs a transition asks each
    pattern for its color twice, first for the target of the transition
    and then for the sample; an iteration without a transition asks
    once. The colors the worker keeps, and pushes last, are the sample:
    the colors the transition ended with are dropped. *)
Theorem iteration_pattern_calls (fuel : nat) (h h' : RgbLightHandler) (w w' : locals)
    (tr : trace) :
  worker_iteration fuel h w = (Done (h', w'), tr) ->
  let n := if patternsChanged h && transitionsEnabled h then 2%nat else 1%nat in
  calls (patternLeft h') = (calls (patternLeft h) + n)%nat /\
  calls (patternRight h') = (calls (patternRight h) + n)%nat /\
  colorLeft w' = colorAt (patternLeft h) (calls (patternLeft h) + n - 1) /\
  colorRight w' = colorAt (patternRight h) (calls (patternRight h) + n - 1) /\
  last (pushes tr) = Some (colorLeft w', colorRight w').
Proof.
  intros E.
  destruct (worker_iteration_done _ _ _ _ _ _ E)
    as (h1 & tr1 & [(-> & -> & Ec) | (-> & Ec & Et)] & -> & -> & ->);
    rewrite Ec; cbv zeta; rewrite sample_eq; cbn [fst snd colorLeft colorRight];
    rewrite pushes_app; unfold target; cbn.
  - repeat split; try (f_equal; lia).
  - rewrite last_snoc. repeat split; try (f_equal; lia).
Qed.

Lemma iteration_pattern_calls_witness :
  let r := worker_iteration 3 (fading 10 5 white) worker_locals in
  let h := fading 10 5 white in
  let h' := fst (returned (h, worker_locals) (fst r)) in
  let w' := snd (returned (h, worker_locals) (fst r)) in
  calls (patternLeft h') = (calls (patternLeft h) + 2)%nat /\
  calls (patternRight h') = (calls (patternRight h) + 2)%nat /\
  colorLeft w' = colorAt (patternLeft h) (calls (patternLeft h) + 2 - 1) /\
  colorRight w' = colorAt (patternRight h) (calls (patternRight h) + 2 - 1) /\
  last (pushes (snd r)) = Some (colorLeft w', colorRight w').
Proof.
  cbv zeta.
  apply (iteration_pattern_calls 3 (fading 10 5 white) _ worker_locals _
           (snd (worker_iteration 3 (fading 10 5 white) worker_locals))).
  vm_compute. reflexivity.
Defined.

Lemma worker_loop_O (fuel : nat) (h : RgbLightHandler) (w : locals) :
  worker_loop O fuel h w = if isRunning h then (OutOfFuel, []) else (Done h, []).
Proof. reflexivity. Qed.

Lemma worker_loop_S (ticks fuel : nat) (h : RgbLightHandler) (w : locals) :
  worker_loop (S ticks) fuel h w =
    if isRunning h then
      match worker_iteration fuel h w with
      | (Done (h', w'), tr) =>
          let '(o, tr') := worker_loop ticks fuel h' w' in (o, tr ++ tr')
      | (OutOfFuel, tr) => (OutOfFuel, tr)
      | (Undefined, tr) => (Undefined, tr)
      end
    else (Done h, []).
Proof. reflexivity. Qed.



Lemma worker_loop_ticks (ticks : nat) :
  forall (fuel : nat) (h0 h : RgbLightHandler) (w : locals) (j : nat),
    isRunning h = true ->
    patternsChanged h && transitionsEnabled h = false ->
    colorAt (patternLeft h) = colorAt (patternLeft h0) ->
    colorAt (patternRight h) = colorAt (patternRight h0) ->
    refreshInterval (patternLeft h) = refreshInterval (patternLeft h0) ->
    refreshInterval (patternRight h) = refreshInterval (patternRight h0) ->
    calls (patternLeft h) = (calls (patternLeft h0) + j)%nat ->
    calls (patternRight h) = (calls (patternRight h0) + j)%nat ->
    worker_loop ticks fuel h w = (OutOfFuel, flat_map (tick h0) (seq j ticks)).
Proof.
  induction ticks as [|ticks IH]; intros fuel h0 h w j Hrun Hc A B C D E F.
  - rewrite worker_loop_O, Hrun. reflexivity.
  - rewrite worker_loop_S, Hrun, (worker_iteration_plain _ _ _ Hc), sample_eq.
    cbn [fst snd].
    rewrite (IH fuel h0 (transition_handler h) _ (S j)); try assumption.
    + cbn [seq flat_map]. unfold tick at 2, target. cbn [getColor fst].
      rewrite A, B, C, D, E, F. reflexivity.
    + cbn. rewrite E. lia.
    + cbn. rewrite F. lia.
Qed.

Lemma flat_map_replicate {A} (l : list A) (f : nat -> list A) (n : nat) :
  forall j, (forall k, f k = l) -> flat_map f (seq j n) = concat (replicate n l).
Proof.
  induction n as [|n IH]; intros j Hf; [reflexivity|].
  cbn [seq flat_map replicate concat]. rewrite Hf, (IH (S j) Hf). reflexivity.
Qed.

(** X10. Left alone, the worker advances each pattern by one call per
    iteration as long as no transition is due: its [k]-th iteration
    pushes the [k]-th next color of either pattern and sleeps the
    smaller of the two refresh intervals; the loop does not end by
    itself. *)
Theorem worker_steady_ticks (ticks fuel : nat) (h : RgbLightHandler) (w : locals) :
  isRunning h = true ->
  patternsChanged h && transitionsEnabled h = false ->
  worker_loop ticks fuel h w = (OutOfFuel, flat_map (tick h) (seq 0 ticks)).
Proof.
  intros Hrun Hc. apply worker_loop_ticks; try assumption; try reflexivity; lia.
Qed.

Lemma worker_steady_ticks_witness :
  worker_loop 3 0 (snapping half_red) worker_locals
    = (OutOfFuel, flat_map (tick (snapping half_red)) (seq 0 3)).
Proof. apply (worker_steady_ticks 3 0 (snapping half_red) worker_locals); reflexivity. Defined.

(** X11. A handler fresh from either constructor can be started, and
    once started it pushes its default color on both sides at every
    iteration and sleeps the interval of the constant pattern, whatever
    the transition timings are: no transition runs before a pattern is
    replaced. *)
Theorem fresh_handler_ticks (ticks fuel : nat) (u : unassigned) (refresh : Z)
    (defaultColor : color) (transitionRefreshInterval transitionTime : Z) :
  (exists h,
     start (new_RgbLightHandler u refresh defaultColor) = Some h /\
     worker ticks fuel h
       = (OutOfFuel,
          concat (replicate ticks [SetRgbw defaultColor defaultColor; Sleep refresh]))) /\
  (exists h,
     start (new_RgbLightHandler_transitions u refresh defaultColor
              transitionRefreshInterval transitionTime) = Some h /\
     worker ticks fuel h
       = (OutOfFuel,
          concat (replicate ticks [SetRgbw defaultColor defaultColor; Sleep refresh]))).
Proof.
  split; (eexists; split; [reflexivity|]); unfold worker, worker_start; cbn [fst snd].
  all: erewrite worker_loop_ticks with (j := 0%nat) (h0 := set_workerThread true _);
    try reflexivity.
  all: f_equal; apply flat_map_replicate; intros k; unfold tick; cbn;
    rewrite Z.min_id; reflexivity.
Qed.



(** * More of the pattern lock *)

Section LockMore.
Import Locking.

Lemma transition_enter_handler (h h' : RgbLightHandler) (lf rf : color) (pc : worker_pc) :
  transition_enter h lf rf = (h', pc) ->
  h' = transition_handler h /\ pc <> Sample /\ pc <> Unlock /\ pc <> Exited.
Proof.
  unfold transition_enter. cbn [getColor].
  destruct (F32.eqb _ _); [intros [= <- <-]; repeat split; discriminate|].
  destruct (delta_loop _ _ _ _ _ _ _ _ _) as [[ld rd]|]; intros [= <- <-];
    repeat split; discriminate.
Qed.

Lemma configuration_apply_call (c : call) (h : RgbLightHandler) :
  configuration (apply_call c h) = configuration h /\
  isRunning (apply_call c h) = isRunning h.
Proof. destruct c; split; reflexivity. Qed.

Lemma configuration_step (s s' : system) :
  step s s' -> configuration (handler s') = configuration (handler s).
Proof.
  intros Hstep. destruct Hstep; cbn [handler]; try reflexivity.
  - apply transition_enter_handler in H0 as (-> & _). reflexivity.
  - rewrite sample_eq in H. injection H as <- _ _. reflexivity.
  - apply configuration_apply_call.
Qed.

Lemma sample_invariant_step (s s' : system) :
  lock_invariant s -> sample_invariant s -> step s s' -> sample_invariant s'.
Proof.
  intros [Hw Hc] Hinv Hstep. unfold sample_invariant in *.
  destruct Hstep; cbn [wpc handler mutex callers] in *;
    try (intros [E|E]; discriminate E); try exact Hinv.
  - (* no transition is due *)
    intros _ He. rewrite He, andb_true_r in H. exact H.
  - (* the worker enters transitionBoth *)
    apply transition_enter_handler in H0 as (_ & N1 & N2 & _).
    intros [E|E]; contradiction.
  - (* the flag is cleared *)
    intros _ _. reflexivity.
  - (* the patterns are sampled *)
    rewrite sample_eq in H. injection H as <- _ _. intros _. apply Hinv. left. reflexivity.
  - (* a caller releases the lock: the worker is not in its critical section *)
    specialize (Hc k c H). intros E.
    assert (Hcrit : critical pc = true) by (destruct E as [-> | ->]; reflexivity).
    apply Hw in Hcrit. congruence.
Qed.

Lemma exit_invariant_step (s s' : system) :
  exit_invariant s -> step s s' -> exit_invariant s'.
Proof.
  intros Hinv Hstep. unfold exit_invariant in *.
  destruct Hstep; cbn [wpc handler] in *; try discriminate; try exact Hinv.
  - intros _. assumption.
  - apply transition_enter_handler in H0 as (_ & _ & _ & N). intros E. contradiction.
  - intros E. rewrite (proj2 (configuration_apply_call c h)). apply Hinv, E.
  - intros _. reflexivity.
Qed.

Lemma more_invariants_reachable (h : RgbLightHandler) (s : system) :
  reachable h s ->
  configuration (handler s) = configuration h /\ sample_invariant s /\ exit_invariant s.
Proof.
  unfold reachable. intros H. apply rtc_nsteps in H. destruct H as [n H].
  revert s H. induction n as [|n IH]; intros s H.
  - inversion H; subst. split; [reflexivity|]. split.
    + intros [E|E]; discriminate E.
    + intros E. discriminate E.
  - apply nsteps_inv_r in H. destruct H as (s0 & H0 & Hs).
    destruct (IH s0 H0) as (I1 & I2 & I3).
    assert (Hreach : reachable h s0) by (eapply rtc_nsteps_2; exact H0).
    destruct (invariants_reachable h s0 Hreach) as [Hlock _].
    split; [rewrite (configuration_step _ _ Hs); exact I1|]. split.
    + eapply sample_invariant_step; eassumption.
    + eapply exit_invariant_step; eassumption.
Qed.

Lemma exited_step (s s' : system) :
  wpc s = Exited -> step s s' -> wpc s' = Exited /\ sink s' = sink s.
Proof.
  intros E Hstep. destruct Hstep; cbn [wpc sink] in *; try discriminate E; split;
    try reflexivity; exact E.
Qed.

(** X13. In every state the two threads' model can reach, whatever the
    interleaving: a caller is inside a replacement call only while the
    worker is outside its critical section, at most one caller is inside
    at a time, and the worker does not hold the lock while it pushes the
    sample or sleeps between iterations. *)
Theorem mutual_exclusion (h0 : RgbLightHandler) (s : system) :
  reachable h0 s ->
  (forall k c, callers s !! k = Some (InCritical c) ->
     critical (wpc s) = false /\
     forall k' c', callers s !! k' = Some (InCritical c') -> k' = k) /\
  (critical (wpc s) = true -> mutex s = Some Worker) /\
  (wpc s = Push \/ wpc s = Sleeping \/ wpc s = LoopTest -> mutex s <> Some Worker).
Proof.
  intros Hreach. destruct (invariants_reachable h0 s Hreach) as [[Hw Hc] _].
  split; [|split].
  - intros k c H. pose proof (Hc k c H) as Hm. split.
    + destruct (critical (wpc s)); [|reflexivity].
      rewrite (proj1 Hw eq_refl) in Hm. discriminate Hm.
    + intros k' c' H'. pose proof (Hc k' c' H') as Hm'. congruence.
  - apply Hw.
  - intros E Hm. apply Hw in Hm. destruct E as [E | [E | E]]; rewrite E in Hm; discriminate Hm.
Qed.

Lemma mutual_exclusion_witness :
  (forall k c, callers (entered 10 100) !! k = Some (InCritical c) ->
     critical (wpc (entered 10 100)) = false /\
     forall k' c', callers (entered 10 100) !! k' = Some (InCritical c') -> k' = k) /\
  (critical (wpc (entered 10 100)) = true -> mutex (entered 10 100) = Some Worker) /\
  (wpc (entered 10 100) = Push \/ wpc (entered 10 100) = Sleeping \/
   wpc (entered 10 100) = LoopTest -> mutex (entered 10 100) <> Some Worker).
Proof.
  apply (mutual_exclusion (scenario_handler 10 100) (entered 10 100)).
  apply entered_reachable. reflexivity.
Defined.

(** X14. No step of any thread changes what the constructor fixed:
    whether transitions are enabled, the transition interval and the
    transition duration, and so the quotient of a transition, are in
    every reachable state those of the handler the worker was started
    on. *)
Theorem configuration_fixed (h0 : RgbLightHandler) (s : system) :
  reachable h0 s ->
  transitionsEnabled (handler s) = transitionsEnabled h0 /\
  transitionRefreshInterval (handler s) = transitionRefreshInterval h0 /\
  transitionTime (handler s) = transitionTime h0 /\
  maxi_of (handler s) = maxi_of h0.
Proof.
  intros Hreach. destruct (more_invariants_reachable h0 s Hreach) as (E & _).
  unfold configuration in E. injection E as E1 E2 E3.
  unfold maxi_of. rewrite E2, E3. repeat split; assumption.
Qed.

Lemma configuration_fixed_witness :
  transitionsEnabled (handler (entered 10 100))
    = transitionsEnabled (scenario_handler 10 100) /\
  transitionRefreshInterval (handler (entered 10 100))
    = transitionRefreshInterval (scenario_handler 10 100) /\
  transitionTime (handler (entered 10 100)) = transitionTime (scenario_handler 10 100) /\
  maxi_of (handler (entered 10 100)) = maxi_of (scenario_handler 10 100).
Proof.
  apply (configuration_fixed (scenario_handler 10 100) (entered 10 100)).
  apply entered_reachable. reflexivity.
Defined.

(** X15. With transitions enabled, the worker samples the patterns only
    with a clear flag: whenever it stands between the sample and the
    unlock, every replacement applied so far has been through a
    transition, and no replacement can be applied before the unlock. *)
Theorem sample_after_transition (h0 : RgbLightHandler) (s : system) :
  reachable h0 s ->
  transitionsEnabled h0 = true ->
  wpc s = Sample \/ wpc s = Unlock ->
  patternsChanged (handler s) = false /\
  mutex s = Some Worker /\
  forall k c, callers s !! k <> Some (InCritical c).
Proof.
  intros Hreach He Hpc.
  destruct (more_invariants_reachable h0 s Hreach) as (E & Hs & _).
  destruct (invariants_reachable h0 s Hreach) as [[Hw Hc] _].
  unfold configuration in E. injection E as E1 _ _.
  assert (Hm : mutex s = Some Worker)
    by (apply Hw; destruct Hpc as [-> | ->]; reflexivity).
  split; [apply Hs; [exact Hpc | congruence]|]. split; [exact Hm|].
  intros k c H. apply Hc in H. congruence.
Qed.

Lemma sampling_reachable (h : RgbLightHandler) :
  patternsChanged h && transitionsEnabled h = false -> reachable h (sampling h).
Proof.
  intros E. unfold reachable.
  eapply rtc_l; [apply step_loop_enter; reflexivity|].
  eapply rtc_l; [apply step_worker_lock|].
  eapply rtc_l; [apply step_check_skip; exact E|].
  apply rtc_refl.
Qed.

Lemma sample_after_transition_witness :
  patternsChanged (handler (sampling (new_RgbLightHandler_transitions junk 20 black 10 100)))
    = false /\
  mutex (sampling (new_RgbLightHandler_transitions junk 20 black 10 100)) = Some Worker /\
  forall k c,
    callers (sampling (new_RgbLightHandler_transitions junk 20 black 10 100)) !! k
      <> Some (InCritical c).
Proof.
  apply (sample_after_transition (new_RgbLightHandler_transitions junk 20 black 10 100)
           (sampling (new_RgbLightHandler_transitions junk 20 black 10 100))).
  - apply sampling_reachable. reflexivity.
  - reflexivity.
  - left. reflexivity.
Defined.

Lemma stopped_reachable (h : RgbLightHandler) : reachable h (stopped h).
Proof.
  unfold reachable.
  eapply rtc_l; [apply step_stop_request|].
  eapply rtc_l; [apply step_loop_exit; reflexivity|].
  apply rtc_refl.
Qed.

(** X16. The worker leaves its loop only after [isRunning] was cleared,
    and the worker thread that has left is silent for good: whatever
    the callers of the replacement calls and of [stop()] do afterwards,
    it pushes and sleeps nothing more, the lock is never its own again,
    and [isRunning] stays false. The threads of the model do not call
    [start()] again: that would make a new worker thread, which sets
    [isRunning] and pushes anew. *)
Theorem exited_worker_is_silent (h0 : RgbLightHandler) (s s' : system) :
  reachable h0 s ->
  wpc s = Exited ->
  rtc step s s' ->
  isRunning (handler s) = false /\
  wpc s' = Exited /\
  sink s' = sink s /\
  isRunning (handler s') = false /\
  mutex s' <> Some Worker.
Proof.
  intros Hreach Hpc Hrtc.
  assert (Hreach' : reachable h0 s') by (unfold reachable in *; etransitivity; eassumption).
  destruct (more_invariants_reachable h0 s Hreach) as (_ & _ & Hx).
  destruct (more_invariants_reachable h0 s' Hreach') as (_ & _ & Hx').
  destruct (invariants_reachable h0 s' Hreach') as [[Hw _] _].
  assert (H : wpc s' = Exited /\ sink s' = sink s).
  { clear Hreach Hreach' Hx Hx' Hw.
    induction Hrtc as [s | s s1 s' Hstep _ IH]; [split; [exact Hpc | reflexivity]|].
    destruct (exited_step s s1 Hpc Hstep) as [E1 E2].
    destruct (IH E1) as [E3 E4]. split; congruence. }
  destruct H as [E1 E2].
  split; [apply Hx, Hpc|]. split; [exact E1|]. split; [exact E2|].
  split; [apply Hx', E1|].
  intros Hm. apply Hw in Hm. rewrite E1 in Hm. discriminate Hm.
Qed.

Lemma exited_worker_is_silent_witness :
  let s := stopped (new_RgbLightHandler junk 20 black) in
  let s' := System (handler s) (mutex s) (wpc s) (wlocals s)
              (callers s ++ [AtLock waiting_call]) (sink s) in
  isRunning (handler s) = false /\
  wpc s' = Exited /\
  sink s' = sink s /\
  isRunning (handler s') = false /\
  mutex s' <> Some Worker.
Proof.
  cbv zeta.
  apply (exited_worker_is_silent (new_RgbLightHandler junk 20 black)).
  - apply stopped_reachable.
  - reflexivity.
  - apply rtc_once. apply step_call.
Defined.

End LockMore.

(** * Stopping twice *)

Section Stopping.
Import Locking.







End Stopping.


(** * The handler's objects in memory *)

(** ** Cells of the memory *)

Lemma live_app (m m' : Heap.memory) : Heap.live (m ++ m') = (Heap.live m + Heap.live m')%nat.
Proof. induction m as [|[o|] m IH]; cbn; rewrite ?IH; reflexivity. Qed.

Lemma live_delete (m : Heap.memory) :
  forall (a : Heap.ptr) (o : Heap.object),
    m !! a = Some (Some o) -> S (Heap.live (<[a := None]> m)) = Heap.live m.
Proof.
  induction m as [|c m IH]; intros a o H; [discriminate H|].
  destruct a as [|a].
  - injection H as ->. reflexivity.
  - change (m !! a = Some (Some o)) in H.
    change (<[S a := None]> (c :: m)) with (c :: <[a := None]> m).
    destruct c; cbn [Heap.live]; rewrite <- (IH a o H); reflexivity.
Qed.

Lemma new_spec (o : Heap.object) (m : Heap.memory) :
  snd (Heap.new o m) !! fst (Heap.new o m) = Some (Some o) /\
  (forall a c, m !! a = Some c -> snd (Heap.new o m) !! a = Some c) /\
  (forall a c, m !! a = Some c -> a <> fst (Heap.new o m)) /\
  Heap.live (snd (Heap.new o m)) = S (Heap.live m).
Proof.
  unfold Heap.new. cbn [fst snd]. split; [|split; [|split]].
  - rewrite lookup_app_r by lia. rewrite Nat.sub_diag. reflexivity.
  - intros a c H. apply lookup_app_l_Some. exact H.
  - intros a c H. apply lookup_lt_Some in H. lia.
  - rewrite live_app. cbn. lia.
Qed.

Lemma delete_spec (a : Heap.ptr) (o : Heap.object) (m : Heap.memory) :
  m !! a = Some (Some o) ->
  exists m',
    Heap.delete (Some a) m = Some m' /\
    m' !! a = Some None /\
    (forall b, b <> a -> m' !! b = m !! b) /\
    S (Heap.live m') = Heap.live m.
Proof.
  intros H. exists (<[a := None]> m). unfold Heap.delete. rewrite H.
  split; [reflexivity|]. split; [|split].
  - apply list_lookup_insert_eq. apply lookup_lt_Some in H. exact H.
  - intros b Hb. apply list_lookup_insert_ne. congruence.
  - eapply live_delete. exact H.
Qed.

Lemma clone_spec (pattern : Heap.ptr) (p : RgbLightPattern) (m : Heap.memory) :
  m !! pattern = Some (Some (Heap.Pattern p)) ->
  exists a m',
    Heap.clone pattern m = Some (a, m') /\
    m' !! a = Some (Some (Heap.Pattern (clone p))) /\
    (forall b c, m !! b = Some c -> m' !! b = Some c) /\
    (forall b c, m !! b = Some c -> b <> a) /\
    Heap.live m' = S (Heap.live m).
Proof.
  intros H. unfold Heap.clone. rewrite H.
  destruct (new_spec (Heap.Pattern (clone p)) m) as (A & B & C & D).
  destruct (Heap.new (Heap.Pattern (clone p)) m) as [a m']. cbn [fst snd] in *.
  exists a, m'. repeat split; assumption.
Qed.

Lemma clone_deleted (pattern : Heap.ptr) (m : Heap.memory) :
  m !! pattern = Some None -> Heap.clone pattern m = None.
Proof. intros H. unfold Heap.clone. rewrite H. reflexivity. Qed.

(** ** The replacement calls *)

Lemma setPatternLeft_eq (h : Heap.RgbLightHandler) (m : Heap.memory) (l : Heap.ptr)
    (o : Heap.object) (pattern : Heap.ptr) (p : RgbLightPattern) :
  Heap.patternLeft h = Some l -> m !! l = Some (Some o) ->
  m !! pattern = Some (Some (Heap.Pattern p)) -> pattern <> l ->
  Heap.setPatternLeft pattern h m =
    Some (Heap.replaced (Some (length m)) (Heap.patternRight h) h,
          <[l := None]> m ++ [Some (Heap.Pattern (clone p))]).
Proof.
  intros Hl Ho Hp Hne. unfold Heap.setPatternLeft, Heap.delete, Heap.clone, Heap.new.
  rewrite Hl, Ho. cbn [mbind option_bind]. 
  rewrite list_lookup_insert_ne by congruence. rewrite Hp, length_insert. reflexivity.
Qed.

Lemma setPatternRight_eq (h : Heap.RgbLightHandler) (m : Heap.memory) (r : Heap.ptr)
    (o : Heap.object) (pattern : Heap.ptr) (p : RgbLightPattern) :
  Heap.patternRight h = Some r -> m !! r = Some (Some o) ->
  m !! pattern = Some (Some (Heap.Pattern p)) -> pattern <> r ->
  Heap.setPatternRight pattern h m =
    Some (Heap.replaced (Heap.patternLeft h) (Some (length m)) h,
          <[r := None]> m ++ [Some (Heap.Pattern (clone p))]).
Proof.
  intros Hr Ho Hp Hne. unfold Heap.setPatternRight, Heap.delete, Heap.clone, Heap.new.
  rewrite Hr, Ho. cbn [mbind option_bind]. 
  rewrite list_lookup_insert_ne by congruence. rewrite Hp, length_insert. reflexivity.
Qed.

Lemma setPatterns_eq (h : Heap.RgbLightHandler) (m : Heap.memory) (l r : Heap.ptr)
    (o o' : Heap.object) (pattern : Heap.ptr) (p : RgbLightPattern) :
  Heap.patternLeft h = Some l -> Heap.patternRight h = Some r ->
  m !! l = Some (Some o) -> m !! r = Some (Some o') -> l <> r ->
  m !! pattern = Some (Some (Heap.Pattern p)) -> pattern <> l -> pattern <> r ->
  Heap.setPatterns pattern h m =
    Some (Heap.replaced (Some (length m)) (Some (S (length m))) h,
          (<[r := None]> (<[l := None]> m) ++ [Some (Heap.Pattern (clone p))])
            ++ [Some (Heap.Pattern (clone p))]).
Proof.
  intros Hl Hr Ho Ho' Hlr Hp Hnl Hnr.
  unfold Heap.setPatterns, Heap.delete, Heap.clone, Heap.new.
  rewrite Hl, Hr, Ho. cbn [mbind option_bind]. 
  rewrite (list_lookup_insert_ne m l r) by congruence. rewrite Ho'. cbn [mbind option_bind].
  rewrite !list_lookup_insert_ne by congruence. rewrite Hp. cbn [mbind option_bind].
  rewrite lookup_app_l by (rewrite !length_insert; apply lookup_lt_Some in Hp; exact Hp).
  rewrite !list_lookup_insert_ne by congruence. rewrite Hp. cbn [mbind option_bind].
  rewrite length_app, !length_insert. cbn [length].
  replace (length m + 1)%nat with (S (length m)) by lia. reflexivity.
Qed.

(** Cells of a memory after a [delete] and a [new]. *)
Lemma lookup_old (m : list (option Heap.object)) (l b : nat) (x c : option Heap.object) :
  b <> l -> m !! b = Some c -> (<[l := None]> m ++ [x]) !! b = Some c.
Proof.
  intros Hne H. apply lookup_app_l_Some. rewrite list_lookup_insert_ne by congruence. exact H.
Qed.

Lemma lookup_new (m : list (option Heap.object)) (l : nat) (x : option Heap.object) :
  (<[l := None]> m ++ [x]) !! length m = Some x.
Proof.
  rewrite lookup_app_r by (rewrite length_insert; lia).
  rewrite length_insert, Nat.sub_diag. reflexivity.
Qed.

Lemma live_replaced (m : list (option Heap.object)) (l : nat) (o o' : Heap.object) :
  m !! l = Some (Some o) -> Heap.live (<[l := None]> m ++ [Some o']) = Heap.live m.
Proof.
  intros H. rewrite live_app, <- (live_delete m l o H).
  change (Heap.live [Some o']) with 1%nat. rewrite Nat.add_1_r. reflexivity.
Qed.

Lemma owns_kinds (h : Heap.RgbLightHandler) (m : Heap.memory) :
  Heap.owns h m ->
  exists l r d pl pr,
    Heap.patternLeft h = Some l /\ Heap.patternRight h = Some r /\ Heap.pwmDriver h = Some d /\
    m !! l = Some (Some (Heap.Pattern pl)) /\
    m !! r = Some (Some (Heap.Pattern pr)) /\
    m !! d = Some (Some Heap.Driver) /\
    l <> r /\ l <> d /\ r <> d /\
    (l < length m)%nat /\ (r < length m)%nat /\ (d < length m)%nat.
Proof.
  intros (l & r & d & pl & pr & Hl & Hr & Hd & Ml & Mr & Md & Hlr).
  exists l, r, d, pl, pr. repeat split; try assumption.
  - intros ->. congruence.
  - intros ->. congruence.
  - apply lookup_lt_Some in Ml. exact Ml.
  - apply lookup_lt_Some in Mr. exact Mr.
  - apply lookup_lt_Some in Md. exact Md.
Qed.

Lemma setPatternLeft_owns (pattern : Heap.ptr) (p : RgbLightPattern)
    (h : Heap.RgbLightHandler) (m : Heap.memory) :
  Heap.owns h m -> m !! pattern = Some (Some (Heap.Pattern p)) ->
  Heap.patternLeft h <> Some pattern ->
  exists l,
    Heap.patternLeft h = Some l /\
    Heap.setPatternLeft pattern h m =
      Some (Heap.replaced (Some (length m)) (Heap.patternRight h) h,
            <[l := None]> m ++ [Some (Heap.Pattern (clone p))]) /\
    Heap.owns (Heap.replaced (Some (length m)) (Heap.patternRight h) h)
      (<[l := None]> m ++ [Some (Heap.Pattern (clone p))]).
Proof.
  intros Ho Hp Hne.
  destruct (owns_kinds h m Ho)
    as (l & r & d & pl & pr & Hl & Hr & Hd & Ml & Mr & Md & Hlr & Hld & Hrd & Ll & Lr & Ld).
  exists l. split; [exact Hl|]. split.
  - eapply setPatternLeft_eq; try eassumption. congruence.
  - exists (length m), r, d, (clone p), pr. rewrite Hr. cbn [Heap.replaced Heap.patternLeft
      Heap.patternRight Heap.pwmDriver].
    repeat split; try assumption; try reflexivity.
    + apply lookup_new.
    + apply lookup_old; [congruence | exact Mr].
    + apply lookup_old; [congruence | exact Md].
    + lia.
Qed.

Lemma setPatternRight_owns (pattern : Heap.ptr) (p : RgbLightPattern)
    (h : Heap.RgbLightHandler) (m : Heap.memory) :
  Heap.owns h m -> m !! pattern = Some (Some (Heap.Pattern p)) ->
  Heap.patternRight h <> Some pattern ->
  exists r,
    Heap.patternRight h = Some r /\
    Heap.setPatternRight pattern h m =
      Some (Heap.replaced (Heap.patternLeft h) (Some (length m)) h,
            <[r := None]> m ++ [Some (Heap.Pattern (clone p))]) /\
    Heap.owns (Heap.replaced (Heap.patternLeft h) (Some (length m)) h)
      (<[r := None]> m ++ [Some (Heap.Pattern (clone p))]).
Proof.
  intros Ho Hp Hne.
  destruct (owns_kinds h m Ho)
    as (l & r & d & pl & pr & Hl & Hr & Hd & Ml & Mr & Md & Hlr & Hld & Hrd & Ll & Lr & Ld).
  exists r. split; [exact Hr|]. split.
  - eapply setPatternRight_eq; try eassumption. congruence.
  - exists l, (length m), d, pl, (clone p). rewrite Hl. cbn [Heap.replaced Heap.patternLeft
      Heap.patternRight Heap.pwmDriver].
    repeat split; try assumption; try reflexivity.
    + apply lookup_old; [congruence | exact Ml].
    + apply lookup_new.
    + apply lookup_old; [congruence | exact Md].
    + lia.
Qed.

Lemma setPatterns_owns (pattern : Heap.ptr) (p : RgbLightPattern)
    (h : Heap.RgbLightHandler) (m : Heap.memory) :
  Heap.owns h m -> m !! pattern = Some (Some (Heap.Pattern p)) ->
  Heap.patternLeft h <> Some pattern -> Heap.patternRight h <> Some pattern ->
  exists l r,
    Heap.patternLeft h = Some l /\ Heap.patternRight h = Some r /\
    Heap.setPatterns pattern h m =
      Some (Heap.replaced (Some (length m)) (Some (S (length m))) h,
            (<[r := None]> (<[l := None]> m) ++ [Some (Heap.Pattern (clone p))])
              ++ [Some (Heap.Pattern (clone p))]) /\
    Heap.owns (Heap.replaced (Some (length m)) (Some (S (length m))) h)
      ((<[r := None]> (<[l := None]> m) ++ [Some (Heap.Pattern (clone p))])
         ++ [Some (Heap.Pattern (clone p))]).
Proof.
  intros Ho Hp Hnl Hnr.
  destruct (owns_kinds h m Ho)
    as (l & r & d & pl & pr & Hl & Hr & Hd & Ml & Mr & Md & Hlr & Hld & Hrd & Ll & Lr & Ld).
  exists l, r. split; [exact Hl|]. split; [exact Hr|]. split.
  - eapply setPatterns_eq; try eassumption; congruence.
  - exists (length m), (S (length m)), d, (clone p), (clone p).
    cbn [Heap.replaced Heap.patternLeft Heap.patternRight Heap.pwmDriver].
    repeat split; try assumption; try reflexivity.
    + apply lookup_app_l_Some.
      rewrite <- (length_insert m l None), <- (length_insert (<[l := None]> m) r None).
      rewrite lookup_app_r by lia. rewrite Nat.sub_diag. reflexivity.
    + rewrite lookup_app_r by (rewrite length_app, !length_insert; cbn; lia).
      rewrite length_app, !length_insert. cbn [length].
      replace (S (length m) - (length m + 1))%nat with 0%nat by lia. reflexivity.
    + apply lookup_app_l_Some, lookup_app_l_Some.
      rewrite !list_lookup_insert_ne by congruence. exact Md.
    + lia.
Qed.

Lemma live_replaced_twice (m : list (option Heap.object)) (l r : nat) (o o' x y : Heap.object) :
  m !! l = Some (Some o) -> m !! r = Some (Some o') -> l <> r ->
  Heap.live ((<[r := None]> (<[l := None]> m) ++ [Some x]) ++ [Some y]) = Heap.live m.
Proof.
  intros Hl Hr Hlr. rewrite live_app.
  rewrite (live_replaced (<[l := None]> m) r o' x)
    by (rewrite list_lookup_insert_ne by congruence; exact Hr).
  rewrite <- live_app. apply (live_replaced m l o y Hl).
Qed.

Lemma abstract_replaced (h : Heap.RgbLightHandler) (m m' : Heap.memory)
    (left right : option Heap.ptr) (pl pr pl' pr' : RgbLightPattern) :
  Heap.pattern_at (Heap.patternLeft h) m = Some pl ->
  Heap.pattern_at (Heap.patternRight h) m = Some pr ->
  Heap.pattern_at left m' = Some pl' ->
  Heap.pattern_at right m' = Some pr' ->
  abstract (Heap.replaced left right h) m' =
    option_map (fun hv => set_patternsChanged true (set_patternRight pr' (set_patternLeft pl' hv)))
      (abstract h m).
Proof.
  intros A B C D. unfold abstract.
  cbn [Heap.replaced Heap.patternLeft Heap.patternRight Heap.patternsChanged
       Heap.transitionsEnabled Heap.transitionRefreshInterval Heap.transitionTime
       Heap.isRunning Heap.workerThread].
  rewrite A, B, C, D. reflexivity.
Qed.

Lemma pattern_at_Some (a : Heap.ptr) (m : Heap.memory) (p : RgbLightPattern) :
  m !! a = Some (Some (Heap.Pattern p)) -> Heap.pattern_at (Some a) m = Some p.
Proof. intros H. unfold Heap.pattern_at. rewrite H. reflexivity. Qed.

(** X17. A replacement call given a pointer to a living pattern that is
    not the pattern it deletes is well defined and keeps the memory in
    order: afterwards the handler again owns two distinct living
    patterns and its driver, as many objects live as before (one
    deleted and one cloned per side), the caller's pattern is still the
    caller's, and the handler's patterns are what the call of the
    model of values installs. *)
Theorem replacement_keeps_ownership (pattern : Heap.ptr) (p : RgbLightPattern)
    (h : Heap.RgbLightHandler) (m : Heap.memory) (hv : RgbLightHandler) :
  Heap.owns h m ->
  m !! pattern = Some (Some (Heap.Pattern p)) ->
  abstract h m = Some hv ->
  (Heap.patternLeft h <> Some pattern ->
   exists h' m',
     Heap.setPatternLeft pattern h m = Some (h', m') /\
     Heap.owns h' m' /\ Heap.live m' = Heap.live m /\
     m' !! pattern = Some (Some (Heap.Pattern p)) /\
     abstract h' m' = Some (setPatternLeft p hv)) /\
  (Heap.patternRight h <> Some pattern ->
   exists h' m',
     Heap.setPatternRight pattern h m = Some (h', m') /\
     Heap.owns h' m' /\ Heap.live m' = Heap.live m /\
     m' !! pattern = Some (Some (Heap.Pattern p)) /\
     abstract h' m' = Some (setPatternRight p hv)) /\
  (Heap.patternLeft h <> Some pattern -> Heap.patternRight h <> Some pattern ->
   exists h' m',
     Heap.setPatterns pattern h m = Some (h', m') /\
     Heap.owns h' m' /\ Heap.live m' = Heap.live m /\
     m' !! pattern = Some (Some (Heap.Pattern p)) /\
     abstract h' m' = Some (setPatterns p hv)).
Proof.
  intros Ho Hp Ha.
  destruct (owns_kinds h m Ho)
    as (l & r & d & pl & pr & Hl & Hr & Hd & Ml & Mr & Md & Hlr & Hld & Hrd & Ll & Lr & Ld).
  assert (Al : Heap.pattern_at (Heap.patternLeft h) m = Some pl)
    by (rewrite Hl; apply pattern_at_Some, Ml).
  assert (Ar : Heap.pattern_at (Heap.patternRight h) m = Some pr)
    by (rewrite Hr; apply pattern_at_Some, Mr).
  assert (Hv : hv = {| patternLeft := pl; patternRight := pr;
                       patternsChanged := Heap.patternsChanged h;
                       transitionsEnabled := Heap.transitionsEnabled h;
                       transitionRefreshInterval := Heap.transitionRefreshInterval h;
                       transitionTime := Heap.transitionTime h;
                       isRunning := Heap.isRunning h;
                       workerThread := Heap.workerThread h |}).
  { unfold abstract in Ha. rewrite Al, Ar in Ha. cbn [mbind option_bind] in Ha.
    injection Ha as <-. reflexivity. }
  split; [|split].
  - intros Hne.
    destruct (setPatternLeft_owns pattern p h m Ho Hp Hne) as (l' & Hl' & E & Ho').
    assert (l' = l) by congruence. subst l'.
    eexists _, _. split; [exact E|]. split; [exact Ho'|]. split; [|split].
    + eapply live_replaced, Ml.
    + apply lookup_old; [congruence | exact Hp].
    + rewrite (abstract_replaced h m _ _ _ pl pr (clone p) pr Al Ar).
      * rewrite Ha, Hv. reflexivity.
      * apply pattern_at_Some, lookup_new.
      * rewrite Hr. apply pattern_at_Some, lookup_old; [congruence | exact Mr].
  - intros Hne.
    destruct (setPatternRight_owns pattern p h m Ho Hp Hne) as (r' & Hr' & E & Ho').
    assert (r' = r) by congruence. subst r'.
    eexists _, _. split; [exact E|]. split; [exact Ho'|]. split; [|split].
    + eapply live_replaced, Mr.
    + apply lookup_old; [congruence | exact Hp].
    + rewrite (abstract_replaced h m _ _ _ pl pr pl (clone p) Al Ar).
      * rewrite Ha, Hv. reflexivity.
      * rewrite Hl. apply pattern_at_Some, lookup_old; [congruence | exact Ml].
      * apply pattern_at_Some, lookup_new.
  - intros Hnl Hnr.
    destruct (setPatterns_owns pattern p h m Ho Hp Hnl Hnr) as (l' & r' & Hl' & Hr' & E & Ho').
    assert (l' = l) by congruence. assert (r' = r) by congruence. subst l' r'.
    eexists _, _. split; [exact E|]. split; [exact Ho'|]. split; [|split].
    + eapply live_replaced_twice; eassumption.
    + apply lookup_app_l_Some, lookup_app_l_Some.
      rewrite !list_lookup_insert_ne by congruence. exact Hp.
    + destruct Ho' as (l2 & r2 & d2 & pl2 & pr2 & E1 & E2 & _ & M1 & M2 & _).
      cbn [Heap.replaced Heap.patternLeft Heap.patternRight] in E1, E2.
      injection E1 as <-. injection E2 as <-.
      assert (pl2 = clone p /\ pr2 = clone p) as [-> ->].
      { split.
        - assert (X : (<[r := None]> (<[l := None]> m) ++ [Some (Heap.Pattern (clone p))]) !! length m
                      = Some (Some (Heap.Pattern (clone p)))).
          { rewrite <- (length_insert m l None), <- (length_insert (<[l := None]> m) r None).
            rewrite lookup_app_r by lia. rewrite Nat.sub_diag. reflexivity. }
          rewrite (lookup_app_l_Some _ _ _ _ X) in M1. congruence.
        - rewrite lookup_app_r in M2 by (rewrite length_app, !length_insert; cbn; lia).
          rewrite length_app, !length_insert in M2. cbn [length] in M2.
          replace (S (length m) - (length m + 1))%nat with 0%nat in M2 by lia.
          cbn in M2. congruence. }
      rewrite (abstract_replaced h m _ _ _ pl pr (clone p) (clone p) Al Ar).
      * rewrite Ha, Hv. reflexivity.
      * apply pattern_at_Some, M1.
      * apply pattern_at_Some, M2.
Qed.

Lemma built_owns : Heap.owns (fst built) (snd built).
Proof.
  exists 1%nat, 2%nat, 3%nat, (RgbLightConstant 20 black), (RgbLightConstant 20 black).
  repeat split; try reflexivity. discriminate.
Qed.

Lemma replacement_keeps_ownership_witness :
  exists h' m',
    Heap.setPatternLeft 0 (fst built) (snd built) = Some (h', m') /\
    Heap.owns h' m' /\ Heap.live m' = Heap.live (snd built) /\
    m' !! 0%nat = Some (Some (Heap.Pattern (RgbLightConstant 20 white))) /\
    abstract h' m' =
      Some (setPatternLeft (RgbLightConstant 20 white) (new_RgbLightHandler junk 20 black)).
Proof.
  apply (proj1 (replacement_keeps_ownership 0 (RgbLightConstant 20 white) (fst built)
                  (snd built) (new_RgbLightHandler junk 20 black)
                  built_owns eq_refl eq_refl)).
  discriminate.
Defined.

(** X18. A replacement call deletes the old pattern before it clones the
    new one. Given a pointer to the very pattern it deletes, the call
    clones a deleted object: undefined behaviour. *)
Theorem replacement_by_own_pattern (pattern : Heap.ptr) (h : Heap.RgbLightHandler)
    (m : Heap.memory) :
  Heap.owns h m ->
  (Heap.patternLeft h = Some pattern ->
   Heap.setPatternLeft pattern h m = None /\ Heap.setPatterns pattern h m = None) /\
  (Heap.patternRight h = Some pattern ->
   Heap.setPatternRight pattern h m = None /\ Heap.setPatterns pattern h m = None).
Proof.
  intros Ho.
  destruct (owns_kinds h m Ho)
    as (l & r & d & pl & pr & Hl & Hr & Hd & Ml & Mr & Md & Hlr & Hld & Hrd & Ll & Lr & Ld).
  split; intros E; rewrite E in *.
  - injection Hl as ->. split.
    + unfold Heap.setPatternLeft, Heap.delete. rewrite E, Ml. cbn [mbind option_bind].
      rewrite clone_deleted; [reflexivity|]. apply list_lookup_insert_eq, Ll.
    + unfold Heap.setPatterns, Heap.delete. rewrite E, Hr, Ml. cbn [mbind option_bind].
      rewrite list_lookup_insert_ne by congruence. rewrite Mr. cbn [mbind option_bind].
      rewrite clone_deleted; [reflexivity|].
      rewrite list_lookup_insert_ne by congruence. apply list_lookup_insert_eq, Ll.
  - injection Hr as ->. split.
    + unfold Heap.setPatternRight, Heap.delete. rewrite E, Mr. cbn [mbind option_bind].
      rewrite clone_deleted; [reflexivity|]. apply list_lookup_insert_eq, Lr.
    + unfold Heap.setPatterns, Heap.delete. rewrite E, Hl, Ml. cbn [mbind option_bind].
      rewrite list_lookup_insert_ne by congruence. rewrite Mr. cbn [mbind option_bind].
      rewrite clone_deleted; [reflexivity|].
      apply list_lookup_insert_eq. rewrite length_insert. exact Lr.
Qed.

Lemma replacement_by_own_pattern_witness :
  Heap.setPatternLeft 1 (fst built) (snd built) = None /\
  Heap.setPatterns 1 (fst built) (snd built) = None.
Proof.
  apply (proj1 (replacement_by_own_pattern 1 (fst built) (snd built) built_owns)).
  reflexivity.
Defined.

(** ** Construction and destruction *)

Lemma constructors_apart (u : unassigned) (interval : Z) (defaultColor : color)
    (transitionRefreshInterval transitionTime : Z) (m : Heap.memory) :
  let b := Heap.new_RgbLightHandler u interval defaultColor m in
  let b' := Heap.new_RgbLightHandler_transitions u interval defaultColor
              transitionRefreshInterval transitionTime m in
  (apart m (fst b) (snd b) /\
   abstract (fst b) (snd b) = Some (new_RgbLightHandler u interval defaultColor)) /\
  (apart m (fst b') (snd b') /\
   abstract (fst b') (snd b') =
     Some (new_RgbLightHandler_transitions u interval defaultColor
             transitionRefreshInterval transitionTime)).
Proof.
  cbv zeta.
  assert (L0 : forall x y z : option Heap.object, (((m ++ [x]) ++ [y]) ++ [z]) !! length m = Some x).
  { intros x y z. apply lookup_app_l_Some, lookup_app_l_Some.
    rewrite lookup_app_r by lia. rewrite Nat.sub_diag. reflexivity. }
  assert (L1 : forall x y z : option Heap.object,
             (((m ++ [x]) ++ [y]) ++ [z]) !! length (m ++ [x]) = Some y).
  { intros x y z. apply lookup_app_l_Some.
    rewrite lookup_app_r by lia. rewrite Nat.sub_diag. reflexivity. }
  assert (L2 : forall x y z : option Heap.object,
             (((m ++ [x]) ++ [y]) ++ [z]) !! length ((m ++ [x]) ++ [y]) = Some z).
  { intros x y z. rewrite lookup_app_r by lia. rewrite Nat.sub_diag. reflexivity. }
  assert (Hap : forall h x y,
            Heap.patternLeft h = Some (length m) ->
            Heap.patternRight h = Some (length (m ++ [Some (Heap.Pattern x)])) ->
            Heap.pwmDriver h =
              Some (length ((m ++ [Some (Heap.Pattern x)]) ++ [Some (Heap.Pattern y)])) ->
            apart m h (((m ++ [Some (Heap.Pattern x)]) ++ [Some (Heap.Pattern y)])
                         ++ [Some Heap.Driver])).
  { intros h x y Hl Hr Hd. split; [|split; [|split]].
    - exists (length m), (length (m ++ [Some (Heap.Pattern x)])),
        (length ((m ++ [Some (Heap.Pattern x)]) ++ [Some (Heap.Pattern y)])), x, y.
      repeat split; try assumption; [apply L0 | apply L1 | apply L2 |].
      rewrite length_app. cbn. lia.
    - rewrite !live_app. cbn. lia.
    - intros a. rewrite Hl, Hr, Hd, !length_app. cbn [length].
      intros [[= <-] | [[= <-] | [= <-]]]; lia.
    - intros a o H. apply lookup_app_l_Some, lookup_app_l_Some, lookup_app_l_Some, H. }
  split; (split; [apply Hap; reflexivity|]).
  - unfold abstract, Heap.pattern_at, Heap.new_RgbLightHandler, Heap.new. cbn [fst snd
      Heap.patternLeft Heap.patternRight Heap.patternsChanged Heap.transitionsEnabled
      Heap.transitionRefreshInterval Heap.transitionTime Heap.isRunning Heap.workerThread].
    rewrite L0, L1. reflexivity.
  - unfold abstract, Heap.pattern_at, Heap.new_RgbLightHandler_transitions, Heap.new.
    cbn [fst snd
      Heap.patternLeft Heap.patternRight Heap.patternsChanged Heap.transitionsEnabled
      Heap.transitionRefreshInterval Heap.transitionTime Heap.isRunning Heap.workerThread].
    rewrite L0, L1. reflexivity.
Qed.

Lemma stop_pointers (h : Heap.RgbLightHandler) :
  Heap.patternLeft (fst (Heap.stop h)) = Heap.patternLeft h /\
  Heap.patternRight (fst (Heap.stop h)) = Heap.patternRight h /\
  Heap.pwmDriver (fst (Heap.stop h)) = Heap.pwmDriver h.
Proof.
  unfold Heap.stop. destruct (Heap.isRunning h), (Heap.workerThread h); repeat split.
Qed.

(** After [stop()] the thread is joinable only if it was and
    [isRunning] was false. *)
Lemma stop_thread (h : Heap.RgbLightHandler) :
  Heap.workerThread (fst (Heap.stop h)) = Heap.workerThread h && negb (Heap.isRunning h).
Proof.
  unfold Heap.stop.
  destruct (Heap.isRunning h) eqn:R, (Heap.workerThread h) eqn:T; cbn [fst Heap.workerThread];
    rewrite ?T; reflexivity.
Qed.

Lemma destructor_eq (h : Heap.RgbLightHandler) (m : Heap.memory) (d : Heap.ptr)
    (o : Heap.object) :
  Heap.pwmDriver h = Some d -> m !! d = Some (Some o) ->
  Heap.delete (Heap.pwmDriver h) m = Some (<[d := None]> m) /\
  Heap.destructor h m =
    if Heap.workerThread h && negb (Heap.isRunning h) then None
    else Some (snd (Heap.stop h), <[d := None]> m).
Proof.
  intros Hd Md. unfold Heap.destructor.
  pose proof (stop_pointers h) as (_ & _ & E). pose proof (stop_thread h) as T.
  destruct (Heap.stop h) as [h1 joins]. cbn [fst snd] in *.
  unfold Heap.delete. rewrite E, Hd, Md, T. split; [reflexivity|].
  destruct (Heap.workerThread h && negb (Heap.isRunning h)); reflexivity.
Qed.




(** ** A whole life *)

Lemma apply_call_apart (m0 : Heap.memory) (c : Heap.call) (h : Heap.RgbLightHandler)
    (m : Heap.memory) (p : RgbLightPattern) :
  apart m0 h m ->
  m0 !! Heap.argument c = Some (Some (Heap.Pattern p)) ->
  exists h' m', Heap.apply_call c h m = Some (h', m') /\ apart m0 h' m'.
Proof.
  intros (Ho & Hlive & Hptr & Hcells) Hp0.
  pose proof (Hcells _ _ Hp0) as Hp.
  pose proof (lookup_lt_Some _ _ _ Hp0) as Lp.
  destruct (owns_kinds h m Ho)
    as (l & r & d & pl & pr & Hl & Hr & Hd & Ml & Mr & Md & Hlr & Hld & Hrd & Ll & Lr & Ld).
  pose proof (Hptr l (or_introl Hl)) as Bl.
  pose proof (Hptr r (or_intror (or_introl Hr))) as Br.
  pose proof (Hptr d (or_intror (or_intror Hd))) as Bd.
  destruct c as [a | a | a]; cbn [Heap.argument Heap.apply_call] in *.
  - destruct (setPatternLeft_owns a p h m Ho Hp) as (l' & Hl' & E & Ho');
      [rewrite Hl; intros [= ->]; lia|].
    assert (l' = l) by congruence. subst l'.
    eexists _, _. split; [exact E|]. split; [exact Ho'|]. split; [|split].
    + rewrite (live_replaced m l _ _ Ml). exact Hlive.
    + cbn [Heap.replaced Heap.patternLeft Heap.patternRight Heap.pwmDriver].
      intros b [[= <-] | [H | H]]; [lia | apply Hptr; auto ..].
    + intros b o H. apply lookup_old; [|apply Hcells, H].
      apply lookup_lt_Some in H. lia.
  - destruct (setPatternRight_owns a p h m Ho Hp) as (r' & Hr' & E & Ho');
      [rewrite Hr; intros [= ->]; lia|].
    assert (r' = r) by congruence. subst r'.
    eexists _, _. split; [exact E|]. split; [exact Ho'|]. split; [|split].
    + rewrite (live_replaced m r _ _ Mr). exact Hlive.
    + cbn [Heap.replaced Heap.patternLeft Heap.patternRight Heap.pwmDriver].
      intros b [H | [[= <-] | H]]; [apply Hptr; auto | lia | apply Hptr; auto].
    + intros b o H. apply lookup_old; [|apply Hcells, H].
      apply lookup_lt_Some in H. lia.
  - destruct (setPatterns_owns a p h m Ho Hp) as (l' & r' & Hl' & Hr' & E & Ho');
      [rewrite Hl; intros [= ->]; lia | rewrite Hr; intros [= ->]; lia |].
    assert (l' = l) by congruence. assert (r' = r) by congruence. subst l' r'.
    eexists _, _. split; [exact E|]. split; [exact Ho'|]. split; [|split].
    + rewrite (live_replaced_twice m l r _ _ _ _ Ml Mr Hlr). exact Hlive.
    + cbn [Heap.replaced Heap.patternLeft Heap.patternRight Heap.pwmDriver].
      intros b [[= <-] | [[= <-] | H]]; [lia | lia | apply Hptr; auto].
    + intros b o H. apply lookup_app_l_Some, lookup_app_l_Some.
      pose proof (lookup_lt_Some _ _ _ H) as Lb.
      rewrite !list_lookup_insert_ne by lia. apply Hcells, H.
Qed.

Lemma apply_calls_apart (m0 : Heap.memory) (cs : list Heap.call) :
  forall (h : Heap.RgbLightHandler) (m : Heap.memory),
    apart m0 h m ->
    Forall (fun c => exists p, m0 !! Heap.argument c = Some (Some (Heap.Pattern p))) cs ->
    exists h' m', Heap.apply_calls cs h m = Some (h', m') /\ apart m0 h' m'.
Proof.
  induction cs as [|c cs IH]; intros h m Ha Hcs.
  - exists h, m. split; [reflexivity | exact Ha].
  - apply Forall_cons in Hcs as [[p Hp] Hcs].
    destruct (apply_call_apart m0 c h m p Ha Hp) as (h1 & m1 & E & Ha1).
    destruct (IH h1 m1 Ha1 Hcs) as (h2 & m2 & E2 & Ha2).
    exists h2, m2. split; [|exact Ha2].
    cbn [Heap.apply_calls]. rewrite E. exact E2.
Qed.

(** No replacement call touches the thread. *)
Lemma apply_calls_thread (cs : list Heap.call) :
  forall (h h' : Heap.RgbLightHandler) (m m' : Heap.memory),
    Heap.apply_calls cs h m = Some (h', m') ->
    Heap.workerThread h' = Heap.workerThread h.
Proof.
  induction cs as [|c cs IH]; intros h h' m m' E.
  - injection E as <- _. reflexivity.
  - cbn [Heap.apply_calls] in E.
    destruct (Heap.apply_call c h m) as [[h1 m1]|] eqn:Ec; [|discriminate E].
    cbn [mbind option_bind] in E. rewrite (IH _ _ _ _ E).
    destruct c; cbn [Heap.apply_call] in Ec;
      unfold Heap.setPatternLeft, Heap.setPatternRight, Heap.setPatterns in Ec;
      repeat match type of Ec with
             | context [Heap.delete ?p ?x] => destruct (Heap.delete p x); [|discriminate Ec]
             | context [Heap.clone ?p ?x] =>
                 destruct (Heap.clone p x) as [[? ?]|]; [|discriminate Ec]
             | _ => cbn [mbind option_bind] in Ec
             end;
      injection Ec as <- _; reflexivity.
Qed.

(** X20. A handler that is constructed, has its patterns replaced any
    number of times by calls given living patterns of the caller, and
    is destroyed, runs without undefined behaviour, leaves the
    caller's objects as they were, and leaves two more objects
    allocated than there were before: its last two patterns, which are
    two objects made after the caller's and still alive. *)
Theorem handler_life (u : unassigned) (interval : Z) (defaultColor : color)
    (cs : list Heap.call) (m : Heap.memory) :
  Forall (fun c => exists p, m !! Heap.argument c = Some (Some (Heap.Pattern p))) cs ->
  exists joins m',
    Heap.life u interval defaultColor cs m = Some (joins, m') /\
    Heap.live m' = (Heap.live m + 2)%nat /\
    (forall a o, m !! a = Some o -> m' !! a = Some o) /\
    exists h' m2 l r,
      Heap.before_destructor u interval defaultColor cs m = Some (h', m2) /\
      Heap.patternLeft h' = Some l /\ Heap.patternRight h' = Some r /\
      l <> r /\ (length m <= l)%nat /\ (length m <= r)%nat /\
      is_Some (Heap.pattern_at (Some l) m') /\
      is_Some (Heap.pattern_at (Some r) m').
Proof.
  intros Hcs. unfold Heap.life, Heap.before_destructor.
  destruct (constructors_apart u interval defaultColor 0 0 m) as [[Ha _] _].
  assert (Ht : Heap.workerThread (fst (Heap.new_RgbLightHandler u interval defaultColor m))
               = false) by reflexivity.
  destruct (Heap.new_RgbLightHandler u interval defaultColor m) as [h m1].
  cbn [fst snd] in Ha, Ht.
  destruct (apply_calls_apart m cs h m1 Ha Hcs) as (h' & m2 & E & Ho & Hlive & Hptr & Hcells).
  rewrite E. cbn [mbind option_bind].
  destruct (owns_kinds h' m2 Ho)
    as (l & r & d & pl & pr & Hl & Hr & Hd & Ml & Mr & Md & Hlr & Hld & Hrd & _).
  rewrite (proj2 (destructor_eq h' m2 d _ Hd Md)), (apply_calls_thread _ _ _ _ _ E), Ht.
  eexists _, _. split; [reflexivity|]. split; [|split].
  - pose proof (live_delete m2 d _ Md) as H. lia.
  - intros a o H. rewrite list_lookup_insert_ne; [apply Hcells, H|].
    pose proof (Hptr d (or_intror (or_intror Hd))). apply lookup_lt_Some in H. lia.
  - exists h', m2, l, r. split; [reflexivity|]. split; [exact Hl|]. split; [exact Hr|].
    split; [exact Hlr|]. split; [apply Hptr; auto|]. split; [apply Hptr; auto|]. split.
    + exists pl. apply pattern_at_Some. rewrite list_lookup_insert_ne by congruence. exact Ml.
    + exists pr. apply pattern_at_Some. rewrite list_lookup_insert_ne by congruence. exact Mr.
Qed.

Lemma handler_life_witness :
  exists joins m',
    Heap.life junk 20 black [Heap.CallLeft 0; Heap.CallBoth 0] caller_memory
      = Some (joins, m') /\
    Heap.live m' = (Heap.live caller_memory + 2)%nat /\
    (forall a o, caller_memory !! a = Some o -> m' !! a = Some o) /\
    exists h' m2 l r,
      Heap.before_destructor junk 20 black [Heap.CallLeft 0; Heap.CallBoth 0] caller_memory
        = Some (h', m2) /\
      Heap.patternLeft h' = Some l /\ Heap.patternRight h' = Some r /\
      l <> r /\ (length caller_memory <= l)%nat /\ (length caller_memory <= r)%nat /\
      is_Some (Heap.pattern_at (Some l) m') /\
      is_Some (Heap.pattern_at (Some r) m').
Proof.
  apply (handler_life junk 20 black [Heap.CallLeft 0; Heap.CallBoth 0] caller_memory).
  repeat constructor; eexists; reflexivity.
Defined.

(** * Rounding and the direction of a transition *)

(** ** Rounding in general *)

Lemma valid_finite (s : bool) (m : positive) (e : Z) :
  F32.valid (S754_finite s m e) = true <->
  fexp 24 128 (Z.pos (digits2_pos m) + e) = e /\ e <= 104.
Proof.
  unfold F32.valid, valid_binary, bounded, canonical_mantissa, F32.prec, F32.emax.
  rewrite andb_true_iff, Z.eqb_eq, Z.leb_le. change (128 - 24) with 104. reflexivity.
Qed.

(** The rounding step on a mantissa that needs no shift to the left:
    the mantissa is cut at the exponent [F] of its format, rounded to
    [M], and [M] is the mantissa of the result, unless it has outgrown
    24 digits. The result is a member of the format. *)
Lemma binary_round_aux_general (sx : bool) (mx ex : Z) (lx : location) :
  0 <= mx ->
  ex <= fexp 24 128 (Zdigits2 mx + ex) ->
  exists M,
    (M = mx / 2 ^ (fexp 24 128 (Zdigits2 mx + ex) - ex) \/
     M = mx / 2 ^ (fexp 24 128 (Zdigits2 mx + ex) - ex) + 1) /\
    (lx = loc_Exact -> fexp 24 128 (Zdigits2 mx + ex) = ex -> M = mx) /\
    (-149 < fexp 24 128 (Zdigits2 mx + ex) -> 2 ^ 23 <= M) /\
    match binary_round_aux 24 128 sx mx ex lx with
    | S754_zero s => s = sx /\ M = 0
    | S754_finite s m e =>
        s = sx /\ F32.valid (S754_finite s m e) = true /\
        (e = fexp 24 128 (Zdigits2 mx + ex) /\ Z.pos m = M \/
         e = fexp 24 128 (Zdigits2 mx + ex) + 1 /\ m = 8388608%positive /\ M = 2 ^ 24)
    | S754_infinity s =>
        s = sx /\
        (104 < fexp 24 128 (Zdigits2 mx + ex) /\ 0 < M \/
         fexp 24 128 (Zdigits2 mx + ex) = 104 /\ M = 2 ^ 24)
    | S754_nan => False
    end.
Proof.
  intros Hm Hex. unfold binary_round_aux.
  pose proof (shr_fexp_spec 24 128 mx ex lx Hm) as [He1 Hm1].
  destruct (shr_fexp 24 128 mx ex lx) as [mrs' e'] eqn:E1. cbn [fst snd] in He1, Hm1.
  set (F := fexp 24 128 (Zdigits2 mx + ex)) in *.
  assert (HF : F = Z.max (Zdigits2 mx + ex - 24) (-149)) by (subst F; apply fexp32).
  assert (He' : e' = F) by lia. rewrite He' in *. clear He' He1.
  set (M := round_nearest_even (shr_m mrs') (loc_of_shr_record mrs')).
  pose proof (Zdigits2_nonneg mx) as Hd0.
  pose proof (Zdigits2_upper mx Hm) as Hup.
  assert (Hp : 0 < 2 ^ (F - ex)) by (apply Z.pow_pos_nonneg; lia).
  assert (Ha : 0 <= shr_m mrs' < 2 ^ 24).
  { rewrite Hm1. split; [apply Z.div_pos; lia|].
    apply Z.div_lt_upper_bound; [lia|].
    rewrite Z.mul_comm, <- Z.pow_add_r by lia.
    eapply Z.lt_le_trans; [exact Hup|]. apply Z.pow_le_mono_r; lia. }
  assert (Hb : -149 < F -> 2 ^ 23 <= shr_m mrs').
  { intros HFn. assert (Hk : F - ex = Zdigits2 mx - 24) by lia.
    assert (0 < mx) by (destruct mx; [cbn in *; lia | lia | lia]).
    pose proof (Zdigits2_lower mx ltac:(lia)) as Hlo.
    rewrite Hm1. apply Z.div_le_lower_bound; [lia|].
    rewrite Z.mul_comm, <- Z.pow_add_r by lia.
    replace (23 + (F - ex)) with (Zdigits2 mx - 1) by lia. exact Hlo. }
  assert (HM : M = shr_m mrs' \/ M = shr_m mrs' + 1)
    by (subst M; apply round_nearest_even_cases).
  assert (HM0 : 0 <= M <= 2 ^ 24) by lia.
  exists M. split; [rewrite <- Hm1; exact HM|]. split.
  { intros -> HFe. unfold shr_fexp in E1. fold F in E1.
    replace (F - ex) with 0 in E1 by lia. cbn [shr] in E1. injection E1 as <- _.
    subst M. reflexivity. }
  split; [intros HFn; specialize (Hb HFn); lia|].
  pose proof (shr_fexp_spec 24 128 M F loc_Exact ltac:(lia)) as [He2 Hm2].
  destruct (shr_fexp 24 128 M F loc_Exact) as [mrs'' e''] eqn:E2. cbn [fst snd] in He2, Hm2.
  rewrite fexp32 in He2.
  destruct (Z.eq_dec M (2 ^ 24)) as [Heq | Hne].
  - assert (Hd : Zdigits2 M = 25) by (rewrite Heq; reflexivity).
    assert (He'' : e'' = F + 1) by lia.
    rewrite Hm2, He'', Heq. replace (F + 1 - F) with 1 by lia.
    change (2 ^ 24 / 2 ^ 1) with (Z.pos 8388608).
    destruct (F + 1 <=? 128 - 24) eqn:E4.
    + apply Z.leb_le in E4. split; [reflexivity|]. split.
      * apply valid_finite. split; [|lia]. rewrite fexp32.
        change (Z.pos (digits2_pos 8388608)) with 24. lia.
      * right. repeat split.
    + apply Z.leb_gt in E4. split; [reflexivity | lia].
  - assert (Hd : Zdigits2 M <= 24) by (apply Zdigits2_le; lia).
    assert (He'' : e'' = F) by lia.
    rewrite Hm2, He'', Z.sub_diag, Z.div_1_r.
    destruct M as [|p|p] eqn:EM; [split; reflexivity| |lia].
    destruct (F <=? 128 - 24) eqn:E4.
    + apply Z.leb_le in E4. split; [reflexivity|]. split.
      * apply valid_finite. split; [|lia]. rewrite fexp32.
        change (Z.pos (digits2_pos p)) with (Zdigits2 (Z.pos p)).
        destruct (Z.eq_dec F (-149)) as [E149 | N149]; [lia|].
        assert (Zdigits2 (Z.pos p) = 24) by (apply Zdigits2_unique; lia).
        lia.
      * left. split; reflexivity.
    + apply Z.leb_gt in E4. split; [reflexivity | lia].
Qed.

Lemma shl_align_none (mx : positive) (ex ex' : Z) : ex <= ex' -> shl_align mx ex ex' = (mx, ex).
Proof.
  intros H. unfold shl_align. destruct (ex' - ex) as [|d|d] eqn:E; [reflexivity ..|lia].
Qed.

(** Rounding a positive mantissa at an exponent: exact when the
    mantissa has to be shifted to the left. *)
Lemma binary_round_exact (s : bool) (mx : positive) (ex : Z) :
  fexp 24 128 (Z.pos (digits2_pos mx) + ex) < ex ->
  ex <= 104 ->
  exists mz,
    binary_round 24 128 s mx ex
      = S754_finite s mz (fexp 24 128 (Z.pos (digits2_pos mx) + ex)) /\
    F32.valid (S754_finite s mz (fexp 24 128 (Z.pos (digits2_pos mx) + ex))) = true.
Proof.
  intros HF Hex. unfold binary_round.
  set (F := fexp 24 128 (Z.pos (digits2_pos mx) + ex)) in *.
  pose proof (shl_align_spec mx ex F) as [He Hz].
  destruct (shl_align mx ex F) as [mz ez]. cbn [fst snd] in He, Hz.
  assert (Hez : ez = F) by lia. clear He. subst ez.
  assert (Hdz : Zdigits2 (Z.pos mz) + F = Z.pos (digits2_pos mx) + ex).
  { rewrite Hz. rewrite Zdigits2_mul_pow2 by lia.
    change (Zdigits2 (Z.pos mx)) with (Z.pos (digits2_pos mx)). lia. }
  assert (HFz : fexp 24 128 (Zdigits2 (Z.pos mz) + F) = F) by (rewrite Hdz; reflexivity).
  destruct (binary_round_aux_general s (Z.pos mz) F loc_Exact ltac:(lia) ltac:(lia))
    as (M & _ & HM & _ & Hres).
  specialize (HM eq_refl HFz). subst M. rewrite HFz in Hres.
  assert (Hlt : Z.pos mz < 2 ^ 24).
  { pose proof (Zdigits2_upper (Z.pos mz) ltac:(lia)) as Hup.
    pose proof (Zdigits2_nonneg (Z.pos mz)) as Hn.
    eapply Z.lt_le_trans; [exact Hup|]. apply Z.pow_le_mono_r; [lia|].
    rewrite fexp32 in HFz. lia. }
  destruct (binary_round_aux 24 128 s (Z.pos mz) F loc_Exact) as [s'|s'| |s' m e].
  - lia.
  - exfalso. lia.
  - contradiction.
  - destruct Hres as (-> & Hv & [[-> Hm] | (_ & _ & Hm)]); [|lia].
    injection Hm as ->. exists mz. split; [reflexivity | exact Hv].
Qed.

Lemma binary_round_sign (s : bool) (mx : positive) (ex : Z) :
  match binary_round 24 128 s mx ex with
  | S754_zero s' | S754_infinity s' | S754_finite s' _ _ => s' = s
  | S754_nan => False
  end.
Proof.
  unfold binary_round. destruct (shl_align mx ex _) as [mz ez].
  pose proof (binary_round_aux_shape s (Z.pos mz) ez loc_Exact ltac:(lia)) as H.
  destruct (binary_round_aux 24 128 s (Z.pos mz) ez loc_Exact); tauto.
Qed.

(** ** Comparison of positive numbers *)

Lemma leb_finite_pos (m1 m2 : positive) (e1 e2 : Z) :
  F32.leb (S754_finite false m1 e1) (S754_finite false m2 e2) = true <->
  e1 < e2 \/ e1 = e2 /\ Z.pos m1 <= Z.pos m2.
Proof.
  unfold F32.leb, SFleb. rewrite SFcompare_finite_pos.
  change (Pos.compare_cont Eq m1 m2) with (Pos.compare m1 m2).
  destruct (Z.compare_spec e1 e2) as [E | E | E].
  - destruct (Pos.compare_spec m1 m2) as [Em | Em | Em]; split; try (intros; lia);
      try discriminate; try (intros _; right; split; [assumption | lia]).
  - split; [intros _; left; assumption | reflexivity].
  - split; [discriminate | intros; lia].
Qed.

(** ** Sums *)

Lemma valid_finite_bounds (s : bool) (m : positive) (e : Z) :
  F32.valid (S754_finite s m e) = true ->
  fexp 24 128 (Z.pos (digits2_pos m) + e) = e /\ -149 <= e <= 104 /\
  Z.pos m < 2 ^ 24 /\ (-149 < e -> 2 ^ 23 <= Z.pos m).
Proof.
  intros H. apply valid_finite in H as [Hc He]. split; [exact Hc|].
  rewrite fexp32 in Hc.
  pose proof (digits2_pos_upper m) as Hu. pose proof (digits2_pos_lower m) as Hl.
  split; [lia|]. split.
  - eapply Z.lt_le_trans; [exact Hu|]. apply Z.pow_le_mono_r; lia.
  - intros Hn. assert (E : Z.pos (digits2_pos m) = 24) by lia. rewrite E in Hl. exact Hl.
Qed.

Lemma binary_round_aux_of_round (s : bool) (p : positive) (ez : Z) :
  ez <= fexp 24 128 (Z.pos (digits2_pos p) + ez) ->
  binary_round 24 128 s p ez = binary_round_aux 24 128 s (Z.pos p) ez loc_Exact.
Proof. intros H. unfold binary_round. rewrite shl_align_none by exact H. reflexivity. Qed.

(** Adding a positive number to a member [x] of the format gives a
    member of the format that is not below [x], or the infinity. *)
Lemma add_up (mx md : positive) (ex ed : Z) :
  F32.valid (S754_finite false mx ex) = true ->
  F32.add (S754_finite false mx ex) (S754_finite false md ed) = S754_infinity false \/
  exists m e,
    F32.add (S754_finite false mx ex) (S754_finite false md ed) = S754_finite false m e /\
    F32.valid (S754_finite false m e) = true /\
    F32.leb (S754_finite false mx ex) (S754_finite false m e) = true.
Proof.
  intros Hv. destruct (valid_finite_bounds _ _ _ Hv) as (Hc & He & Hm24 & Hm23).
  unfold F32.add, SFadd, F32.prec, F32.emax.
  set (ez := Z.min ex ed).
  pose proof (shl_align_spec mx ex ez) as [Ex1 Ex2].
  pose proof (shl_align_spec md ed ez) as [Ed1 Ed2].
  destruct (shl_align mx ex ez) as [X ex']. destruct (shl_align md ed ez) as [D ed'].
  cbn [fst snd cond_Zopp] in *.
  assert (Hex' : ex' = ez) by (subst ez; lia). assert (Hed' : ed' = ez) by (subst ez; lia).
  rewrite Hex' in Ex2. rewrite Hed' in Ed2. clear Ex1 Ed1 Hex' Hed' ex' ed'.
  change (Z.pos X + Z.pos D) with (Z.pos (X + D)).
  change (binary_normalize 24 128 (Z.pos (X + D)) ez false)
    with (binary_round 24 128 false (X + D) ez).
  assert (Hk : 0 <= ex - ez) by (subst ez; lia).
  assert (Hpk : 0 < 2 ^ (ex - ez)) by (apply Z.pow_pos_nonneg; lia).
  assert (HdX : Zdigits2 (Z.pos X) = Z.pos (digits2_pos mx) + (ex - ez)).
  { rewrite Ex2, Zdigits2_mul_pow2 by lia. reflexivity. }
  assert (Hdp : Zdigits2 (Z.pos X) <= Zdigits2 (Z.pos (X + D)))
    by (apply Zdigits2_mono; lia).
  change (Zdigits2 (Z.pos (X + D))) with (Z.pos (digits2_pos (X + D))) in Hdp.
  set (F := fexp 24 128 (Z.pos (digits2_pos (X + D)) + ez)).
  assert (HF : F = Z.max (Z.pos (digits2_pos (X + D)) + ez - 24) (-149))
    by (subst F; apply fexp32).
  rewrite fexp32 in Hc.
  assert (HFx : ex <= F) by lia.
  rewrite binary_round_aux_of_round by (fold F; lia).
  destruct (binary_round_aux_general false (Z.pos (X + D)) ez loc_Exact ltac:(lia))
    as (M & HM & _ & HMn & Hres).
  { change (Zdigits2 (Z.pos (X + D))) with (Z.pos (digits2_pos (X + D))). fold F. lia. }
  change (Zdigits2 (Z.pos (X + D))) with (Z.pos (digits2_pos (X + D))) in *. fold F in HM, HMn, Hres.
  assert (HMx : F = ex -> Z.pos mx <= M).
  { intros E. rewrite E in HM.
    assert (Z.pos mx <= Z.pos (X + D) / 2 ^ (ex - ez)); [|lia].
    apply Z.div_le_lower_bound; [lia|]. rewrite Z.mul_comm, <- Ex2. lia. }
  assert (HM1 : 0 < M).
  { destruct (Z.eq_dec F ex) as [E|N]; [specialize (HMx E); lia|].
    assert (2 ^ 23 <= M) by (apply HMn; lia). lia. }
  destruct (binary_round_aux 24 128 false (Z.pos (X + D)) ez loc_Exact) as [s'|s'| |s' m e].
  - lia.
  - left. destruct Hres as [-> _]. reflexivity.
  - contradiction.
  - right. destruct Hres as (-> & Hvr & Hcase). exists m, e.
    split; [reflexivity|]. split; [exact Hvr|]. apply leb_finite_pos.
    destruct Hcase as [[-> Hm] | (-> & _ & _)]; [|left; lia].
    destruct (Z.eq_dec F ex) as [E|N]; [right | left; lia].
    split; [symmetry; exact E|]. rewrite Hm. apply HMx, E.
Qed.

(** Adding a negative number to a member [x] of the format gives
    zero, a negative number, or a member of the format that is not
    above [x]. *)
Lemma add_down (mx md : positive) (ex ed : Z) :
  F32.valid (S754_finite false mx ex) = true ->
  (exists s, F32.add (S754_finite false mx ex) (S754_finite true md ed) = S754_zero s) \/
  (exists m e, F32.add (S754_finite false mx ex) (S754_finite true md ed)
               = S754_finite true m e) \/
  F32.add (S754_finite false mx ex) (S754_finite true md ed) = S754_infinity true \/
  exists m e,
    F32.add (S754_finite false mx ex) (S754_finite true md ed) = S754_finite false m e /\
    F32.valid (S754_finite false m e) = true /\
    F32.leb (S754_finite false m e) (S754_finite false mx ex) = true.
Proof.
  intros Hv. destruct (valid_finite_bounds _ _ _ Hv) as (Hc & He & Hm24 & Hm23).
  unfold F32.add, SFadd, F32.prec, F32.emax.
  set (ez := Z.min ex ed).
  pose proof (shl_align_spec mx ex ez) as [Ex1 Ex2].
  pose proof (shl_align_spec md ed ez) as [Ed1 Ed2].
  destruct (shl_align mx ex ez) as [X ex']. destruct (shl_align md ed ez) as [D ed'].
  cbn [fst snd cond_Zopp] in *.
  assert (Hex' : ex' = ez) by (subst ez; lia). assert (Hed' : ed' = ez) by (subst ez; lia).
  rewrite Hex' in Ex2. rewrite Hed' in Ed2. clear Ex1 Ed1 Hex' Hed' ex' ed'.
  assert (Hk : 0 <= ex - ez) by (subst ez; lia).
  assert (Hez : ez <= ex) by lia.
  assert (Hpk : 0 < 2 ^ (ex - ez)) by (apply Z.pow_pos_nonneg; lia).
  destruct (Z.pos X + - Z.pos D) as [|p|p] eqn:ES.
  - left. exists false. reflexivity.
  - change (binary_normalize 24 128 (Z.pos p) ez false) with (binary_round 24 128 false p ez).
    assert (HdX : Zdigits2 (Z.pos X) = Z.pos (digits2_pos mx) + (ex - ez)).
    { rewrite Ex2, Zdigits2_mul_pow2 by lia. reflexivity. }
    assert (Hdp : Zdigits2 (Z.pos p) <= Zdigits2 (Z.pos X)) by (apply Zdigits2_mono; lia).
    change (Zdigits2 (Z.pos p)) with (Z.pos (digits2_pos p)) in Hdp.
    set (F := fexp 24 128 (Z.pos (digits2_pos p) + ez)).
    assert (HF : F = Z.max (Z.pos (digits2_pos p) + ez - 24) (-149))
      by (subst F; apply fexp32).
    rewrite fexp32 in Hc.
    assert (HFx : F <= ex) by lia.
    destruct (Z_lt_le_dec F ez) as [Hlt | Hge].
    + right. right. right.
      destruct (binary_round_exact false p ez Hlt ltac:(lia)) as (mz & E & Hvz).
      fold F in E, Hvz. exists mz, F. split; [exact E|]. split; [exact Hvz|].
      apply leb_finite_pos. left. lia.
    + rewrite binary_round_aux_of_round by (fold F; lia).
      destruct (binary_round_aux_general false (Z.pos p) ez loc_Exact ltac:(lia))
        as (M & HM & _ & HMn & Hres).
      { change (Zdigits2 (Z.pos p)) with (Z.pos (digits2_pos p)). fold F. lia. }
      change (Zdigits2 (Z.pos p)) with (Z.pos (digits2_pos p)) in *.
      fold F in HM, HMn, Hres.
      assert (HMx : F = ex -> M <= Z.pos mx).
      { intros E. rewrite E in HM.
        assert (Z.pos p / 2 ^ (ex - ez) < Z.pos mx); [|lia].
        apply Z.div_lt_upper_bound; [lia|]. rewrite Z.mul_comm, <- Ex2. lia. }
      destruct (binary_round_aux 24 128 false (Z.pos p) ez loc_Exact) as [s'|s'| |s' m e].
      * left. exists s'. reflexivity.
      * exfalso. destruct Hres as (_ & [[H1 _] | [H1 H2]]); [lia|].
        assert (F = ex) by lia. specialize (HMx H). lia.
      * contradiction.
      * right. right. right. destruct Hres as (-> & Hvr & Hcase). exists m, e.
        split; [reflexivity|]. split; [exact Hvr|]. apply leb_finite_pos.
        destruct Hcase as [[-> Hm] | (-> & -> & HM24)].
        -- destruct (Z.eq_dec F ex) as [E|N]; [right | left; lia].
           split; [exact E|]. rewrite Hm. apply HMx, E.
        -- destruct (Z.eq_dec F ex) as [E|N]; [specialize (HMx E); lia|].
           destruct (Z.eq_dec (F + 1) ex) as [E1|N1]; [right | left; lia].
           split; [exact E1|]. apply Hm23. lia.
  - change (binary_normalize 24 128 (Z.neg p) ez false) with (binary_round 24 128 true p ez).
    pose proof (binary_round_sign true p ez) as H.
    destruct (binary_round 24 128 true p ez) as [s'|s'| |s' m e].
    + left. exists s'. reflexivity.
    + right. right. left. rewrite H. reflexivity.
    + contradiction.
    + right. left. exists m, e. rewrite H. reflexivity.
Qed.

(** ** The results of the operations are members of the format *)

Lemma binary_round_valid (s : bool) (p : positive) (e : Z) :
  F32.valid (binary_round 24 128 s p e) = true.
Proof.
  unfold binary_round.
  pose proof (shl_align_spec p e (fexp 24 128 (Z.pos (digits2_pos p) + e))) as [He Hz].
  destruct (shl_align p e _) as [mz ez]. cbn [fst snd] in He, Hz.
  assert (Hk : 0 <= e - ez) by lia.
  assert (Hd : Zdigits2 (Z.pos mz) + ez = Z.pos (digits2_pos p) + e).
  { rewrite Hz, Zdigits2_mul_pow2 by lia.
    change (Zdigits2 (Z.pos p)) with (Z.pos (digits2_pos p)). lia. }
  destruct (binary_round_aux_general s (Z.pos mz) ez loc_Exact ltac:(lia))
    as (M & _ & _ & _ & Hres); [rewrite Hd; lia|].
  destruct (binary_round_aux 24 128 s (Z.pos mz) ez loc_Exact); try reflexivity.
  apply Hres.
Qed.

Lemma binary_normalize_valid (z e : Z) (s : bool) :
  F32.valid (binary_normalize 24 128 z e s) = true.
Proof. destruct z; [reflexivity | apply binary_round_valid ..]. Qed.

Lemma add_valid (x y : spec_float) :
  F32.valid x = true -> F32.valid y = true -> F32.valid (F32.add x y) = true.
Proof.
  intros Hx Hy.
  destruct x as [sx|sx| |sx mx ex], y as [sy|sy| |sy my ey]; try reflexivity;
    try assumption; try (destruct sx, sy; reflexivity).
  apply binary_normalize_valid.
Qed.

Lemma sub_valid (x y : spec_float) :
  F32.valid x = true -> F32.valid y = true -> F32.valid (F32.sub x y) = true.
Proof.
  intros Hx Hy.
  destruct x as [sx|sx| |sx mx ex], y as [sy|sy| |sy my ey]; try reflexivity;
    try assumption; try (destruct sx, sy; reflexivity).
  apply binary_normalize_valid.
Qed.

(** The quotient that [SFdiv] hands to the rounding step needs no
    shift to the left. *)
Lemma SFdiv_core_binary_exponent (m1 m2 : positive) (e1 e2 : Z) :
  let '(q, e', _) := SFdiv_core_binary 24 128 (Z.pos m1) e1 (Z.pos m2) e2 in
  0 <= q /\ e' <= fexp 24 128 (Zdigits2 q + e').
Proof.
  pose proof (SFdiv_core_binary_nonneg m1 m2 e1 e2) as Hq.
  unfold SFdiv_core_binary in *.
  change (Zdigits2 (Z.pos m1)) with (Z.pos (digits2_pos m1)) in *.
  change (Zdigits2 (Z.pos m2)) with (Z.pos (digits2_pos m2)) in *.
  set (d1 := Z.pos (digits2_pos m1)) in *. set (d2 := Z.pos (digits2_pos m2)) in *.
  set (e' := Z.min (fexp 24 128 (d1 + e1 - (d2 + e2))) (e1 - e2)) in *.
  assert (He' : e' <= Z.max (d1 + e1 - (d2 + e2) - 24) (-149) /\ e' <= e1 - e2)
    by (subst e'; rewrite fexp32; lia).
  set (s := e1 - e2 - e') in *.
  assert (Hs : 0 <= s) by (subst s; lia).
  set (m' := match s with 0 => Z.pos m1 | Z.pos _ => Z.shiftl (Z.pos m1) s | Z.neg _ => 0 end)
    in *.
  assert (Hm' : m' = Z.pos m1 * 2 ^ s).
  { subst m'. destruct s as [|p|p] eqn:Es; [lia | apply Z.shiftl_mul_pow2; lia | lia]. }
  pose proof (Z_div_mod m' (Z.pos m2) ltac:(lia)) as Hdm.
  destruct (Z.div_eucl m' (Z.pos m2)) as [q r]. cbn [fst] in Hq.
  destruct Hdm as [Hqr Hr]. split; [exact Hq|].
  rewrite fexp32.
  destruct (Z_le_gt_dec e' (-149)) as [|Hgt]; [lia|].
  assert (Hs24 : d2 - d1 + 24 <= s) by (subst s; lia).
  pose proof (digits2_pos_lower m1) as Hl1. pose proof (digits2_pos_upper m2) as Hu2.
  fold d1 in Hl1. fold d2 in Hu2.
  assert (Hd1 : 1 <= d1) by (subst d1; lia). assert (Hd2 : 1 <= d2) by (subst d2; lia).
  assert (Hbig : 2 ^ 23 * 2 ^ d2 <= m').
  { rewrite Hm'. rewrite <- Z.pow_add_r by lia.
    apply Z.le_trans with (2 ^ (d1 - 1) * 2 ^ s).
    - rewrite <- Z.pow_add_r by lia. apply Z.pow_le_mono_r; lia.
    - apply Z.mul_le_mono_nonneg_r; [apply Z.pow_nonneg; lia | exact Hl1]. }
  assert (Hq23 : 2 ^ 23 <= q).
  { destruct (Z_le_gt_dec (2 ^ 23) q) as [|Hlt]; [assumption|exfalso].
    assert (q * Z.pos m2 + r < 2 ^ 23 * 2 ^ d2); [|lia]. nia. }
  assert (24 <= Zdigits2 q) by (apply Zdigits2_ge; lia).
  lia.
Qed.

Lemma div_valid (x y : spec_float) : F32.valid (F32.div x y) = true.
Proof.
  destruct x as [sx|sx| |sx mx ex], y as [sy|sy| |sy my ey]; try reflexivity.
  unfold F32.div, SFdiv, F32.prec, F32.emax.
  pose proof (SFdiv_core_binary_exponent mx my ex ey) as H.
  destruct (SFdiv_core_binary 24 128 (Z.pos mx) ex (Z.pos my) ey) as [[q e'] l].
  destruct H as [Hq He].
  destruct (binary_round_aux_general (xorb sx sy) q e' l Hq He) as (M & _ & _ & _ & Hres).
  destruct (binary_round_aux 24 128 (xorb sx sy) q e' l); try reflexivity.
  apply Hres.
Qed.

(** ** Signs of differences and quotients *)

(** Among members of the format the comparison is the comparison of
    the numbers. *)
Lemma leb_value (m1 m2 : positive) (e1 e2 e0 : Z) :
  F32.valid (S754_finite false m1 e1) = true ->
  F32.valid (S754_finite false m2 e2) = true ->
  e0 <= e1 -> e0 <= e2 ->
  F32.leb (S754_finite false m1 e1) (S754_finite false m2 e2) = true ->
  Z.pos m1 * 2 ^ (e1 - e0) <= Z.pos m2 * 2 ^ (e2 - e0).
Proof.
  intros V1 V2 H1 H2 Hle.
  destruct (valid_finite_bounds _ _ _ V1) as (_ & He1 & Hu1 & _).
  destruct (valid_finite_bounds _ _ _ V2) as (_ & He2 & _ & Hl2).
  apply leb_finite_pos in Hle as [Hlt | [-> Hm]].
  - specialize (Hl2 ltac:(lia)).
    assert (Hp : 0 < 2 ^ (e1 - e0)) by (apply Z.pow_pos_nonneg; lia).
    replace (e2 - e0) with ((e2 - e1 - 1) + 1 + (e1 - e0)) by lia.
    rewrite !Z.pow_add_r by lia.
    assert (Hq : 0 < 2 ^ (e2 - e1 - 1)) by (apply Z.pow_pos_nonneg; lia).
    change (2 ^ 1) with 2.
    set (P := 2 ^ (e1 - e0)) in *. set (Q := 2 ^ (e2 - e1 - 1)) in *.
    change (2 ^ 24) with 16777216 in Hu1. change (2 ^ 23) with 8388608 in Hl2.
    assert (A1 : Z.pos m1 * P <= 16777216 * P) by (apply Z.mul_le_mono_nonneg_r; lia).
    assert (A2 : 16777216 * P <= Z.pos m2 * (2 * P)) by nia.
    assert (A3 : Z.pos m2 * (2 * P) <= Z.pos m2 * (Q * 2 * P)) by nia.
    lia.
  - apply Z.mul_le_mono_nonneg_r; [apply Z.pow_nonneg; lia | exact Hm].
Qed.

Lemma binary_normalize_sign (z e : Z) :
  (0 <= z -> nonneg (binary_normalize 24 128 z e false) = true) /\
  (z <= 0 -> nonpos (binary_normalize 24 128 z e false) = true).
Proof.
  destruct z as [|p|p]; cbn [binary_normalize].
  - split; reflexivity.
  - pose proof (binary_round_sign false p e) as H.
    split; [intros _ | lia].
    destruct (binary_round 24 128 false p e); try contradiction; rewrite H; reflexivity.
  - pose proof (binary_round_sign true p e) as H.
    split; [lia | intros _].
    destruct (binary_round 24 128 true p e); try contradiction; rewrite H; reflexivity.
Qed.

(** The difference of two members of the format in [0, 1] has the sign
    the comparison tells. *)
Lemma sub_sign (t f : spec_float) :
  F32.valid t = true -> F32.valid f = true ->
  F32.in_unit t = true -> F32.in_unit f = true ->
  (F32.leb f t = true -> nonneg (F32.sub t f) = true) /\
  (F32.leb t f = true -> nonpos (F32.sub t f) = true).
Proof.
  intros Vt Vf Ut Uf.
  destruct (in_unit_shape t Ut) as [[st ->] | (mt & et & -> & Het)];
    destruct (in_unit_shape f Uf) as [[sf ->] | (mf & ef & -> & Hef)].
  - destruct st, sf; split; reflexivity.
  - split; [discriminate | reflexivity].
  - split; [reflexivity | discriminate].
  - unfold F32.sub, SFsub, F32.prec, F32.emax. cbn [cond_Zopp].
    set (ez := Z.min et ef).
    pose proof (shl_align_spec mt et ez) as [Et Ht].
    pose proof (shl_align_spec mf ef ez) as [Ef Hf].
    destruct (shl_align mt et ez) as [mt' et']. destruct (shl_align mf ef ez) as [mf' ef'].
    cbn [fst snd] in *.
    assert (Het' : et' = ez) by (subst ez; lia).
    assert (Hef' : ef' = ez) by (subst ez; lia).
    rewrite Het' in Ht. rewrite Hef' in Hf. clear Et Ef Het' Hef'.
    destruct (binary_normalize_sign (Z.pos mt' - Z.pos mf') ez) as [Hn Hp].
    split; intros Hle.
    + apply Hn. rewrite Ht, Hf.
      pose proof (leb_value mf mt ef et ez Vf Vt ltac:(subst ez; lia) ltac:(subst ez; lia) Hle).
      lia.
    + apply Hp. rewrite Ht, Hf.
      pose proof (leb_value mt mf et ef ez Vt Vf ltac:(subst ez; lia) ltac:(subst ez; lia) Hle).
      lia.
Qed.

(** Dividing by a positive number or by the positive infinity keeps
    the sign. *)
Lemma div_sign (x y : spec_float) :
  F32.is_finite x = true ->
  (exists m e, y = S754_finite false m e) \/ y = S754_infinity false ->
  (nonneg x = true -> nonneg (F32.div x y) = true) /\
  (nonpos x = true -> nonpos (F32.div x y) = true).
Proof.
  intros Hx Hy.
  assert (Hfin : forall sx mx ex my ey,
            match F32.div (S754_finite sx mx ex) (S754_finite false my ey) with
            | S754_zero s | S754_infinity s | S754_finite s _ _ => s = sx
            | S754_nan => False
            end).
  { intros sx mx ex my ey. unfold F32.div, SFdiv, F32.prec, F32.emax.
    pose proof (SFdiv_core_binary_nonneg mx my ex ey) as Hq.
    destruct (SFdiv_core_binary 24 128 (Z.pos mx) ex (Z.pos my) ey) as [[q e'] l].
    cbn [fst] in Hq.
    pose proof (binary_round_aux_shape (xorb sx false) q e' l Hq) as H.
    rewrite xorb_false_r in *.
    destruct (binary_round_aux 24 128 sx q e' l); tauto. }
  destruct x as [sx|sx| |sx mx ex]; try discriminate Hx.
  - destruct Hy as [(m & e & ->) | ->]; split; reflexivity.
  - destruct Hy as [(m & e & ->) | ->].
    + specialize (Hfin sx mx ex m e).
      destruct (F32.div (S754_finite sx mx ex) (S754_finite false m e));
        try contradiction; subst; cbn [nonneg nonpos]; split; intros H; try reflexivity;
        exact H.
    + split; reflexivity.
Qed.

(** ** One step of a channel *)

Lemma clamp_positive (m : positive) (e : Z) :
  clamp (S754_finite false m e) = S754_finite false m e \/
  clamp (S754_finite false m e) = F32.one /\
  F32.ltb F32.one (S754_finite false m e) = true.
Proof.
  unfold clamp, F32.min.
  destruct (F32.ltb F32.one (S754_finite false m e)); [right; split | left]; reflexivity.
Qed.

Lemma clamp_negative (x : spec_float) :
  nonpos x = true -> exists s, clamp x = S754_zero s.
Proof.
  destruct x as [s|s| |s m e]; try discriminate; cbn [nonpos].
  - intros _. exists s. destruct s; reflexivity.
  - intros ->. exists false. reflexivity.
  - intros ->. exists false. reflexivity.
Qed.

Lemma leb_zero_l (s : bool) (x : spec_float) :
  F32.in_unit x = true -> F32.leb (S754_zero s) x = true.
Proof.
  intros H. destruct (in_unit_shape x H) as [[s' ->] | (m & e & -> & _)]; reflexivity.
Qed.

Lemma leb_refl_unit (x : spec_float) : F32.in_unit x = true -> F32.leb x x = true.
Proof.
  intros H. destruct (in_unit_shape x H) as [[s' ->] | (m & e & -> & _)]; [reflexivity|].
  apply leb_finite_pos. right. split; [reflexivity | lia].
Qed.

Lemma ltb_finite_pos (m1 m2 : positive) (e1 e2 : Z) :
  F32.ltb (S754_finite false m1 e1) (S754_finite false m2 e2) = true <->
  e1 < e2 \/ e1 = e2 /\ Z.pos m1 < Z.pos m2.
Proof.
  unfold F32.ltb, SFltb. rewrite SFcompare_finite_pos.
  change (Pos.compare_cont Eq m1 m2) with (Pos.compare m1 m2).
  destruct (Z.compare_spec e1 e2) as [E | E | E].
  - destruct (Pos.compare_spec m1 m2) as [Em | Em | Em]; split; try (intros; lia);
      try discriminate; try (intros _; right; split; [assumption | lia]).
  - split; [intros _; left; assumption | reflexivity].
  - split; [discriminate | intros; lia].
Qed.

(** A step with a delta that is not negative does not lower the
    channel. *)
Lemma step_up (x d : spec_float) :
  F32.valid x = true -> F32.in_unit x = true ->
  F32.valid d = true -> nonneg d = true ->
  F32.valid (clamp (F32.add x d)) = true /\
  F32.in_unit (clamp (F32.add x d)) = true /\
  F32.leb x (clamp (F32.add x d)) = true.
Proof.
  intros Vx Ux Vd Nd.
  assert (Hnan : F32.is_nan (F32.add x d) = false).
  { apply add_not_nan; [apply in_unit_finite, Ux | destruct d; try reflexivity; discriminate]. }
  pose proof (clamp_in_unit _ Hnan) as Hu.
  assert (Hv : F32.valid (clamp (F32.add x d)) = true).
  { destruct (clamp_cases (F32.add x d)) as [-> | [-> | [-> _]]]; try reflexivity.
    apply add_valid; assumption. }
  split; [exact Hv|]. split; [exact Hu|].
  destruct (in_unit_shape x Ux) as [[sx ->] | (mx & ex & -> & Hex)].
  - apply leb_zero_l, Hu.
  - destruct d as [sd|sd| |sd md ed]; try discriminate Nd; cbn [nonneg] in Nd.
    + change (F32.add (S754_finite false mx ex) (S754_zero sd)) with (S754_finite false mx ex).
      rewrite clamp_unit by exact Ux. apply leb_refl_unit, Ux.
    + destruct sd; [discriminate Nd|].
      change (clamp (F32.add (S754_finite false mx ex) (S754_infinity false))) with F32.one.
      apply andb_prop in Ux as [_ Ux]. exact Ux.
    + destruct sd; [discriminate Nd|].
      destruct (add_up mx md ex ed Vx) as [E | (m & e & E & _ & Hle)]; rewrite E.
      * change (clamp (S754_infinity false)) with F32.one.
        apply andb_prop in Ux as [_ Ux]. exact Ux.
      * destruct (clamp_positive m e) as [-> | [-> _]]; [exact Hle|].
        apply andb_prop in Ux as [_ Ux]. exact Ux.
Qed.

(** A step with a delta that is not positive does not raise the
    channel. *)
Lemma step_down (x d : spec_float) :
  F32.valid x = true -> F32.in_unit x = true ->
  F32.valid d = true -> nonpos d = true ->
  F32.valid (clamp (F32.add x d)) = true /\
  F32.in_unit (clamp (F32.add x d)) = true /\
  F32.leb (clamp (F32.add x d)) x = true.
Proof.
  intros Vx Ux Vd Nd.
  assert (Hnan : F32.is_nan (F32.add x d) = false).
  { apply add_not_nan; [apply in_unit_finite, Ux | destruct d; try reflexivity; discriminate]. }
  pose proof (clamp_in_unit _ Hnan) as Hu.
  assert (Hv : F32.valid (clamp (F32.add x d)) = true).
  { destruct (clamp_cases (F32.add x d)) as [-> | [-> | [-> _]]]; try reflexivity.
    apply add_valid; assumption. }
  split; [exact Hv|]. split; [exact Hu|].
  assert (Hneg : forall y, nonpos y = true -> F32.leb (clamp y) x = true).
  { intros y Hy. destruct (clamp_negative y Hy) as [s ->]. apply leb_zero_l, Ux. }
  destruct (in_unit_shape x Ux) as [[sx ->] | (mx & ex & -> & Hex)].
  - apply Hneg. destruct d as [sd|sd| |sd md ed]; try discriminate Nd; cbn [nonpos] in Nd;
      try (subst sd); try reflexivity. destruct sx, sd; reflexivity.
  - destruct d as [sd|sd| |sd md ed]; try discriminate Nd; cbn [nonpos] in Nd.
    + change (F32.add (S754_finite false mx ex) (S754_zero sd)) with (S754_finite false mx ex).
      rewrite clamp_unit by exact Ux. apply leb_refl_unit, Ux.
    + subst sd. apply Hneg. reflexivity.
    + subst sd.
      destruct (add_down mx md ex ed Vx)
        as [[s E] | [(m & e & E) | [E | (m & e & E & _ & Hle)]]]; rewrite E.
      * apply Hneg. reflexivity.
      * apply Hneg. reflexivity.
      * apply Hneg. reflexivity.
      * destruct (clamp_positive m e) as [-> | [_ Hlt]]; [exact Hle|].
        exfalso.
        apply andb_prop in Ux as [_ Ux1].
        unfold F32.one in Hlt, Ux1.
        apply ltb_finite_pos in Hlt. apply leb_finite_pos in Ux1, Hle. lia.
Qed.

(** ** The direction of a transition *)

Lemma step_color_toward (to from delta c : color) :
  channels_ok to from delta c ->
  channels_ok to from delta (step_color c delta) /\
  toward_color to from c (step_color c delta).
Proof.
  intros Hok.
  assert (H : forall j t f d y,
            to !! j = Some t -> from !! j = Some f -> delta !! j = Some d ->
            step_color c delta !! j = Some y ->
            exists x, c !! j = Some x /\ y = clamp (F32.add x d) /\ channel_ok t f d x).
  { intros j t f d y Ht Hf Hd Hy. unfold step_color, color in *.
    rewrite lookup_zip_with in Hy.
    destruct (c !! j) as [x|] eqn:Hx; [|discriminate Hy]. rewrite Hd in Hy.
    cbn [mbind option_bind] in Hy. injection Hy as <-.
    exists x. split; [reflexivity|]. split; [reflexivity|]. eapply Hok; eassumption. }
  split.
  - intros j t f d y Ht Hf Hd Hy.
    destruct (H j t f d y Ht Hf Hd Hy) as (x & Hx & -> & (Vx & Ux & Vd & Nd & Hup & Hdn)).
    assert (Hnan : F32.is_nan (F32.add x d) = false)
      by (apply add_not_nan; [apply in_unit_finite, Ux | exact Nd]).
    split; [|split; [apply clamp_in_unit, Hnan | repeat split; assumption]].
    destruct (clamp_cases (F32.add x d)) as [-> | [-> | [-> _]]]; try reflexivity.
    apply add_valid; assumption.
  - intros j t f x y Ht Hf Hx Hy.
    assert (Hj : (j < length delta)%nat).
    { unfold step_color, color in *. apply lookup_lt_Some in Hy.
      rewrite length_zip_with in Hy. lia. }
    destruct (lookup_lt_is_Some_2 delta j Hj) as [d Hd].
    destruct (H j t f d y Ht Hf Hd Hy) as (x' & Hx' & -> & (Vx & Ux & Vd & Nd & Hup & Hdn)).
    assert (x' = x) by congruence. subst x'.
    unfold toward. apply andb_true_intro. split.
    + destruct (F32.leb f t); [|reflexivity]. cbn [implb].
      apply step_up; auto.
    + destruct (F32.leb t f); [|reflexivity]. cbn [implb].
      apply step_down; auto.
Qed.

Lemma maxi_cases (h : RgbLightHandler) :
  0 <= transitionTime h < 2 ^ 32 -> 0 <= transitionRefreshInterval h < 2 ^ 32 ->
  F32.eqb (maxi_of h) F32.zero = true \/ maxi_of h = S754_nan \/
  (exists m e, maxi_of h = S754_finite false m e) \/ maxi_of h = S754_infinity false.
Proof.
  intros HD HR.
  destruct (Z.eq_dec (transitionTime h) 0) as [D0 | Dn];
    destruct (Z.eq_dec (transitionRefreshInterval h) 0) as [R0 | Rn].
  - right. left. unfold maxi_of. rewrite D0, R0. reflexivity.
  - left. rewrite (maxi_zero_time h D0) by lia. reflexivity.
  - right. right. right. apply maxi_zero_interval; [lia | exact R0].
  - right. right. left. destruct (maxi_positive h) as (m & e & E & _); [lia | lia |].
    exists m, e. exact E.
Qed.

Lemma delta_color_ok (maxi : spec_float) (to from : color) :
  Color to -> Color from ->
  (exists m e, maxi = S754_finite false m e) \/ maxi = S754_infinity false ->
  channels_ok to from (delta_color maxi to from) from.
Proof.
  intros [_ Hto] [_ Hfrom] Hmaxi j t f d x Ht Hf Hd Hx.
  assert (x = f) by congruence. subst x.
  unfold delta_color, color in *. rewrite lookup_zip_with, Ht, Hf in Hd.
  cbn [mbind option_bind] in Hd. injection Hd as <-.
  destruct (Forall_lookup_1 _ _ _ _ Hto Ht) as [Vt Ut].
  destruct (Forall_lookup_1 _ _ _ _ Hfrom Hf) as [Vf Uf].
  pose proof (sub_unit_finite t f Vt Vf Ut Uf) as Hfin.
  destruct (sub_sign t f Vt Vf Ut Uf) as [Sup Sdn].
  destruct (div_sign (F32.sub t f) maxi Hfin Hmaxi) as [Dup Ddn].
  split; [exact Vf|]. split; [exact Uf|]. split; [apply div_valid|]. split; [|split].
  - apply div_not_nan; [exact Hfin | |];
      destruct Hmaxi as [(m & e & ->) | ->]; try reflexivity; discriminate.
  - intros H. apply Dup, Sup, H.
  - intros H. apply Ddn, Sdn, H.
Qed.

Lemma transition_loop_toward (fuel : nat) (tl fl tr fr : color) :
  forall (refresh : Z) (maxi : spec_float) (i : Z) (cl cr ld rd : color),
    length cl = NUM_COLORS -> length cr = NUM_COLORS ->
    length ld = NUM_COLORS -> length rd = NUM_COLORS ->
    channels_ok tl fl ld cl -> channels_ok tr fr rd cr ->
    forall k p q,
      ((cl, cr) :: pushes (snd (transition_loop fuel refresh maxi i cl cr ld rd))) !! k
        = Some p ->
      ((cl, cr) :: pushes (snd (transition_loop fuel refresh maxi i cl cr ld rd))) !! S k
        = Some q ->
      toward_color tl fl p.1 q.1 /\ toward_color tr fr p.2 q.2.
Proof.
  induction fuel as [|fuel IH]; intros refresh maxi i cl cr ld rd L1 L2 L3 L4 Ol Or k p q.
  - rewrite transition_loop_O. destruct (F32.ltb _ _); intros _ Hq; destruct k; discriminate Hq.
  - rewrite transition_loop_S.
    destruct (F32.ltb _ _); [|intros _ Hq; destruct k; discriminate Hq].
    rewrite color_loop_4 by assumption.
    destruct (step_color_toward tl fl ld cl Ol) as [Ol' Tl].
    destruct (step_color_toward tr fr rd cr Or) as [Or' Tr].
    assert (Hfirst : forall rest,
              ((cl, cr) :: (step_color cl ld, step_color cr rd) :: rest) !! k = Some p ->
              ((cl, cr) :: (step_color cl ld, step_color cr rd) :: rest) !! S k = Some q ->
              (forall p' q', ((step_color cl ld, step_color cr rd) :: rest) !! (k - 1)%nat = Some p' ->
                             ((step_color cl ld, step_color cr rd) :: rest) !! S (k - 1) = Some q' ->
                             toward_color tl fl p'.1 q'.1 /\ toward_color tr fr p'.2 q'.2) ->
              toward_color tl fl p.1 q.1 /\ toward_color tr fr p.2 q.2).
    { intros rest Hp Hq Hrest. destruct k as [|k].
      - injection Hp as <-. injection Hq as <-. split; assumption.
      - apply Hrest; replace (S k - 1)%nat with k by lia; assumption. }
    destruct (i =? INT_MAX).
    + cbn [snd pushes omap]. intros Hp Hq. apply (Hfirst [] Hp Hq).
      intros p' q' _ Hq'. discriminate Hq'.
    + specialize (IH refresh maxi (i + 1) (step_color cl ld) (step_color cr rd) ld rd
                    (length_step_color _ _ _ L1 L3) (length_step_color _ _ _ L2 L4) L3 L4
                    Ol' Or').
      destruct (transition_loop fuel _ _ _ _ _ _ _) as [o tr0]. cbn [snd] in *.
      rewrite pushes_app. intros Hp Hq. apply (Hfirst (pushes tr0) Hp Hq).
      intros p' q'. apply IH.
Qed.

(** X21. A transition never moves a channel away from its direction: for
    colors of the data model and timings that fit an [unsigned int],
    from one pushed color to the next (and from the start color to the
    first pushed one) a channel whose target is not below its start does
    not fall, and a channel whose target is not above its start does not
    rise, however the single-precision sums round. *)
Theorem transition_monotone (fuel : nat) (h : RgbLightHandler)
    (leftFrom rightFrom : color) (k : nat) (p q : color * color) :
  Color leftFrom -> Color rightFrom ->
  Color (target (patternLeft h)) -> Color (target (patternRight h)) ->
  0 <= transitionTime h < 2 ^ 32 -> 0 <= transitionRefreshInterval h < 2 ^ 32 ->
  ((leftFrom, rightFrom) :: pushes (snd (transitionBoth fuel h leftFrom rightFrom))) !! k
    = Some p ->
  ((leftFrom, rightFrom) :: pushes (snd (transitionBoth fuel h leftFrom rightFrom))) !! S k
    = Some q ->
  toward_color (target (patternLeft h)) leftFrom p.1 q.1 /\
  toward_color (target (patternRight h)) rightFrom p.2 q.2.
Proof.
  intros Cl Cr Tl Tr HD HR.
  rewrite transitionBoth_eq by (apply Color_length; assumption).
  destruct (maxi_cases h HD HR) as [Ez | [En | Hmaxi]].
  - rewrite Ez. intros _ Hq. destruct k; discriminate Hq.
  - rewrite En. change (F32.eqb S754_nan F32.zero) with false. cbv iota.
    rewrite transition_loop_done by apply ltb_nan_r.
    intros _ Hq. destruct k; discriminate Hq.
  - destruct (F32.eqb (maxi_of h) F32.zero); [intros _ Hq; destruct k; discriminate Hq|].
    pose proof (transition_loop_toward fuel (target (patternLeft h)) leftFrom
                  (target (patternRight h)) rightFrom (transitionRefreshInterval h)
                  (maxi_of h) 0 leftFrom rightFrom
                  (delta_color (maxi_of h) (target (patternLeft h)) leftFrom)
                  (delta_color (maxi_of h) (target (patternRight h)) rightFrom)
                  (Color_length _ Cl) (Color_length _ Cr)
                  (length_delta_color _ _ _ _ (Color_length _ Tl) (Color_length _ Cl))
                  (length_delta_color _ _ _ _ (Color_length _ Tr) (Color_length _ Cr))
                  (delta_color_ok _ _ _ Tl Cl Hmaxi) (delta_color_ok _ _ _ Tr Cr Hmaxi)
                  k p q) as H.
    destruct (transition_loop _ _ _ _ _ _ _ _) as [o tr0]. exact H.
Qed.

Lemma transition_monotone_witness :
  let ps := pushes (snd (transitionBoth 3 (fading 10 15 white) black black)) in
  let q := nth 0 ps (black, black) in
  toward_color (target (patternLeft (fading 10 15 white))) black (black, black).1 q.1 /\
  toward_color (target (patternRight (fading 10 15 white))) black (black, black).2 q.2.
Proof.
  cbv zeta.
  apply (transition_monotone 3 (fading 10 15 white) black black 0 (black, black)).
  - apply Color_black.
  - apply Color_black.
  - apply Color_white.
  - apply Color_white.
  - cbn. lia.
  - cbn. lia.
  - reflexivity.
  - vm_compute. reflexivity.
Defined.

(** * Colors of the data model, everywhere *)

Lemma step_Color (c d : color) :
  Color c -> good_deltas d -> Color (step_color c d).
Proof.
  intros [Lc Hc] [Ld Hd]. split; [apply length_step_color; congruence|].
  unfold step_color.
  apply (Forall_zip_with_2
           (fun x => F32.valid x = true /\ F32.in_unit x = true)
           (fun x => F32.valid x = true /\ F32.is_nan x = false)); [|exact Hc | exact Hd].
  intros x y [Vx Ux] [Vy Ny].
  assert (Hnan : F32.is_nan (F32.add x y) = false)
    by (apply add_not_nan; [apply in_unit_finite, Ux | exact Ny]).
  split; [|apply clamp_in_unit, Hnan].
  destruct (clamp_cases (F32.add x y)) as [-> | [-> | [-> _]]]; try reflexivity.
  apply add_valid; assumption.
Qed.

Lemma delta_color_good (maxi : spec_float) (t f : color) :
  Color t -> Color f ->
  F32.is_nan maxi = false -> (forall s, maxi <> S754_zero s) ->
  good_deltas (delta_color maxi t f).
Proof.
  intros Ct Cf Hn Hz. split.
  - apply length_delta_color; apply Color_length; assumption.
  - pose proof (delta_color_not_nan maxi t f Ct Cf Hn Hz) as H.
    unfold delta_color in *. clear - H.
    revert f H. induction t as [|x t IH]; intros [|y f] H; try constructor.
    + split; [apply div_valid|]. apply Forall_cons in H as [H _]. exact H.
    + apply IH. apply Forall_cons in H as [_ H]. exact H.
Qed.

Lemma transition_loop_Color (fuel : nat) :
  forall (refresh : Z) (maxi : spec_float) (i : Z) (lf rf ld rd : color),
    Color lf -> Color rf -> good_deltas ld -> good_deltas rd ->
    Forall (fun p => Color p.1 /\ Color p.2)
      (pushes (snd (transition_loop fuel refresh maxi i lf rf ld rd))).
Proof.
  induction fuel as [|fuel IH]; intros refresh maxi i lf rf ld rd Cl Cr Dl Dr.
  - rewrite transition_loop_O. destruct (F32.ltb _ _); constructor.
  - rewrite transition_loop_S. destruct (F32.ltb _ _); [|constructor].
    rewrite color_loop_4
      by (try (apply Color_length; assumption); try (apply Dl); apply Dr).
    pose proof (step_Color lf ld Cl Dl) as Cl'. pose proof (step_Color rf rd Cr Dr) as Cr'.
    destruct (i =? INT_MAX); [constructor; [split; assumption | constructor]|].
    specialize (IH refresh maxi (i + 1) _ _ ld rd Cl' Cr' Dl Dr).
    destruct (transition_loop fuel _ _ _ _ _ _ _) as [o tr]. cbn [snd] in *.
    rewrite pushes_app. apply Forall_app. split; [|exact IH].
    constructor; [split; assumption | constructor].
Qed.

(** X22. A transition between Colors of the data model pushes only
    Colors of the data model: [NUM_COLORS] channels, each a member of
    the single-precision format and in [0, 1]. *)
Theorem transition_pushes_Colors (fuel : nat) (h : RgbLightHandler)
    (leftFrom rightFrom : color) :
  Color leftFrom -> Color rightFrom ->
  Color (target (patternLeft h)) -> Color (target (patternRight h)) ->
  Forall (fun p => Color p.1 /\ Color p.2)
    (pushes (snd (transitionBoth fuel h leftFrom rightFrom))).
Proof.
  intros Cl Cr Tl Tr.
  rewrite transitionBoth_eq by (apply Color_length; assumption).
  destruct (F32.eqb (maxi_of h) F32.zero) eqn:Ez; [constructor|].
  destruct (F32.is_nan (maxi_of h)) eqn:En.
  { destruct (maxi_of h); try discriminate En.
    rewrite transition_loop_done by apply ltb_nan_r. constructor. }
  pose proof (eqb_zero_false_nonzero _ Ez) as Hz.
  pose proof (transition_loop_Color fuel (transitionRefreshInterval h) (maxi_of h) 0
                leftFrom rightFrom _ _ Cl Cr
                (delta_color_good _ _ _ Tl Cl En Hz) (delta_color_good _ _ _ Tr Cr En Hz)) as H.
  destruct (transition_loop _ _ _ _ _ _ _ _) as [o tr]. exact H.
Qed.

Lemma transition_pushes_Colors_witness :
  Forall (fun p => Color p.1 /\ Color p.2)
    (pushes (snd (transitionBoth 3 (fading 10 15 white) black black))).
Proof.
  apply (transition_pushes_Colors 3 (fading 10 15 white) black black);
    first [apply Color_black | apply Color_white].
Defined.

Section SinkSafety.
Import Locking.

Lemma good_pattern_getColor (p : RgbLightPattern) :
  good_pattern p -> Color (target p) /\ good_pattern (snd (getColor p)).
Proof. intros H. split; [apply H | exact H]. Qed.

Lemma Color_zeros : Color [F32.zero; F32.zero; F32.zero; F32.zero].
Proof. exact Color_black. Qed.

Lemma well_formed_initial (h : RgbLightHandler) :
  good_pattern (patternLeft h) -> good_pattern (patternRight h) -> well_formed (initial h).
Proof.
  intros Hl Hr. unfold well_formed, initial. cbn [handler wlocals wpc callers sink fst snd].
  split; [exact Hl|]. split; [exact Hr|]. split; [apply Color_zeros|].
  split; [apply Color_zeros|]. split; [exact I|]. split; constructor.
Qed.

Lemma transition_enter_good (h h' : RgbLightHandler) (lf rf : color) (pc : worker_pc) :
  good_pattern (patternLeft h) -> good_pattern (patternRight h) ->
  Color lf -> Color rf ->
  transition_enter h lf rf = (h', pc) ->
  good_pattern (patternLeft h') /\ good_pattern (patternRight h') /\ good_pc pc.
Proof.
  intros Hl Hr Cl Cr. unfold transition_enter. cbn [getColor].
  destruct (F32.eqb (maxi_of h) F32.zero) eqn:Ez.
  { intros [= <- <-]. split; [exact Hl|]. split; [exact Hr | exact I]. }
  rewrite delta_loop_4;
    try reflexivity; try (apply Color_length; first [assumption | apply Hl | apply Hr]).
  intros [= <- <-]. split; [exact Hl|]. split; [exact Hr|].
  split; [exact Cl|]. split; [exact Cr|]. intros En.
  pose proof (eqb_zero_false_nonzero _ Ez) as Hz.
  split; apply delta_color_good; try assumption; first [apply Hl | apply Hr].
Qed.

Lemma good_call_apply (c : call) (h : RgbLightHandler) :
  good_call c -> good_pattern (patternLeft h) -> good_pattern (patternRight h) ->
  good_pattern (patternLeft (apply_call c h)) /\
  good_pattern (patternRight (apply_call c h)).
Proof. destruct c; cbn; intros; split; assumption. Qed.

Ltac seven := split; [|split; [|split; [|split; [|split; [|split]]]]].

Lemma well_formed_step (s s' : system) :
  well_formed s -> good_step s s' -> well_formed s'.
Proof.
  intros (Hl & Hr & Cl & Cr & Hpc & Hcs & Hsink) [Hstep Hcs'].
  unfold well_formed.
  destruct Hstep; cbn [handler wlocals wpc callers sink good_pc] in *.
  all: try (seven; first [assumption | exact I]).
  - (* the worker enters transitionBoth *)
    destruct (transition_enter_good _ _ _ _ _ Hl Hr Cl Cr H0) as (Hl' & Hr' & Hpc').
    seven; assumption.
  - (* a step of the loop *)
    destruct Hpc as (Clf & Crf & Hd).
    assert (En : F32.is_nan maxi = false).
    { destruct maxi; try reflexivity. rewrite ltb_nan_r in H. discriminate H. }
    destruct (Hd En) as [Dl Dr].
    rewrite color_loop_4 in H0
      by (try (apply Color_length; assumption); try (apply Dl); apply Dr).
    injection H0 as <- <-.
    pose proof (step_Color lf ld Clf Dl). pose proof (step_Color rf rd Crf Dr).
    seven; try assumption; [split; [assumption | split; [assumption | intros _; split; assumption]]|].
    apply Forall_app. split; [assumption|].
    constructor; [split; assumption | constructor; [exact I | constructor]].
  - (* the counter overflows *)
    destruct Hpc as (Clf & Crf & Hd).
    assert (En : F32.is_nan maxi = false).
    { destruct maxi; try reflexivity. rewrite ltb_nan_r in H. discriminate H. }
    destruct (Hd En) as [Dl Dr].
    rewrite color_loop_4 in H0
      by (try (apply Color_length; assumption); try (apply Dl); apply Dr).
    injection H0 as <- <-.
    pose proof (step_Color lf ld Clf Dl). pose proof (step_Color rf rd Crf Dr).
    seven; try assumption; try exact I.
    apply Forall_app. split; [assumption|].
    constructor; [split; assumption | constructor; [exact I | constructor]].
  - (* the patterns are sampled *)
    rewrite sample_eq in H. injection H as <- <- _.
    cbn [colorLeft colorRight]. seven; try assumption; first [apply Hl | apply Hr | exact I].
  - (* the sample is pushed *)
    seven; try assumption; try exact I.
    apply Forall_app. split; [assumption|]. constructor; [split; assumption | constructor].
  - (* the worker sleeps *)
    seven; try assumption; try exact I.
    apply Forall_app. split; [assumption|]. constructor; [exact I | constructor].
  - (* a caller releases the lock *)
    pose proof (Forall_lookup_1 _ _ _ _ Hcs H) as Hc. cbn [good_caller] in Hc.
    destruct (good_call_apply c h Hc Hl Hr) as [Hl' Hr'].
    seven; assumption.
Qed.

(** X23. As long as the patterns the handler starts with and the patterns
    given to the replacement calls report Colors of the data model, the
    sink is given nothing but Colors of the data model, however the
    worker and the callers interleave. *)
Theorem sink_receives_Colors (h : RgbLightHandler) (s : system) :
  good_pattern (patternLeft h) -> good_pattern (patternRight h) ->
  rtc good_step (initial h) s ->
  Forall good_event (sink s).
Proof.
  intros Hl Hr Hrtc.
  assert (H : well_formed s).
  { apply rtc_nsteps in Hrtc. destruct Hrtc as [n Hn]. revert s Hn.
    induction n as [|n IH]; intros s Hn.
    - inversion Hn; subst. apply well_formed_initial; assumption.
    - apply nsteps_inv_r in Hn. destruct Hn as (s0 & H0 & Hs).
      eapply well_formed_step; [apply IH, H0 | exact Hs]. }
  apply H.
Qed.

Lemma first_push_reached (h : RgbLightHandler) :
  patternsChanged h && transitionsEnabled h = false ->
  rtc good_step (initial h) (first_push h).
Proof.
  intros E. unfold first_push, initial. rewrite sample_eq. cbn [fst snd].
  eapply rtc_l; [split; [apply step_loop_enter; reflexivity | constructor]|].
  eapply rtc_l; [split; [apply step_worker_lock | constructor]|].
  eapply rtc_l; [split; [apply step_check_skip; exact E | constructor]|].
  eapply rtc_l; [split; [eapply step_sample; apply sample_eq | constructor]|].
  eapply rtc_l; [split; [apply step_unlock | constructor]|].
  eapply rtc_l; [split; [apply step_push | constructor]|].
  apply rtc_refl.
Qed.

Lemma sink_receives_Colors_witness :
  Forall good_event (sink (first_push (new_RgbLightHandler junk 20 black))).
Proof.
  apply (sink_receives_Colors (new_RgbLightHandler junk 20 black)).
  - intros n. apply Color_black.
  - intros n. apply Color_black.
  - apply first_push_reached. reflexivity.
Defined.
End SinkSafety.
